(** * Chess Mastery Platform: rules engine, game session and matchmaking

    A shallow embedding of [backend_express/src/chess/engine.js],
    [controllers/games.js] and the matchmaking controller, followed by the
    properties proved about them.

    Conventions of the embedding:
    - JavaScript strings are [string]; characters are 7-bit ASCII (case
      mapping is the identity on every other code).
    - [null] and [undefined] are both [None]; a board square is a one-character
      string or [null], hence [option ascii].
    - Coordinates are JS numbers that only ever hold small integers: [Z].
    - A [TypeError] raised by the runtime (reading a property of [undefined])
      is the outcome [Throw]; everything else returns with [Ret]. *)

From Stdlib Require Import ZArith NArith Ascii String List Lia.
From Stdlib Require Import DecimalString DecimalN Sorted.
From stdpp Require Import base option list gmap strings.

Local Open Scope string_scope.
Local Open Scope Z_scope.
Local Open Scope list_scope.

(** ** JavaScript runtime helpers *)

Module Js.

(** Outcome of a JS call that may raise. *)
Inductive Exn (A : Type) : Type :=
  | Ret (a : A)
  | Throw.
Arguments Ret {A} a.
Arguments Throw {A}.

#[global] Instance exn_ret : MRet Exn := @Ret.
#[global] Instance exn_bind : MBind Exn := fun A B f x =>
  match x with
  | Ret a => f a
  | Throw => Throw
  end.

(** Runs [f] on every element in order; the first raise aborts the loop. *)
Fixpoint forEachM {A B : Type} (f : A -> Exn (list B)) (l : list A) : Exn (list B) :=
  match l with
  | [] => Ret []
  | a :: l' => r ← f a; rs ← forEachM f l'; Ret (r ++ rs)
  end.

(** Keeps the elements on which [f] returns [true]; the first raise aborts. *)
Fixpoint filterM {A : Type} (f : A -> Exn bool) (l : list A) : Exn (list A) :=
  match l with
  | [] => Ret []
  | a :: l' => keep ← f a; rs ← filterM f l'; Ret (if keep : bool then a :: rs else rs)
  end.

(** [/\d/.test(ch)] *)
Definition isDigit (c : ascii) : bool :=
  (48 <=? nat_of_ascii c)%nat && (nat_of_ascii c <=? 57)%nat.

(** [Number(ch)] for a digit character. *)
Definition digitValue (c : ascii) : nat := (nat_of_ascii c - 48)%nat.

(** [String.prototype.toUpperCase] / [toLowerCase] on one ASCII character. *)
Definition toUpperCase (c : ascii) : ascii :=
  let n := nat_of_ascii c in
  if (97 <=? n)%nat && (n <=? 122)%nat then ascii_of_nat (n - 32) else c.

Definition toLowerCase (c : ascii) : ascii :=
  let n := nat_of_ascii c in
  if (65 <=? n)%nat && (n <=? 90)%nat then ascii_of_nat (n + 32) else c.

(** [s.split(sep)] for a one-character separator: empty pieces are kept and
    the result is never empty. *)
Fixpoint split (sep : ascii) (s : string) : list string :=
  match s with
  | EmptyString => [EmptyString]
  | String c s' =>
      if Ascii.eqb c sep then EmptyString :: split sep s'
      else match split sep s' with
           | h :: t => String c h :: t
           | [] => [String c EmptyString]
           end
  end.

(** [s.includes(c)] *)
Fixpoint includes (s : string) (c : ascii) : bool :=
  match s with
  | EmptyString => false
  | String d s' => Ascii.eqb d c || includes s' c
  end.

(** [s.replace(c, '')] with a string pattern: only the first occurrence. *)
Fixpoint removeFirst (c : ascii) (s : string) : string :=
  match s with
  | EmptyString => EmptyString
  | String d s' => if Ascii.eqb d c then s' else String d (removeFirst c s')
  end.

(** [s.replace(/[..]/g, '')]: every character of the class is removed. *)
Fixpoint removeAll (cls : ascii -> bool) (s : string) : string :=
  match s with
  | EmptyString => EmptyString
  | String d s' => if cls d then removeAll cls s' else String d (removeAll cls s')
  end.

(** [s.match(/[..]/)?.[0]]: the first character of the class, if any. *)
Fixpoint firstOf (cls : ascii -> bool) (s : string) : option ascii :=
  match s with
  | EmptyString => None
  | String d s' => if cls d then Some d else firstOf cls s'
  end.

(** White space removed by [trim] (ASCII part). *)
Definition isSpace (c : ascii) : bool :=
  let n := nat_of_ascii c in
  ((9 <=? n)%nat && (n <=? 13)%nat) || (n =? 32)%nat.

Fixpoint trimStart (s : string) : string :=
  match s with
  | EmptyString => EmptyString
  | String d s' => if isSpace d then trimStart s' else s
  end.

Fixpoint trimEnd (s : string) : string :=
  match s with
  | EmptyString => EmptyString
  | String d s' =>
      match trimEnd s' with
      | EmptyString => if isSpace d then EmptyString else String d EmptyString
      | t => String d t
      end
  end.

Definition trim (s : string) : string := trimEnd (trimStart s).

(** [a[i] = v] on a JS array: inside the array the slot is overwritten, past
    the end the array grows and the skipped slots are holes. *)
Definition arraySet {A : Type} (hole : A) (a : list A) (i : nat) (v : A) : list A :=
  if decide (i < length a)%nat then <[i := v]> a
  else a ++ replicate (i - length a) hole ++ [v].

(** [Array.prototype.indexOf]: [-1] when absent. *)
Fixpoint indexOf (l : list ascii) (c : option ascii) : Z :=
  match l with
  | [] => -1
  | d :: l' =>
      if bool_decide (c = Some d) then 0
      else let r := indexOf l' c in if r <? 0 then -1 else r + 1
  end.

(** A JS number holding a clock of the position text.  [JNat n] is the
    natural number [n]; [JNaN] stands for every other value. *)
Inductive Num : Type :=
  | JNat (n : N)
  | JNaN.

(** [Number(text)].  Unsigned decimal numerals and the empty text are read
    exactly (a double is exact up to 2^53); every other text is mapped to
    [JNaN] (JS also reads signs, fractions, exponents, radix prefixes and
    surrounding white space, none of which [toFen] ever emits). *)
Definition Number (s : option string) : Num :=
  match s with
  | None => JNaN
  | Some t =>
      match NilZero.uint_of_string t with
      | Some u => JNat (N.of_uint u)
      | None => if bool_decide (t = EmptyString) then JNat 0 else JNaN
      end
  end.

(** [String(n)] / template interpolation of a number. *)
Definition numToString (n : Num) : string :=
  match n with
  | JNat k => NilZero.string_of_uint (N.to_uint k)
  | JNaN => "NaN"
  end.

(** [n += 1] on an IEEE double: exact below 2^53, where it saturates. *)
Definition incr (n : Num) : Num :=
  match n with
  | JNat k => JNat (if (k <? 2 ^ 53)%N then k + 1 else k)
  | JNaN => JNaN
  end.

(** Template interpolation [`${s}`] of a string or [undefined]. *)
Definition interp (s : option string) : string :=
  match s with
  | Some t => t
  | None => "undefined"
  end.

(** [s || '-'] *)
Definition orDash (s : option string) : string :=
  match s with
  | Some (String c t) => String c t
  | _ => "-"
  end.

End Js.

(** ** The rules engine ([chess/engine.js]) *)

Module Engine.
Import Js.

Definition FILES : list ascii := ["a"; "b"; "c"; "d"; "e"; "f"; "g"; "h"]%char.
Definition RANKS : list ascii := ["1"; "2"; "3"; "4"; "5"; "6"; "7"; "8"]%char.

(** [{ x, y }] *)
Record Square : Type := { x : Z; y : Z }.

#[global] Instance Square_eq_dec : EqDecision Square.
Proof. solve_decision. Defined.

(** [arr[i]] for a numeric index: [undefined] outside the array. *)
Definition arrayGet {A : Type} (l : list A) (i : Z) : option A :=
  if 0 <=? i then l !! Z.to_nat i else None.

Definition sqToIdx (sq : string) : Square :=
  {| x := indexOf FILES (String.get 0 sq); y := indexOf RANKS (String.get 1 sq) |}.

(** Interpolation of a one-character array element. *)
Definition interpChar (c : option ascii) : string :=
  interp (option_map (fun d => String d EmptyString) c).

Definition idxToSq (fx fy : Z) : string :=
  interpChar (arrayGet FILES fx) +:+ interpChar (arrayGet RANKS fy).

Definition isUpper (c : ascii) : bool := bool_decide (c = toUpperCase c).

(** A square of the grid: a piece letter or [null]. *)
Abbreviation Cell := (option ascii) (only parsing).
Abbreviation Row := (list (option ascii)) (only parsing).
Abbreviation Board := (list (list (option ascii))) (only parsing).

(** The six fields of a position.  [activeColor], [castling] and [enPassant]
    are strings, or [undefined] when the parsed text was too short. *)
Record Position : Type := {
  board : Board;
  activeColor : option string;
  castling : option string;
  enPassant : option string;
  halfmove : Num;
  fullmove : Num
}.

(** [board[cy][cx]].  Every call site guards the rank index with [onBoard] or
    a [0..7] loop and every board has eight ranks, so the row always exists;
    a missing file reads as [undefined]. *)
Definition getCell (b : Board) (cx cy : Z) : Cell :=
  match arrayGet b cy with
  | Some row => default None (arrayGet row cx)
  | None => None
  end.

(** [board[cy][cx] = v].  A missing row raises; a negative file index would
    only add a property to the row object and leaves its elements alone. *)
Definition setCell (b : Board) (cx cy : Z) (v : Cell) : Exn Board :=
  match arrayGet b cy with
  | Some row =>
      if 0 <=? cx
      then Ret (<[Z.to_nat cy := arraySet None row (Z.to_nat cx) v]> b)
      else Ret b
  | None => Throw
  end.

(** *** Position text *)

(** Inner loop of [parseFen]: [file] is the cursor, [row] the rank array. *)
Fixpoint parseRow (chars : string) (file : nat) (row : Row) : Row :=
  match chars with
  | EmptyString => row
  | String ch rest =>
      if isDigit ch then parseRow rest (file + digitValue ch) row
      else parseRow rest (file + 1) (arraySet None row file (Some ch))
  end.

Definition emptyBoard : Board := replicate 8 (replicate 8 None).

(** One turn of the outer loop: [rows[r]] is iterated, which raises when the
    placement has no such rank. *)
Definition parseFenRank (rows : list string) (acc : Exn Board) (r : nat) : Exn Board :=
  b ← acc;
  match rows !! r with
  | None => Throw
  | Some row => Ret (<[(7 - r)%nat := parseRow row 0 (default [] (b !! (7 - r)%nat))]> b)
  end.

Definition parseFen (fen : string) : Exn Position :=
  let fields := split " " fen in
  let placement := default EmptyString (fields !! 0%nat) in
  let rows := split "/" placement in
  b ← fold_left (parseFenRank rows) (seq 0 8) (Ret emptyBoard);
  Ret {| board := b;
         activeColor := fields !! 1%nat;
         castling := (if bool_decide (fields !! 2%nat = Some "-") then Some ""
                      else fields !! 2%nat);
         enPassant := fields !! 3%nat;
         halfmove := Number (fields !! 4%nat);
         fullmove := Number (fields !! 5%nat) |}.

(** [String(empty)] for the run-length counter. *)
Definition natToString (n : nat) : string := NilZero.string_of_uint (Nat.to_uint n).

(** One turn of the inner loop of [toFen] over file [f]; [!p] holds for
    [null] and for a hole. *)
Definition toFenFile (cells : Row) (st : string * nat) (f : nat) : string * nat :=
  let '(row, empty) := st in
  match default None (cells !! f) with
  | None => (row, S empty)
  | Some p =>
      ((if (empty =? 0)%nat then row else row +:+ natToString empty)
       +:+ String p EmptyString, 0%nat)
  end.

(** The text of one rank.  [toFen] reads [board[r]] for [r] from 7 down to 0;
    every board has these eight ranks. *)
Definition toFenRank (cells : Row) : string :=
  let '(row, empty) := fold_left (toFenFile cells) (seq 0 8) (EmptyString, 0%nat) in
  if (empty =? 0)%nat then row else row +:+ natToString empty.

Definition toFen (state : Position) : string :=
  let rows := map (fun r => toFenRank (default [] (board state !! r)))
                [7; 6; 5; 4; 3; 2; 1; 0]%nat in
  String.concat "/" rows +:+ " " +:+ interp (activeColor state)
    +:+ " " +:+ orDash (castling state) +:+ " " +:+ orDash (enPassant state)
    +:+ " " +:+ numToString (halfmove state) +:+ " " +:+ numToString (fullmove state).

(** *** Attacks and checks *)

Definition pieceColor (piece : Cell) : option string :=
  match piece with
  | None => None
  | Some c => Some (if isUpper c then "w" else "b")
  end.

(** [c === 'w'] *)
Definition isW (c : option string) : bool := bool_decide (c = Some "w").

(** [board[cy][cx] === target] *)
Definition cellIs (b : Board) (cx cy : Z) (target : ascii) : bool :=
  bool_decide (getCell b cx cy = Some target).

(** The squares in the order of the nested [y]/[x] loops. *)
Definition allSquares : list Square :=
  flat_map (fun cy => map (fun cx => {| x := cx; y := cy |}) (seqZ 0 8)) (seqZ 0 8).

Definition findKing (b : Board) (color : option string) : option Square :=
  let target := if isW color then "K"%char else "k"%char in
  find (fun sq => cellIs b (x sq) (y sq) target) allSquares.

Definition onBoard (cx cy : Z) : bool :=
  (0 <=? cx) && (cx <? 8) && (0 <=? cy) && (cy <? 8).

Definition jumps : list (Z * Z) :=
  [(1, 2); (2, 1); (-1, 2); (-2, 1); (1, -2); (2, -1); (-1, -2); (-2, -1)].

(** The [dx]/[dy] pairs of the king loops, [(0, 0)] skipped. *)
Definition kingSteps : list (Z * Z) :=
  List.filter (fun d => negb ((d.1 =? 0) && (d.2 =? 0)))
    (flat_map (fun dx => map (fun dy => (dx, dy)) [-1; 0; 1]) [-1; 0; 1]).

Definition diagonals : list (Z * Z) := [(1, 1); (1, -1); (-1, 1); (-1, -1)].
Definition orthogonals : list (Z * Z) := [(1, 0); (-1, 0); (0, 1); (0, -1)].

(** The [while (onBoard(cx, cy))] loop of [isSquareAttacked] along one ray:
    the first occupied square decides.  [fuel] bounds the number of turns; a
    ray leaves the board within eight steps. *)
Fixpoint attackRay (fuel : nat) (b : Board) (byColor : option string)
    (slider queen : ascii) (cx cy dx dy : Z) : bool :=
  match fuel with
  | O => false
  | S fuel' =>
      if onBoard cx cy then
        match getCell b cx cy with
        | Some p =>
            bool_decide (pieceColor (Some p) = byColor)
            && (bool_decide (p = slider) || bool_decide (p = queen))
        | None => attackRay fuel' b byColor slider queen (cx + dx) (cy + dy) dx dy
        end
      else false
  end.

Definition isSquareAttacked (state : Position) (sq : Square) (byColor : option string) : bool :=
  let b := board state in
  let white := isW byColor in
  let pawn := if white then "P"%char else "p"%char in
  let pawnDir := if white then 1 else -1 in
  let knight := if white then "N"%char else "n"%char in
  let king := if white then "K"%char else "k"%char in
  let bishop := if white then "B"%char else "b"%char in
  let queen := if white then "Q"%char else "q"%char in
  let rook := if white then "R"%char else "r"%char in
  existsb (fun dx => onBoard (x sq - dx) (y sq - pawnDir)
                     && cellIs b (x sq - dx) (y sq - pawnDir) pawn) [-1; 1]
  || existsb (fun d => onBoard (x sq + d.1) (y sq + d.2)
                       && cellIs b (x sq + d.1) (y sq + d.2) knight) jumps
  || existsb (fun d => onBoard (x sq + d.1) (y sq + d.2)
                       && cellIs b (x sq + d.1) (y sq + d.2) king) kingSteps
  || existsb (fun d => attackRay 8 b byColor bishop queen
                         (x sq + d.1) (y sq + d.2) d.1 d.2) diagonals
  || existsb (fun d => attackRay 8 b byColor rook queen
                         (x sq + d.1) (y sq + d.2) d.1 d.2) orthogonals.

Definition opposite (color : option string) : option string :=
  if isW color then Some "b" else Some "w".

Definition inCheck (state : Position) (color : option string) : bool :=
  match findKing (board state) color with
  | None => false
  | Some king => isSquareAttacked state king (opposite color)
  end.

(** *** Moves *)

(** [{ from, to, capture, pawnDouble, enPassant, castle, promotion }]; an
    absent flag is [false] / [None].  The move flag [enPassant] is called
    [epCapture] here, [enPassant] being the field of the position. *)
Record Move : Type := {
  from : Square;
  to : Square;
  capture : bool;
  pawnDouble : bool;
  epCapture : bool;
  castle : option ascii;
  promotion : option ascii
}.

(** The optional [flags] argument of [addMove], spread over the move. *)
Inductive Flags : Type :=
  | NoFlags
  | FCapture
  | FPawnDouble
  | FEnPassant.

Definition addMove (b : Board) (color : option string) (src : Square)
    (toX toY : Z) (flags : Flags) : list Move :=
  if negb (onBoard toX toY) then []
  else
    let dest := getCell b toX toY in
    if bool_decide (dest <> None) && bool_decide (pieceColor dest = color) then []
    else
      [ {| from := src; to := {| x := toX; y := toY |};
           capture := match flags with
                      | FCapture | FEnPassant => true
                      | _ => bool_decide (dest <> None)
                      end;
           pawnDouble := match flags with FPawnDouble => true | _ => false end;
           epCapture := match flags with FEnPassant => true | _ => false end;
           castle := None;
           promotion := None |} ].

(** The [while] loop of [slide] along one direction. *)
Fixpoint slideRay (fuel : nat) (b : Board) (color targetColor : option string)
    (src : Square) (cx cy dx dy : Z) : list Move :=
  match fuel with
  | O => []
  | S fuel' =>
      if onBoard cx cy then
        match getCell b cx cy with
        | None =>
            addMove b color src cx cy NoFlags
              ++ slideRay fuel' b color targetColor src (cx + dx) (cy + dy) dx dy
        | Some d =>
            if bool_decide (pieceColor (Some d) = targetColor)
            then addMove b color src cx cy FCapture
            else []
        end
      else []
  end.

Definition slide (b : Board) (color targetColor : option string) (src : Square)
    (dirs : list (Z * Z)) : list Move :=
  flat_map (fun d => slideRay 8 b color targetColor src
                       (x src + d.1) (y src + d.2) d.1 d.2) dirs.

(** [castling.includes(c)]; raises when [castling] is [undefined]. *)
Definition castlingIncludes (castling : option string) (c : ascii) : Exn bool :=
  match castling with
  | Some s => Ret (includes s c)
  | None => Throw
  end.

(** The pawn branch: pushes, then the capture loop over [dx] in [-1, 1]. *)
Definition pawnMoves (state : Position) (color targetColor : option string)
    (src : Square) : list Move :=
  let b := board state in
  let dir := if isW color then 1 else -1 in
  let startRank := if isW color then 1 else 6 in
  (if onBoard (x src) (y src + dir)
      && bool_decide (getCell b (x src) (y src + dir) = None)
   then addMove b color src (x src) (y src + dir) NoFlags
        ++ (if (y src =? startRank)
               && bool_decide (getCell b (x src) (y src + 2 * dir) = None)
            then addMove b color src (x src) (y src + 2 * dir) FPawnDouble
            else [])
   else [])
  ++ flat_map (fun dx =>
       let tx := x src + dx in
       let ty := y src + dir in
       if negb (onBoard tx ty) then []
       else
         let dest := getCell b tx ty in
         (if bool_decide (dest <> None) && bool_decide (pieceColor dest = targetColor)
          then addMove b color src tx ty FCapture else [])
         ++ (let epsq := match enPassant state with
                         | Some s =>
                             if bool_decide (s <> EmptyString) && bool_decide (s <> "-")
                             then Some (sqToIdx s) else None
                         | None => None
                         end in
             match epsq with
             | Some e =>
                 if (x e =? tx) && (y e =? ty)
                 then addMove b color src tx ty FEnPassant else []
             | None => []
             end)) [-1; 1].

Definition castleMove (src : Square) (toX rank : Z) (side : ascii) : Move :=
  {| from := src; to := {| x := toX; y := rank |}; capture := false;
     pawnDouble := false; epCapture := false; castle := Some side;
     promotion := None |}.

(** The king branch: the eight neighbours, then castling. *)
Definition kingMoves (state : Position) (color targetColor : option string)
    (src : Square) : Exn (list Move) :=
  let b := board state in
  let steps := flat_map (fun d => addMove b color src (x src + d.1) (y src + d.2) NoFlags)
                 kingSteps in
  let rank := if isW color then 0 else 7 in
  if negb (inCheck state color) then
    hasK ← castlingIncludes (castling state) (if isW color then "K" else "k")%char;
    let kingSide :=
      if hasK
         && bool_decide (getCell b 5 rank = None) && bool_decide (getCell b 6 rank = None)
         && negb (isSquareAttacked state {| x := 5; y := rank |} targetColor)
         && negb (isSquareAttacked state {| x := 6; y := rank |} targetColor)
      then [castleMove src 6 rank "K"] else [] in
    hasQ ← castlingIncludes (castling state) (if isW color then "Q" else "q")%char;
    let queenSide :=
      if hasQ
         && bool_decide (getCell b 1 rank = None) && bool_decide (getCell b 2 rank = None)
         && bool_decide (getCell b 3 rank = None)
         && negb (isSquareAttacked state {| x := 3; y := rank |} targetColor)
         && negb (isSquareAttacked state {| x := 2; y := rank |} targetColor)
      then [castleMove src 2 rank "Q"] else [] in
    Ret (steps ++ kingSide ++ queenSide)
  else Ret steps.

Definition generatePieceMoves (state : Position) (src : Square) : Exn (list Move) :=
  let b := board state in
  match getCell b (x src) (y src) with
  | None => Ret []
  | Some piece =>
      let color := pieceColor (Some piece) in
      if negb (bool_decide (color = activeColor state)) then Ret []
      else
        let targetColor := if isW color then Some "b" else Some "w" in
        let p := toUpperCase piece in
        if bool_decide (p = "P"%char) then Ret (pawnMoves state color targetColor src)
        else if bool_decide (p = "N"%char) then
          Ret (flat_map (fun d => addMove b color src (x src + d.1) (y src + d.2) NoFlags) jumps)
        else
          let mB := if bool_decide (p = "B"%char)
                    then slide b color targetColor src diagonals else [] in
          let mR := if bool_decide (p = "R"%char)
                    then slide b color targetColor src orthogonals else [] in
          let mQ := if bool_decide (p = "Q"%char)
                    then slide b color targetColor src (diagonals ++ orthogonals) else [] in
          mK ← (if bool_decide (p = "K"%char)
                then kingMoves state color targetColor src else Ret []);
          Ret (mB ++ mR ++ mQ ++ mK)
  end.

(** [next.castling = next.castling.replace(c, '')]; raises on [undefined]. *)
Definition castlingRemoveFirst (c : ascii) (castling : option string) : Exn (option string) :=
  match castling with
  | Some s => Ret (Some (removeFirst c s))
  | None => Throw
  end.

(** [next.castling = next.castling.replace(/[..]/g, '')] *)
Definition castlingRemoveAll (cls : ascii -> bool) (castling : option string)
    : Exn (option string) :=
  match castling with
  | Some s => Ret (Some (removeAll cls s))
  | None => Throw
  end.

Definition isKQ (c : ascii) : bool := bool_decide (c = "K"%char) || bool_decide (c = "Q"%char).
Definition iskq (c : ascii) : bool := bool_decide (c = "k"%char) || bool_decide (c = "q"%char).

(** Runs [f] when [cond] holds, as an [if] statement without [else]. *)
Definition whenM {A : Type} (cond : bool) (f : A -> Exn A) (a : A) : Exn A :=
  if cond then f a else Ret a.

Definition applyMove (state : Position) (move : Move) : Exn Position :=
  let white := isW (activeColor state) in
  let src := from move in
  let dst := to move in
  let piece := getCell (board state) (x src) (y src) in
  b1 ← setCell (board state) (x src) (y src) None;
  (* en passant capture *)
  b2 ← whenM (epCapture move)
         (fun b => setCell b (x dst) (y dst + (if white then -1 else 1)) None) b1;
  (* castling rook movement *)
  b3 ← whenM (bool_decide (castle move <> None))
         (fun b =>
            let rank := if white then 0 else 7 in
            if x dst =? 6 then
              let rook := getCell b 7 rank in
              b' ← setCell b 7 rank None; setCell b' 5 rank rook
            else if x dst =? 2 then
              let rook := getCell b 0 rank in
              b' ← setCell b 0 rank None; setCell b' 3 rank rook
            else Ret b) b2;
  b4 ← setCell b3 (x dst) (y dst)
         (match promotion move with
          | Some pr => Some (if white then pr else toLowerCase pr)
          | None => piece
          end);
  (* castling rights *)
  moved ← match piece with
          | Some pc => Ret (toUpperCase pc)
          | None => Throw
          end;
  let rank := if white then 0 else 7 in
  c1 ← whenM (bool_decide (moved = "K"%char))
         (castlingRemoveAll (if white then isKQ else iskq)) (castling state);
  c2 ← whenM (bool_decide (moved = "R"%char) && (y src =? rank) && (x src =? 0))
         (castlingRemoveFirst (if white then "Q" else "q")%char) c1;
  c3 ← whenM (bool_decide (moved = "R"%char) && (y src =? rank) && (x src =? 7))
         (castlingRemoveFirst (if white then "K" else "k")%char) c2;
  c4 ← whenM (capture move && (y dst =? 0) && (x dst =? 0)) (castlingRemoveFirst "Q"%char) c3;
  c5 ← whenM (capture move && (y dst =? 0) && (x dst =? 7)) (castlingRemoveFirst "K"%char) c4;
  c6 ← whenM (capture move && (y dst =? 7) && (x dst =? 0)) (castlingRemoveFirst "q"%char) c5;
  c7 ← whenM (capture move && (y dst =? 7) && (x dst =? 7)) (castlingRemoveFirst "k"%char) c6;
  let nextColor := if white then Some "b" else Some "w" in
  Ret {| board := b4;
         activeColor := nextColor;
         castling := c7;
         enPassant := (if pawnDouble move
                       then Some (idxToSq (x src) (y src + (if white then 1 else -1)))
                       else Some "-");
         halfmove := (if bool_decide (moved = "P"%char) || capture move
                      then JNat 0 else incr (halfmove state));
         fullmove := (if isW nextColor then incr (fullmove state) else fullmove state) |}.

Definition allLegalMoves (state : Position) : Exn (list Move) :=
  forEachM (fun src =>
    let p := getCell (board state) (x src) (y src) in
    if bool_decide (p = None) then Ret []
    else if negb (bool_decide (pieceColor p = activeColor state)) then Ret []
    else
      gen ← generatePieceMoves state src;
      filterM (fun m =>
                 next ← applyMove state m;
                 Ret (negb (inCheck next (activeColor state)))) gen) allSquares.

(** *** Notation tokens *)

Definition isCheckMark (c : ascii) : bool :=
  bool_decide (c = "+"%char) || bool_decide (c = "#"%char).
Definition isPieceLetter (c : ascii) : bool :=
  bool_decide (c = "K"%char) || bool_decide (c = "Q"%char) || bool_decide (c = "R"%char)
  || bool_decide (c = "B"%char) || bool_decide (c = "N"%char).
Definition isPromoLetter (c : ascii) : bool :=
  bool_decide (c = "Q"%char) || bool_decide (c = "R"%char)
  || bool_decide (c = "B"%char) || bool_decide (c = "N"%char).
Definition isFileChar (c : ascii) : bool :=
  (97 <=? nat_of_ascii c)%nat && (nat_of_ascii c <=? 104)%nat.
Definition isRankChar (c : ascii) : bool :=
  (49 <=? nat_of_ascii c)%nat && (nat_of_ascii c <=? 56)%nat.

(** [san.match(/=([QRBN])/)]: the letter of the first promotion suffix. *)
Fixpoint promotionMatch (s : string) : option ascii :=
  match s with
  | EmptyString => None
  | String c s' =>
      match s' with
      | String d _ =>
          if bool_decide (c = "="%char) && isPromoLetter d then Some d
          else promotionMatch s'
      | EmptyString => None
      end
  end.

(** [san.replace(/=([QRBN])/g, '')] *)
Fixpoint stripPromotions (s : string) : string :=
  match s with
  | EmptyString => EmptyString
  | String c s' =>
      match s' with
      | String d rest =>
          if bool_decide (c = "="%char) && isPromoLetter d then stripPromotions rest
          else String c (stripPromotions s')
      | EmptyString => String c EmptyString
      end
  end.

(** [cleaned.match(/([a-h][1-8])$/)]: the two last characters. *)
Fixpoint destMatch (s : string) : option string :=
  match s with
  | EmptyString => None
  | String f s' =>
      match s' with
      | String r EmptyString =>
          if isFileChar f && isRankChar r then Some s else None
      | _ => destMatch s'
      end
  end.

(** [.replace(/([a-h][1-8])$/, '')] *)
Fixpoint stripDest (s : string) : string :=
  match s with
  | EmptyString => EmptyString
  | String f s' =>
      match s' with
      | String r EmptyString =>
          if isFileChar f && isRankChar r then EmptyString else s
      | _ => String f (stripDest s')
      end
  end.

(** [.replace(/^[KQRBN]/, '')] *)
Definition stripPiece (s : string) : string :=
  match s with
  | String c s' => if isPieceLetter c then s' else s
  | EmptyString => EmptyString
  end.

(** The object returned by [parseSan] for a non-castling token. *)
Record SanMove : Type := {
  pieceLetter : ascii;
  sanTo : Square;
  sanCapture : bool;
  sanPromotion : option ascii;
  disFile : option ascii;
  disRank : option ascii;
  pawnFromFile : option ascii
}.

Inductive ParsedSan : Type :=
  | PCastle (side : ascii)
  | PMove (pm : SanMove).

(** [parseSan]; [None] is the [null] returned for a token without a
    destination square. *)
Definition parseSan (state : Position) (sanRaw : string) : option ParsedSan :=
  let san := trim (removeAll isCheckMark sanRaw) in
  if bool_decide (san = "O-O") || bool_decide (san = "0-0") then Some (PCastle "K")
  else if bool_decide (san = "O-O-O") || bool_decide (san = "0-0-0") then Some (PCastle "Q")
  else
    let promo := promotionMatch san in
    let cleaned := stripPromotions san in
    let capt := includes cleaned "x" in
    let letter := match cleaned with
                  | String c _ => if isPieceLetter c then c else "P"%char
                  | EmptyString => "P"%char
                  end in
    match destMatch cleaned with
    | None => None
    | Some toSq =>
        let between := stripDest (removeFirst "x" (stripPiece cleaned)) in
        Some (PMove {| pieceLetter := letter;
                       sanTo := sqToIdx toSq;
                       sanCapture := capt;
                       sanPromotion := promo;
                       disFile := firstOf isFileChar between;
                       disRank := firstOf isRankChar between;
                       pawnFromFile := (if bool_decide (letter = "P"%char) && capt
                                        then String.get 0 cleaned else None) |})
    end.

(** The successive [filter]/[map] passes over the legal moves. *)
Definition whenSome {A B : Type} (o : option A) (f : A -> B -> B) (b : B) : B :=
  match o with
  | Some a => f a b
  | None => b
  end.

Definition candidatesOf (state : Position) (parsed : ParsedSan) (legalMoves : list Move)
    : list Move :=
  match parsed with
  | PCastle side =>
      let rank := if isW (activeColor state) then 0 else 7 in
      let toX := if bool_decide (side = "K"%char) then 6 else 2 in
      List.filter (fun m => bool_decide (castle m <> None)
                            && (x (to m) =? toX) && (y (to m) =? rank)) legalMoves
  | PMove pm =>
      let desiredPiece := if isW (activeColor state) then pieceLetter pm
                          else toLowerCase (pieceLetter pm) in
      let c0 := List.filter (fun m =>
                  cellIs (board state) (x (from m)) (y (from m)) desiredPiece
                  && (x (to m) =? x (sanTo pm)) && (y (to m) =? y (sanTo pm))
                  && Bool.eqb (capture m) (sanCapture pm)) legalMoves in
      let c1 := whenSome (disFile pm)
                  (fun f => List.filter
                     (fun m => bool_decide (arrayGet FILES (x (from m)) = Some f))) c0 in
      let c2 := whenSome (disRank pm)
                  (fun r => List.filter
                     (fun m => bool_decide (arrayGet RANKS (y (from m)) = Some r))) c1 in
      let c3 := whenSome (pawnFromFile pm)
                  (fun f => List.filter
                     (fun m => bool_decide (arrayGet FILES (x (from m)) = Some f))) c2 in
      whenSome (sanPromotion pm)
        (fun pr => map (fun m => {| from := from m; to := to m; capture := capture m;
                                    pawnDouble := pawnDouble m; epCapture := epCapture m;
                                    castle := castle m; promotion := Some pr |})) c3
  end.

(** [{ ok: false, error }] or [{ ok: true, fenAfter, status }]. *)
Inductive SanResult : Type :=
  | SanError (error : string)
  | SanOk (fenAfter : string) (check checkmate stalemate : bool).

Definition validateAndApplySanMove (fen san : string) : Exn SanResult :=
  state ← parseFen fen;
  match parseSan state san with
  | None => Ret (SanError "Invalid SAN format")
  | Some parsed =>
      legalMoves ← allLegalMoves state;
      let candidates := candidatesOf state parsed legalMoves in
      if negb (length candidates =? 1)%nat then
        Ret (SanError (if (length candidates =? 0)%nat then "Illegal move" else "Ambiguous move"))
      else
        match candidates !! 0%nat with
        | None => Throw
        | Some m =>
            next ← applyMove state m;
            let opponent := activeColor next in
            let oppInCheck := inCheck next opponent in
            oppLegal ← allLegalMoves next;
            let checkmate := oppInCheck && (length oppLegal =? 0)%nat in
            let stalemate := negb oppInCheck && (length oppLegal =? 0)%nat in
            Ret (SanOk (toFen next) oppInCheck checkmate stalemate)
        end
  end.

Definition START_FEN : string := "rnbqkbnr/pppppppp/8/8/8/8/PPPPPPPP/RNBQKBNR w KQkq - 0 1".

End Engine.

(** ** The database rows shared by the controllers *)

Module Store.

(** The two values of the [game_status] column that the controllers use. *)
Inductive GameStatus : Type :=
  | Active
  | Finished.

#[global] Instance GameStatus_eq_dec : EqDecision GameStatus.
Proof. solve_decision. Defined.

(** A row of [games]; [moves] is a [jsonb] array or [null]. *)
Record Game : Type := {
  white_user_id : string;
  black_user_id : string;
  status : GameStatus;
  moves : option (list string);
  current_fen : string;
  winner_user_id : option string
}.

(** A row of [game_moves]. *)
Record GameMove : Type := {
  game_id : string;
  move_number : nat;
  san : string;
  fen_after : string
}.

(** A row of [matchmaking_queue]; [user_id] is its unique key. *)
Record QueueEntry : Type := {
  user_id : string;
  rating_snapshot : Z;
  queued_at : N
}.

Record Db : Type := {
  games : gmap string Game;
  game_moves : list GameMove;
  ratings : gmap string Z;
  matchmaking_queue : list QueueEntry
}.

End Store.

(** ** The game session ([controllers/games.js]) *)

Module Games.
Import Js Engine Store.

(** [scoreA]: 1, 0.5 or 0. *)
Inductive Score : Type :=
  | Win
  | Draw
  | Loss.

(** What the handler answers. *)
Inductive Response : Type :=
  | ErrorJson (code : nat) (message : string)
  | MoveJson (game : Game) (moveSan fenAfter : string) (moveNumber : nat)
  | NextErr.

(** The payload handed to [broadcastToGame]. *)
Record Broadcast : Type := {
  bc_gameId : string;
  bc_san : string;
  bc_fenAfter : string;
  bc_moveNumber : nat;
  bc_status : GameStatus;
  bc_winnerUserId : option string
}.

Section Controller.

(** [computeEloDelta] of [ratings/elo.js] with its default [k = 32].  It is
    computed in IEEE-754 doubles through [**] and [Math.round]; the session
    logic only needs the integer it returns. *)
Variable computeEloDelta : Z -> Z -> Score -> Z.

Definition finalizeRatingsWithClient (db : Db) (game : Game) (draw : bool) : Db :=
  let whiteId := white_user_id game in
  let blackId := black_user_id game in
  let whiteRating := default 1200 (ratings db !! whiteId) in
  let blackRating := default 1200 (ratings db !! blackId) in
  let scoreWhite :=
    if draw then Draw
    else if bool_decide (winner_user_id game = Some whiteId) then Win else Loss in
  let deltaWhite := computeEloDelta whiteRating blackRating scoreWhite in
  let deltaBlack := - deltaWhite in
  let r1 := <[whiteId := Z.max 0 (whiteRating + deltaWhite)]> (ratings db) in
  let r2 := <[blackId := Z.max 0 (blackRating + deltaBlack)]> r1 in
  {| games := games db; game_moves := game_moves db; ratings := r2;
     matchmaking_queue := matchmaking_queue db |}.

(** The transaction of [submitMove], run on the database [db] it finds. *)
Definition commitMove (db : Db) (gameId userId sanText fenAfter : string)
    (moveNumber : nat) (checkmate stalemate : bool) : Response * Db * list Broadcast :=
  match games db !! gameId with
  | None => (ErrorJson 404 "Game not found", db, [])
  | Some lock =>
      if negb (bool_decide (status lock = Active))
      then (ErrorJson 409 "Game not active", db, [])
      else
        let row := {| game_id := gameId; move_number := moveNumber;
                      san := sanText; fen_after := fenAfter |} in
        let newMoves := default [] (moves lock) ++ [sanText] in
        let newStatus := if checkmate || stalemate then Finished else Active in
        let winnerUserId := if checkmate then Some userId else None in
        let updatedGame :=
          {| white_user_id := white_user_id lock; black_user_id := black_user_id lock;
             status := newStatus; moves := Some newMoves; current_fen := fenAfter;
             winner_user_id := winnerUserId |} in
        let db1 := {| games := <[gameId := updatedGame]> (games db);
                      game_moves := game_moves db ++ [row];
                      ratings := ratings db;
                      matchmaking_queue := matchmaking_queue db |} in
        let db2 := if bool_decide (newStatus = Finished)
                   then finalizeRatingsWithClient db1 updatedGame false else db1 in
        (MoveJson updatedGame sanText fenAfter moveNumber, db2,
         [ {| bc_gameId := gameId; bc_san := sanText; bc_fenAfter := fenAfter;
              bc_moveNumber := moveNumber; bc_status := status updatedGame;
              bc_winnerUserId := winner_user_id updatedGame |} ])
  end.

(** [submitMove] with one request running at a time: the row locked by the
    transaction is the row of the first query.  The result is the answer, the
    database afterwards and the broadcasts. *)
Definition submitMove (db : Db) (gameId userId sanText : string)
    : Response * Db * list Broadcast :=
  match games db !! gameId with
  | None => (ErrorJson 404 "Game not found", db, [])
  | Some game =>
      if negb (bool_decide (status game = Active))
      then (ErrorJson 409 "Game not active", db, [])
      else if negb (bool_decide (white_user_id game = userId))
              && negb (bool_decide (black_user_id game = userId))
      then (ErrorJson 403 "Not a player in this game", db, [])
      else
        let turn := split " " (current_fen game) !! 1%nat in
        let expectedUserId := if isW turn then white_user_id game else black_user_id game in
        if negb (bool_decide (expectedUserId = userId))
        then (ErrorJson 409 "Not your turn", db, [])
        else
          match validateAndApplySanMove (current_fen game) sanText with
          | Throw => (NextErr, db, [])
          | Ret (SanError e) => (ErrorJson 400 e, db, [])
          | Ret (SanOk fenAfter _ checkmate stalemate) =>
              let moveNumber := (length (default [] (moves game)) + 1)%nat in
              commitMove db gameId userId sanText fenAfter moveNumber checkmate stalemate
          end
  end.

End Controller.

(** The row that a committed move leaves in [games]. *)
Definition committedGame (game : Game) (userId sanText fenAfter : string)
    (checkmate stalemate : bool) : Game :=
  {| white_user_id := white_user_id game; black_user_id := black_user_id game;
     status := if checkmate || stalemate then Finished else Active;
     moves := Some (default [] (moves game) ++ [sanText]);
     current_fen := fenAfter;
     winner_user_id := if checkmate then Some userId else None |}.

End Games.

(** ** Matchmaking (the matchmaking controller) *)

Module Matchmaking.
Import Js Engine Store.

(** [ORDER BY queued_at ASC]: rows with equal stamps keep the table order. *)
Fixpoint insertByQueuedAt (e : QueueEntry) (l : list QueueEntry) : list QueueEntry :=
  match l with
  | [] => [e]
  | h :: t => if (queued_at e <=? queued_at h)%N then e :: l else h :: insertByQueuedAt e t
  end.

Definition orderByQueuedAt (l : list QueueEntry) : list QueueEntry :=
  fold_right insertByQueuedAt [] l.

(** [SELECT .. FROM matchmaking_queue ORDER BY queued_at ASC LIMIT 2] *)
Definition selectQueued (db : Db) : list QueueEntry :=
  take 2 (orderByQueuedAt (matchmaking_queue db)).

(** The upsert of [join]: [INSERT .. ON CONFLICT (user_id) DO UPDATE SET
    rating_snapshot = .., queued_at = now()]. *)
Fixpoint upsertQueue (e : QueueEntry) (l : list QueueEntry) : list QueueEntry :=
  match l with
  | [] => [e]
  | h :: t => if bool_decide (user_id h = user_id e) then e :: t else h :: upsertQueue e t
  end.

Definition enqueue (db : Db) (userId : string) (now : N) : Db :=
  let rating := default 1200 (ratings db !! userId) in
  {| games := games db; game_moves := game_moves db; ratings := ratings db;
     matchmaking_queue :=
       upsertQueue {| user_id := userId; rating_snapshot := rating; queued_at := now |}
         (matchmaking_queue db) |}.

(** [{ gameId, whiteUserId, blackUserId }] *)
Record Match : Type := {
  gameId : string;
  whiteUserId : string;
  blackUserId : string
}.

(** [notifyUser(userId, { type: 'match_found', gameId, color })] *)
Record Notification : Type := {
  n_userId : string;
  n_gameId : string;
  n_color : string
}.

(** [rows.find((r) => r.user_id === u)?.rating_snapshot ?? fallback] *)
Definition ratingOf (rows : list (string * Z)) (u : string) (fallback : Z) : Z :=
  match find (fun r => bool_decide (r.1 = u)) rows with
  | Some r => r.2
  | None => fallback
  end.

(** [tryMatch] after its first query: [queued] are the rows that query
    returned, [db] is the database the transaction finds, [newId] the id that
    the insert into [games] returns. *)
Definition pairQueued (queued : list QueueEntry) (db : Db) (newId : string)
    : option Match * Db * list Notification :=
  match queued with
  | a :: b :: _ =>
      if bool_decide (user_id a = user_id b) then (None, db, [])
      else
        let lock := map user_id (selectQueued db) in
        match lock with
        | userA :: userB :: _ =>
            let queue' := List.filter (fun e => negb (bool_decide (user_id e ∈ lock)))
                            (matchmaking_queue db) in
            let ratingRows := [(userA, rating_snapshot a); (userB, rating_snapshot b)] in
            let ra := ratingOf ratingRows userA (rating_snapshot a) in
            let rb := ratingOf ratingRows userB (rating_snapshot b) in
            let white := if ra >=? rb then userA else userB in
            let black := if bool_decide (white = userA) then userB else userA in
            let game := {| white_user_id := white; black_user_id := black;
                           status := Active; moves := Some [];
                           current_fen := START_FEN; winner_user_id := None |} in
            (Some {| gameId := newId; whiteUserId := white; blackUserId := black |},
             {| games := <[newId := game]> (games db); game_moves := game_moves db;
                ratings := ratings db; matchmaking_queue := queue' |},
             [ {| n_userId := white; n_gameId := newId; n_color := "white" |};
               {| n_userId := black; n_gameId := newId; n_color := "black" |} ])
        | _ => (None, db, [])
        end
  | _ => (None, db, [])
  end.

(** [tryMatch] with no other request between its two queries. *)
Definition tryMatch (db : Db) (newId : string) : option Match * Db * list Notification :=
  pairQueued (selectQueued db) db newId.

End Matchmaking.

(** ** Worked inputs *)

Module Samples.
Import Js Engine Store.

(** The position that [parseFen START_FEN] returns. *)
Definition startPosition : Position :=
  {| board := [ [Some "R"; Some "N"; Some "B"; Some "Q"; Some "K"; Some "B"; Some "N"; Some "R"];
                [Some "P"; Some "P"; Some "P"; Some "P"; Some "P"; Some "P"; Some "P"; Some "P"];
                [None; None; None; None; None; None; None; None];
                [None; None; None; None; None; None; None; None];
                [None; None; None; None; None; None; None; None];
                [None; None; None; None; None; None; None; None];
                [Some "p"; Some "p"; Some "p"; Some "p"; Some "p"; Some "p"; Some "p"; Some "p"];
                [Some "r"; Some "n"; Some "b"; Some "q"; Some "k"; Some "b"; Some "n"; Some "r"]
              ]%char;
     activeColor := Some "w";
     castling := Some "KQkq";
     enPassant := Some "-";
     halfmove := JNat 0;
     fullmove := JNat 1 |}.

(** The double push of the e-pawn. *)
Definition e2e4 : Move :=
  {| from := {| x := 4; y := 1 |}; to := {| x := 4; y := 3 |}; capture := false;
     pawnDouble := true; epCapture := false; castle := None; promotion := None |}.

(** The position texts of the shortest mate, after [f3], [e5], [g4], [Qh4]. *)
Definition fen_f3 : string := "rnbqkbnr/pppppppp/8/8/8/5P2/PPPPP1PP/RNBQKBNR b KQkq - 0 1".
Definition fen_e5 : string := "rnbqkbnr/pppp1ppp/8/4p3/8/5P2/PPPPP1PP/RNBQKBNR w KQkq e6 0 2".
Definition fen_g4 : string := "rnbqkbnr/pppp1ppp/8/4p3/6P1/5P2/PPPPP2P/RNBQKBNR b KQkq g3 0 2".
Definition fen_Qh4 : string := "rnb1kbnr/pppp1ppp/8/4p3/6Pq/5P2/PPPPP2P/RNBQKBNR w KQkq - 1 3".

(** A freshly paired game, as [tryMatch] inserts it. *)
Definition newGame (white black : string) : Game :=
  {| white_user_id := white; black_user_id := black; status := Active;
     moves := Some []; current_fen := START_FEN; winner_user_id := None |}.

Definition sampleDb : Db :=
  {| games := {[ "g1" := newGame "alice" "bob" ]}; game_moves := [];
     ratings := ∅; matchmaking_queue := [] |}.

(** A position without any king: a lone white rook. *)
Definition loneRook : Position :=
  {| board := [ [Some "R"; None; None; None; None; None; None; None];
                [None; None; None; None; None; None; None; None];
                [None; None; None; None; None; None; None; None];
                [None; None; None; None; None; None; None; None];
                [None; None; None; None; None; None; None; None];
                [None; None; None; None; None; None; None; None];
                [None; None; None; None; None; None; None; None];
                [None; None; None; None; None; None; None; None] ]%char;
     activeColor := Some "w";
     castling := Some "";
     enPassant := Some "-";
     halfmove := JNat 0;
     fullmove := JNat 1 |}.

(** White knights on d2 and g1, both able to reach f3. *)
Definition knightsFen : string := "4k3/8/8/8/8/8/3N4/4K1N1 w - - 0 1".

(** A white king on e1 and a white pawn on e4. *)
Definition kingPawnFen : string := "4k3/8/8/8/4P3/8/8/4K3 w - - 0 1".

(** The value a call returned, [dflt] when it raised. *)
Definition valueOf {A : Type} (dflt : A) (e : Exn A) : A :=
  match e with
  | Ret a => a
  | Throw => dflt
  end.

Definition knightsPosition : Position :=
  Eval vm_compute in valueOf startPosition (parseFen knightsFen).
Definition knightsLegal : list Move :=
  Eval vm_compute in valueOf [] (allLegalMoves knightsPosition).

Definition kingPawnPosition : Position :=
  Eval vm_compute in valueOf startPosition (parseFen kingPawnFen).
Definition kingPawnLegal : list Move :=
  Eval vm_compute in valueOf [] (allLegalMoves kingPawnPosition).

(** What [parseSan] returns for [Nf3], [Nbf3] and [Ke2=Q]. *)
Definition san_Nf3 : SanMove :=
  {| pieceLetter := "N"; sanTo := {| x := 5; y := 2 |}; sanCapture := false;
     sanPromotion := None; disFile := None; disRank := None; pawnFromFile := None |}.
Definition san_Nbf3 : SanMove :=
  {| pieceLetter := "N"; sanTo := {| x := 5; y := 2 |}; sanCapture := false;
     sanPromotion := None; disFile := Some "b"%char; disRank := None;
     pawnFromFile := None |}.
Definition san_Ke2Q : SanMove :=
  {| pieceLetter := "K"; sanTo := {| x := 4; y := 1 |}; sanCapture := false;
     sanPromotion := Some "Q"%char; disFile := None; disRank := None;
     pawnFromFile := None |}.

Definition knightMove (fx fy : Z) : Move :=
  {| from := {| x := fx; y := fy |}; to := {| x := 5; y := 2 |}; capture := false;
     pawnDouble := false; epCapture := false; castle := None; promotion := None |}.

(** The legal moves of the starting position and the position after [e2e4]. *)
Definition startLegal : list Move :=
  Eval vm_compute in valueOf [] (allLegalMoves startPosition).
Definition afterE4 : Position :=
  Eval vm_compute in valueOf startPosition (applyMove startPosition e2e4).

End Samples.

(** ** Worked inputs of the matchmaking queue *)

Module QueueSamples.
Import Store Matchmaking.

(** Two waiting users; [u1] joined first and has the higher rating. *)
Definition queueDb : Db :=
  {| games := ∅; game_moves := [];
     ratings := {[ "u1" := 1500; "u2" := 1000 ]};
     matchmaking_queue :=
       [ {| user_id := "u1"; rating_snapshot := 1500; queued_at := 1 |};
         {| user_id := "u2"; rating_snapshot := 1000; queued_at := 2 |} ] |}.

(** The same queue after [u1] has called [join] once more, at time 3. *)
Definition queueDbRejoined : Db := enqueue queueDb "u1" 3.

End QueueSamples.

(** ** Vocabulary of the statements *)

Module Facts.
Import Js Engine.

(** What holds of every move that [generatePieceMoves state src] returns: it
    starts on [src], lands on the board, carries no promotion, and an en
    passant capture lands one rank beyond the origin rank. *)
Definition generatedFrom (state : Position) (src : Square) (m : Move) : Prop :=
  from m = src
  /\ onBoard (x (to m)) (y (to m)) = true
  /\ promotion m = None
  /\ (epCapture m = true ->
      y (to m) + (if isW (activeColor state) then -1 else 1) = y src).

(** No square of the eight ranks and files holds the king of [color]. *)
Definition noKing (b : Board) (color : option string) : Prop :=
  forall cx cy, 0 <= cx < 8 -> 0 <= cy < 8 ->
    getCell b cx cy <> Some (if isW color then "K"%char else "k"%char).

(** What [applyMove] needs of a move in order not to raise: the origin rank
    exists and holds a piece, the destination is on the board, and the pawn
    removed by an en passant capture stands on an existing rank. *)
Definition applicable (state : Position) (m : Move) : Prop :=
  0 <= y (from m) < 8
  /\ onBoard (x (to m)) (y (to m)) = true
  /\ (epCapture m = true ->
      0 <= y (to m) + (if isW (activeColor state) then -1 else 1) < 8)
  /\ getCell (board state) (x (from m)) (y (from m)) <> None.

(** [noKing] as a test over the sixty-four squares. *)
Definition noKingb (b : Board) (color : option string) : bool :=
  forallb (fun sq => negb (cellIs b (x sq) (y sq) (if isW color then "K" else "k")%char))
    allSquares.

(** The text [toFen] writes for the cells [cs] of a rank when [empty] empty
    squares are pending: the run-length digit is flushed in front of the next
    piece letter and at the end of the rank. *)
Fixpoint rankText (cs : Row) (empty : nat) : string :=
  match cs with
  | [] => if (empty =? 0)%nat then EmptyString else natToString empty
  | None :: cs' => rankText cs' (S empty)
  | Some p :: cs' =>
      (if (empty =? 0)%nat then EmptyString else natToString empty)
      +:+ String p (rankText cs' 0)
  end.

(** The letters a square may hold for the text to be read back: no digit, no
    rank separator, no field separator. *)
Definition cellOk (c : Cell) : Prop :=
  match c with
  | None => True
  | Some ch => isDigit ch = false /\ ch <> "/"%char /\ ch <> " "%char
  end.

Definition boardOk (b : Board) : Prop :=
  length b = 8%nat /\ Forall (fun row => length row = 8%nat /\ Forall cellOk row) b.

Fixpoint forallChars (f : ascii -> bool) (s : string) : bool :=
  match s with
  | EmptyString => true
  | String c s' => f c && forallChars f s'
  end.

(** The shape of the positions the engine produces from the starting one:
    an 8x8 grid of letters, a side to move, castling rights among [KQkq], an
    en passant field that is not empty, and two natural-number clocks. *)
Definition wellFormed (p : Position) : Prop :=
  boardOk (board p)
  /\ (exists c, activeColor p = Some c /\ includes c " " = false)
  /\ (exists cs, castling p = Some cs /\ forallChars (fun c => isKQ c || iskq c) cs = true)
  /\ (exists ep, enPassant p = Some ep /\ ep <> EmptyString /\ includes ep " " = false)
  /\ (exists n, halfmove p = JNat n)
  /\ (exists n, fullmove p = JNat n).

(** Legal play: the starting position, and every position obtained from a
    reachable one by applying a move of its [allLegalMoves] list. *)
Inductive reachable : Position -> Prop :=
  | reachable_start : reachable Samples.startPosition
  | reachable_move p legal m next :
      reachable p -> allLegalMoves p = Ret legal -> In m legal ->
      applyMove p m = Ret next -> reachable next.

End Facts.

(** ** Vocabulary of the further properties *)

Module MoreFacts.
Import Js Engine Store Facts.

(** [later] is obtained from [st] by applying moves, any moves, one after
    the other. *)
Inductive applied : Position -> Position -> Prop :=
  | applied_refl st : applied st st
  | applied_step st m mid later :
      applyMove st m = Ret mid -> applied mid later -> applied st later.



End MoreFacts.

(** ** Worked inputs of the further properties *)

Module MoreSamples.
Import Js Engine Store Samples.

(** Kings and rooks on their home squares, all four castling rights. *)
Definition castleFen : string := "r3k2r/8/8/8/8/8/8/R3K2R w KQkq - 0 1".
Definition castlePosition : Position :=
  Eval vm_compute in valueOf startPosition (parseFen castleFen).

Definition plainMove (fx fy tx ty : Z) : Move :=
  {| from := {| x := fx; y := fy |}; to := {| x := tx; y := ty |}; capture := false;
     pawnDouble := false; epCapture := false; castle := None; promotion := None |}.

(** After [Ke2] and after the reply [Ke7]. *)
Definition afterKe2 : Position :=
  Eval vm_compute in valueOf startPosition (applyMove castlePosition (plainMove 4 0 4 1)).
Definition afterKe7 : Position :=
  Eval vm_compute in valueOf startPosition (applyMove afterKe2 (plainMove 4 7 4 6)).
Definition afterKe7Moves : list Move :=
  Eval vm_compute in valueOf [] (generatePieceMoves afterKe7 {| x := 4; y := 1 |}).

(** A position text whose side-to-move field is neither [w] nor [b]. *)
Definition noSideFen : string := "4k3/8/8/8/8/8/8/R3K3 x - - 0 1".
Definition noSidePosition : Position :=
  Eval vm_compute in valueOf startPosition (parseFen noSideFen).

(** A white move that stalemates black: queen g5 to g6, king on f7. *)
Definition stalemateFen : string := "7k/5K2/8/6Q1/8/8/8/8 w - - 0 1".

Definition stalemateDb : Db :=
  {| games := {[ "g1" := {| white_user_id := "alice"; black_user_id := "bob";
                            status := Active; moves := Some [];
                            current_fen := stalemateFen; winner_user_id := None |} ]};
     game_moves := [];
     ratings := {[ "alice" := 1500; "bob" := 1400 ]};
     matchmaking_queue := [] |}.

(** An Elo rule for worked inputs: 16 for a win, 0 for a draw, -16 for a
    loss. *)
Definition flatElo (ra rb : Z) (s : Games.Score) : Z :=
  match s with
  | Games.Win => 16
  | Games.Draw => 0
  | Games.Loss => -16
  end.

End MoreSamples.

(** ** The other handlers of [controllers/games.js] *)

Module GameOps.
Import Js Engine Store Games.

(** What [getGame], [getMoves], [resign] and [draw] answer. *)
Inductive Reply : Type :=
  | ReplyError (code : nat) (message : string)
  | ReplyGame (game : Game)
  | ReplyMoves (rows : list GameMove).

(** [{ type: 'game_finished', gameId, reason, winnerUserId }] *)
Record GameFinished : Type := {
  gf_gameId : string;
  gf_reason : string;
  gf_winnerUserId : option string
}.

(** [white_user_id !== userId && black_user_id !== userId] *)
Definition notAPlayer (game : Game) (userId : string) : bool :=
  negb (bool_decide (white_user_id game = userId))
  && negb (bool_decide (black_user_id game = userId)).

Definition getGame (db : Db) (gameId userId : string) : Reply :=
  match games db !! gameId with
  | None => ReplyError 404 "Game not found"
  | Some game =>
      if notAPlayer game userId then ReplyError 403 "Not a player in this game"
      else ReplyGame game
  end.

(** [ORDER BY move_number ASC]: rows with equal numbers keep the table
    order. *)
Fixpoint insertByMoveNumber (r : GameMove) (l : list GameMove) : list GameMove :=
  match l with
  | [] => [r]
  | h :: t =>
      if (move_number r <=? move_number h)%nat then r :: l
      else h :: insertByMoveNumber r t
  end.

Definition orderByMoveNumber (l : list GameMove) : list GameMove :=
  fold_right insertByMoveNumber [] l.

(** [SELECT .. FROM game_moves WHERE game_id = $1] *)
Definition movesOf (db : Db) (gameId : string) : list GameMove :=
  List.filter (fun r => bool_decide (game_id r = gameId)) (game_moves db).

Definition getMoves (db : Db) (gameId userId : string) : Reply :=
  match games db !! gameId with
  | None => ReplyError 404 "Game not found"
  | Some game =>
      if notAPlayer game userId then ReplyError 403 "Not a player in this game"
      else ReplyMoves (orderByMoveNumber (movesOf db gameId))
  end.

Section Finishing.

Variable computeEloDelta : Z -> Z -> Score -> Z.

(** The transaction shared by [resign] and [draw]:
    [UPDATE games SET status = 'finished', winner_user_id = .. WHERE id = $1
    AND status = 'active' RETURNING ..], then the ratings. *)
Definition finishGame (db : Db) (gameId : string) (winner : option string)
    (isDraw : bool) (reason : string) : Reply * Db * list GameFinished :=
  match games db !! gameId with
  | Some row =>
      if bool_decide (status row = Active) then
        let updated :=
          {| white_user_id := white_user_id row; black_user_id := black_user_id row;
             status := Finished; moves := moves row; current_fen := current_fen row;
             winner_user_id := winner |} in
        let db1 := {| games := <[gameId := updated]> (games db);
                      game_moves := game_moves db; ratings := ratings db;
                      matchmaking_queue := matchmaking_queue db |} in
        (ReplyGame updated,
         finalizeRatingsWithClient computeEloDelta db1 updated isDraw,
         [ {| gf_gameId := gameId; gf_reason := reason; gf_winnerUserId := winner |} ])
      else (ReplyError 409 "Game not active", db, [])
  | None => (ReplyError 409 "Game not active", db, [])
  end.

(** [resign], one request at a time. *)
Definition resign (db : Db) (gameId userId : string) : Reply * Db * list GameFinished :=
  match games db !! gameId with
  | None => (ReplyError 404 "Game not found", db, [])
  | Some game =>
      if negb (bool_decide (status game = Active))
      then (ReplyError 409 "Game not active", db, [])
      else if notAPlayer game userId
      then (ReplyError 403 "Not a player in this game", db, [])
      else
        let winnerUserId := if bool_decide (white_user_id game = userId)
                            then black_user_id game else white_user_id game in
        finishGame db gameId (Some winnerUserId) false "resign"
  end.

(** [draw], one request at a time. *)
Definition draw (db : Db) (gameId userId : string) : Reply * Db * list GameFinished :=
  match games db !! gameId with
  | None => (ReplyError 404 "Game not found", db, [])
  | Some game =>
      if negb (bool_decide (status game = Active))
      then (ReplyError 409 "Game not active", db, [])
      else if notAPlayer game userId
      then (ReplyError 403 "Not a player in this game", db, [])
      else finishGame db gameId None true "draw"
  end.

End Finishing.

End GameOps.

(** ** The other handlers of the matchmaking controller *)

Module QueueOps.
Import Js Engine Store Matchmaking.

(** [join]: the upsert, then [tryMatch]; the answer is always
    [{ status: 'ok', queued: true }], here the flag [queued]. *)
Definition join (db : Db) (userId : string) (now : N) (newId : string)
    : bool * Db * list Notification :=
  let db1 := enqueue db userId now in
  let '(_, db2, notes) := tryMatch db1 newId in
  (true, db2, notes).

(** [leave]: [DELETE FROM matchmaking_queue WHERE user_id = $1]; the answer
    is [{ status: 'ok', queued: false }]. *)
Definition leave (db : Db) (userId : string) : bool * Db :=
  (false,
   {| games := games db; game_moves := game_moves db; ratings := ratings db;
      matchmaking_queue :=
        List.filter (fun e => negb (bool_decide (user_id e = userId)))
          (matchmaking_queue db) |}).

(** [status]: [{ queued: rows.length > 0, entry: rows[0] || null }], the entry
    being the pair [queued_at], [rating_snapshot]. *)
Definition status (db : Db) (userId : string) : bool * option (N * Z) :=
  let rows := List.filter (fun e => bool_decide (user_id e = userId))
                (matchmaking_queue db) in
  ((0 <? length rows)%nat,
   match rows with
   | e :: _ => Some (queued_at e, rating_snapshot e)
   | [] => None
   end).

End QueueOps.

(** ** Vocabulary of the session statements *)

Module SessionFacts.
Import Js Engine Store Games GameOps.

(** The rows of [game_moves] of a game agree with the [moves] column of its
    row in [games]: the same tokens in the same order, numbered 1, 2, 3, ... *)
Definition historyOk (db : Db) (gameId : string) : Prop :=
  exists game,
    games db !! gameId = Some game
    /\ map san (movesOf db gameId) = default [] (moves game)
    /\ map move_number (movesOf db gameId) = seq 1 (length (movesOf db gameId)).

(** A database whose only game is finished, won by white. *)
Definition finishedDb : Db :=
  {| games := {[ "g1" := {| white_user_id := "alice"; black_user_id := "bob";
                            status := Finished; moves := Some [];
                            current_fen := START_FEN;
                            winner_user_id := Some "alice" |} ]};
     game_moves := []; ratings := ∅; matchmaking_queue := [] |}.

(** [a] was queued no later than [b]. *)
Definition earlier (a b : QueueEntry) : Prop := (queued_at a <= queued_at b)%N.

End SessionFacts.

(** ** Requests, one after the other *)

Module Requests.
Import Js Engine Store Games GameOps Matchmaking QueueOps.




End Requests.

(** ** The WebSocket hub ([ws/hub.js]) *)

Module Hub.
Import Js.

(** The fields of a connection object that the hub reads and writes;
    [ws_open] is [readyState === WebSocket.OPEN], [ws_joinedGames] is
    [undefined] until the first [join_game]. *)
Record Ws : Type := {
  ws_open : bool;
  ws_isAuthed : bool;
  ws_userId : option string;
  ws_joinedGames : option (list string)
}.

(** A parsed message: the fields the hub looks at, each a string or
    absent. *)
Record Msg : Type := {
  msg_type : option string;
  msg_token : option string;
  msg_gameId : option string
}.

(** What the hub itself sends. *)
Inductive Out : Type :=
  | OHello
  | OError (message : string)
  | OAuthOk (userId : string)
  | OJoinedGame (gameId : string)
  | OLeftGame (gameId : string)
  | OPong (t : N).

(** Connections are numbered; [sockets] holds the fields of those that have
    connected, [clientsByUserId] and [gameRooms] are the two [Map]s of the
    module.  A [Set] of connections is the list of its members in insertion
    order. *)
Record State : Type := {
  sockets : gmap nat Ws;
  clientsByUserId : gmap string (list nat);
  gameRooms : gmap string (list nat)
}.

(** The module as loaded: no connection, two empty [Map]s. *)
Definition initial : State :=
  {| sockets := ∅; clientsByUserId := ∅; gameRooms := ∅ |}.

(** [Set.prototype.add] and [Set.prototype.delete] *)
Definition setAdd {A : Type} `{EqDecision A} (a : A) (l : list A) : list A :=
  if bool_decide (a ∈ l) then l else l ++ [a].

Definition setDelete {A : Type} `{EqDecision A} (a : A) (l : list A) : list A :=
  List.filter (fun b => negb (bool_decide (b = a))) l.

(** A string in a condition: absent and empty count as false. *)
Definition truthy (s : option string) : option string :=
  match s with
  | Some t => if bool_decide (t = EmptyString) then None else Some t
  | None => None
  end.

(** The fields of a connection; one that never connected is not open. *)
Definition closedWs : Ws :=
  {| ws_open := false; ws_isAuthed := false; ws_userId := None; ws_joinedGames := None |}.

Definition wsGet (h : State) (ws : nat) : Ws := default closedWs (sockets h !! ws).

Definition setWs (h : State) (ws : nat) (s : Ws) : State :=
  {| sockets := <[ws := s]> (sockets h); clientsByUserId := clientsByUserId h;
     gameRooms := gameRooms h |}.

(** [safeSend]: the messages put on the wire, each with its connection. *)
Definition safeSend {P : Type} (h : State) (ws : nat) (obj : P) : list (nat * P) :=
  if ws_open (wsGet h ws) then [(ws, obj)] else [].

Definition registerClient (h : State) (ws : nat) (userId : string) : State :=
  let s := wsGet h ws in
  let s' := {| ws_open := ws_open s; ws_isAuthed := true; ws_userId := Some userId;
               ws_joinedGames := ws_joinedGames s |} in
  let set := default [] (clientsByUserId h !! userId) in
  {| sockets := <[ws := s']> (sockets h);
     clientsByUserId := <[userId := setAdd ws set]> (clientsByUserId h);
     gameRooms := gameRooms h |}.

Definition joinGameRoom (h : State) (ws : nat) (gameId : string) : State :=
  let s := wsGet h ws in
  let joined := default [] (ws_joinedGames s) in
  let s' := {| ws_open := ws_open s; ws_isAuthed := ws_isAuthed s; ws_userId := ws_userId s;
               ws_joinedGames := Some (setAdd gameId joined) |} in
  let room := default [] (gameRooms h !! gameId) in
  {| sockets := <[ws := s']> (sockets h);
     clientsByUserId := clientsByUserId h;
     gameRooms := <[gameId := setAdd ws room]> (gameRooms h) |}.

Definition leaveGameRoom (h : State) (ws : nat) (gameId : string) : State :=
  let s := wsGet h ws in
  let h1 := match ws_joinedGames s with
            | Some joined =>
                setWs h ws {| ws_open := ws_open s; ws_isAuthed := ws_isAuthed s;
                              ws_userId := ws_userId s;
                              ws_joinedGames := Some (setDelete gameId joined) |}
            | None => h
            end in
  match gameRooms h1 !! gameId with
  | Some room =>
      let room' := setDelete ws room in
      {| sockets := sockets h1; clientsByUserId := clientsByUserId h1;
         gameRooms := if (length room' =? 0)%nat then delete gameId (gameRooms h1)
                      else <[gameId := room']> (gameRooms h1) |}
  | None => h1
  end.

(** [cleanupClient]; the loop visits every game of [ws.joinedGames] although
    [leaveGameRoom] deletes the one being visited. *)
Definition cleanupClient (h : State) (ws : nat) : State :=
  let s := wsGet h ws in
  let h1 := match truthy (ws_userId s) with
            | Some userId =>
                match clientsByUserId h !! userId with
                | Some set =>
                    let set' := setDelete ws set in
                    {| sockets := sockets h;
                       clientsByUserId :=
                         if (length set' =? 0)%nat then delete userId (clientsByUserId h)
                         else <[userId := set']> (clientsByUserId h);
                       gameRooms := gameRooms h |}
                | None => h
                end
            | None => h
            end in
  match ws_joinedGames s with
  | Some joined => fold_left (fun acc gameId => leaveGameRoom acc ws gameId) joined h1
  | None => h1
  end.

Section Handling.

(** [verifyJwt] of [auth/auth.js] followed by [.userId]: the user of a token
    signed by this application, or the exception of a token that does not
    verify. *)
Variable verifyJwt : string -> Exn string.

(** [handleMessage]; [now] is [Date.now()]. *)
Definition handleMessage (h : State) (ws : nat) (msg : Msg) (now : N)
    : State * list (nat * Out) :=
  let type := msg_type msg in
  if bool_decide (type = Some "auth") then
    match truthy (msg_token msg) with
    | None => (h, safeSend h ws (OError "Missing token"))
    | Some token =>
        match verifyJwt token with
        | Ret userId =>
            let h' := registerClient h ws userId in
            (h', safeSend h' ws (OAuthOk userId))
        | Throw => (h, safeSend h ws (OError "Invalid token"))
        end
    end
  else if bool_decide (type = Some "join_game") then
    if negb (ws_isAuthed (wsGet h ws)) then (h, safeSend h ws (OError "Not authenticated"))
    else
      match truthy (msg_gameId msg) with
      | None => (h, safeSend h ws (OError "Missing gameId"))
      | Some gameId =>
          let h' := joinGameRoom h ws gameId in
          (h', safeSend h' ws (OJoinedGame gameId))
      end
  else if bool_decide (type = Some "leave_game") then
    if negb (ws_isAuthed (wsGet h ws)) then (h, safeSend h ws (OError "Not authenticated"))
    else
      match truthy (msg_gameId msg) with
      | None => (h, safeSend h ws (OError "Missing gameId"))
      | Some gameId =>
          let h' := leaveGameRoom h ws gameId in
          (h', safeSend h' ws (OLeftGame gameId))
      end
  else if bool_decide (type = Some "ping") then (h, safeSend h ws (OPong now))
  else (h, safeSend h ws (OError ("Unknown type: " +:+ default "undefined" type))).

(** The three handlers that [createWebSocketServer] installs.  [data] is
    [None] for a text that [JSON.parse] rejects or parses to [null]. *)
Definition onConnection (h : State) (ws : nat) : State * list (nat * Out) :=
  let h' := setWs h ws {| ws_open := true; ws_isAuthed := false; ws_userId := None;
                          ws_joinedGames := None |} in
  (h', safeSend h' ws OHello).

Definition onMessage (h : State) (ws : nat) (data : option Msg) (now : N)
    : State * list (nat * Out) :=
  match data with
  | Some msg => handleMessage h ws msg now
  | None => (h, safeSend h ws (OError "Invalid JSON message"))
  end.

Definition onClose (h : State) (ws : nat) : State :=
  let s := wsGet h ws in
  cleanupClient
    (setWs h ws {| ws_open := false; ws_isAuthed := ws_isAuthed s; ws_userId := ws_userId s;
                   ws_joinedGames := ws_joinedGames s |}) ws.

End Handling.

Definition notifyUser {P : Type} (h : State) (userId : string) (payload : P)
    : list (nat * P) :=
  match clientsByUserId h !! userId with
  | None => []
  | Some set => flat_map (fun ws => safeSend h ws payload) set
  end.

Definition broadcastToGame {P : Type} (h : State) (gameId : string) (payload : P)
    : list (nat * P) :=
  match gameRooms h !! gameId with
  | None => []
  | Some room => flat_map (fun ws => safeSend h ws payload) room
  end.

End Hub.

(** ** Vocabulary of the hub statements *)

Module HubFacts.
Import Js Hub.

(** [ws] is a member of the room of [gameId]. *)
Definition inRoom (h : State) (gameId : string) (ws : nat) : Prop :=
  ws ∈ default [] (gameRooms h !! gameId).

(** [ws] is registered under [userId]. *)
Definition registered (h : State) (userId : string) (ws : nat) : Prop :=
  ws ∈ default [] (clientsByUserId h !! userId).

(** The states of the hub: the initial one, and those reached from it when a
    new connection arrives, when a connection sends a message, when the ready
    state of a connection leaves [OPEN], and when the [close] handler of a
    connection runs. *)
Inductive reached (verifyJwt : string -> Exn string) : State -> Prop :=
  | reached_initial : reached verifyJwt initial
  | reached_connection h ws :
      reached verifyJwt h -> sockets h !! ws = None ->
      reached verifyJwt (onConnection h ws).1
  | reached_message h ws data now :
      reached verifyJwt h -> is_Some (sockets h !! ws) ->
      reached verifyJwt (onMessage verifyJwt h ws data now).1
  | reached_not_open h ws :
      reached verifyJwt h -> is_Some (sockets h !! ws) ->
      reached verifyJwt
        (setWs h ws {| ws_open := false; ws_isAuthed := ws_isAuthed (wsGet h ws);
                       ws_userId := ws_userId (wsGet h ws);
                       ws_joinedGames := ws_joinedGames (wsGet h ws) |})
  | reached_close h ws :
      reached verifyJwt h -> is_Some (sockets h !! ws) ->
      reached verifyJwt (onClose h ws).

(** Every room and every user's set is non-empty and free of duplicates, and
    the members of a room are authenticated connections that list the room
    among their joined games. *)
Definition consistent (h : State) : Prop :=
  (forall gameId room, gameRooms h !! gameId = Some room ->
     room <> [] /\ NoDup room
     /\ forall ws, ws ∈ room ->
          ws_isAuthed (wsGet h ws) = true
          /\ gameId ∈ default [] (ws_joinedGames (wsGet h ws)))
  /\ (forall userId set, clientsByUserId h !! userId = Some set ->
        set <> [] /\ NoDup set).

(** A token checker for worked inputs: the token is the user's name, the
    token [bad] does not verify. *)
Definition nameJwt (token : string) : Exn string :=
  if bool_decide (token = "bad") then Throw else Ret token.

Definition authMsg (token : string) : Msg :=
  {| msg_type := Some "auth"; msg_token := Some token; msg_gameId := None |}.
Definition joinMsg (gameId : string) : Msg :=
  {| msg_type := Some "join_game"; msg_token := None; msg_gameId := Some gameId |}.
Definition leaveMsg (gameId : string) : Msg :=
  {| msg_type := Some "leave_game"; msg_token := None; msg_gameId := Some gameId |}.

(** One connection, open and authenticated as [alice]. *)
Definition aliceHub : State :=
  (handleMessage nameJwt (onConnection initial 1%nat).1 1%nat (authMsg "alice") 0).1.

End HubFacts.

(** * Properties *)

Import Js Engine Store.

(** ** Loops that may raise *)

Lemma bind_Ret {A B : Type} (e : Exn A) (k : A -> Exn B) (b : B) :
  e ≫= k = Ret b -> exists a, e = Ret a /\ k a = Ret b.
Proof. destruct e as [a|]; simpl; [eauto | discriminate]. Qed.

Lemma Ret_inj {A : Type} (a b : A) : Ret a = Ret b -> a = b.
Proof. congruence. Qed.

Ltac inv_bind H :=
  let a := fresh "v" in
  let Ha := fresh "Hv" in
  apply bind_Ret in H; destruct H as (a & Ha & H).

Lemma forEachM_Ret_In {A B : Type} (f : A -> Exn (list B)) (l : list A) (rs : list B) (b : B) :
  forEachM f l = Ret rs -> In b rs ->
  exists a r, In a l /\ f a = Ret r /\ In b r.
Proof.
  revert rs. induction l as [|a l IH]; simpl; intros rs H Hin.
  - injection H as <-. destruct Hin.
  - inv_bind H. inv_bind H. injection H as <-.
    apply in_app_or in Hin as [Hin|Hin].
    + exists a, v. auto.
    + destruct (IH _ Hv0 Hin) as (a' & r & ? & ? & ?). exists a', r. auto.
Qed.

Lemma filterM_Ret_In {A : Type} (f : A -> Exn bool) (l rs : list A) (a : A) :
  filterM f l = Ret rs -> In a rs -> In a l /\ f a = Ret true.
Proof.
  revert rs. induction l as [|h l IH]; simpl; intros rs H Hin.
  - injection H as <-. destruct Hin.
  - inv_bind H. inv_bind H. injection H as <-.
    destruct v.
    + destruct Hin as [<-|Hin]; [auto|]. destruct (IH _ Hv0 Hin). auto.
    + destruct (IH _ Hv0 Hin). auto.
Qed.

(** Every legal move comes out of the generator for its own origin square and
    passed the simulate-and-discard test. *)
Lemma allLegalMoves_In state legal m :
  allLegalMoves state = Ret legal -> In m legal ->
  exists src gen,
    In src allSquares
    /\ getCell (board state) (x src) (y src) <> None
    /\ pieceColor (getCell (board state) (x src) (y src)) = activeColor state
    /\ generatePieceMoves state src = Ret gen /\ In m gen
    /\ exists next, applyMove state m = Ret next
                    /\ inCheck next (activeColor state) = false.
Proof.
  intros H Hin. unfold allLegalMoves in H.
  destruct (forEachM_Ret_In _ _ _ _ H Hin) as (src & r & Hsrc & Hf & Hm).
  exists src. cbv beta zeta in Hf.
  case_bool_decide as Hp; [injection Hf as <-; destruct Hm|].
  case_bool_decide as Hc; simpl in Hf; [|injection Hf as <-; destruct Hm].
  inv_bind Hf. exists v.
  destruct (filterM_Ret_In _ _ _ _ Hf Hm) as (Hgen & Hok).
  inv_bind Hok. injection Hok as Hok.
  repeat split; auto. exists v0. split; [done|]. by destruct (inCheck v0 _).
Qed.

(** ** Arrays and boards *)

Import Facts.

Lemma arrayGet_Some {A : Type} (l : list A) (i : Z) :
  0 <= i < Z.of_nat (length l) -> exists a, arrayGet l i = Some a.
Proof.
  intros Hi. unfold arrayGet. rewrite (proj2 (Z.leb_le 0 i)) by lia.
  apply lookup_lt_is_Some_2. lia.
Qed.

Lemma arrayGet_inv {A : Type} (l : list A) (i : Z) (a : A) :
  arrayGet l i = Some a -> 0 <= i /\ l !! Z.to_nat i = Some a.
Proof.
  unfold arrayGet. destruct (0 <=? i) eqn:E; [|discriminate].
  apply Z.leb_le in E. auto.
Qed.

Lemma arraySet_lookup {A : Type} (hole : A) (a : list A) (i : nat) (v : A) :
  arraySet hole a i v !! i = Some v.
Proof.
  unfold arraySet. case_decide as Hi.
  - by apply list_lookup_insert_eq.
  - rewrite lookup_app_r by lia. rewrite lookup_app_r; rewrite length_replicate; [|lia].
    replace (i - length a - (i - length a))%nat with 0%nat by lia. reflexivity.
Qed.

Lemma setCell_length b cx cy v b' : setCell b cx cy v = Ret b' -> length b' = length b.
Proof.
  unfold setCell. destruct (arrayGet b cy); [|discriminate].
  destruct (0 <=? cx); intros [= <-]; [apply length_insert | reflexivity].
Qed.

Lemma setCell_Ret b cx cy v :
  0 <= cy < Z.of_nat (length b) -> exists b', setCell b cx cy v = Ret b'.
Proof.
  intros Hy. unfold setCell. destruct (arrayGet_Some b cy Hy) as [row ->].
  destruct (0 <=? cx); eauto.
Qed.

Lemma getCell_setCell b cx cy v b' :
  setCell b cx cy v = Ret b' -> 0 <= cx -> getCell b' cx cy = v.
Proof.
  unfold setCell, getCell. destruct (arrayGet b cy) as [row|] eqn:Hrow; [|discriminate].
  intros H Hx. rewrite (proj2 (Z.leb_le 0 cx) Hx) in H. injection H as <-.
  apply arrayGet_inv in Hrow as [Hy Hrow].
  unfold arrayGet. rewrite (proj2 (Z.leb_le 0 cy) Hy), (proj2 (Z.leb_le 0 cx) Hx).
  rewrite list_lookup_insert_eq by (by eapply lookup_lt_Some).
  by rewrite arraySet_lookup.
Qed.

Lemma onBoard_true cx cy : onBoard cx cy = true <-> 0 <= cx < 8 /\ 0 <= cy < 8.
Proof. unfold onBoard. rewrite !andb_true_iff, !Z.leb_le, !Z.ltb_lt. lia. Qed.

Lemma In_allSquares sq : In sq allSquares <-> 0 <= x sq < 8 /\ 0 <= y sq < 8.
Proof.
  unfold allSquares. rewrite in_flat_map. split.
  - intros (cy & Hy & Hin). apply in_map_iff in Hin as (cx & <- & Hx).
    apply list_elem_of_In, elem_of_seqZ in Hx, Hy. simpl. lia.
  - intros [Hx Hy]. exists (y sq). split.
    + apply list_elem_of_In, elem_of_seqZ. lia.
    + apply in_map_iff. exists (x sq). split; [by destruct sq|].
      apply list_elem_of_In, elem_of_seqZ. lia.
Qed.

(** ** C1: legality closure *)

(** When exactly one square holds the king of [color], [inCheck] tells
    whether that square is attacked. *)
Lemma inCheck_false_only_king state color king :
  inCheck state color = false ->
  0 <= x king < 8 -> 0 <= y king < 8 ->
  getCell (board state) (x king) (y king) = Some (if isW color then "K" else "k")%char ->
  (forall sq, 0 <= x sq < 8 -> 0 <= y sq < 8 ->
     getCell (board state) (x sq) (y sq) = Some (if isW color then "K" else "k")%char ->
     sq = king) ->
  isSquareAttacked state king (opposite color) = false.
Proof.
  intros Hchk Hx Hy Hk Huniq. unfold inCheck, findKing in Hchk.
  destruct (find _ allSquares) as [sq|] eqn:Hfind.
  - apply find_some in Hfind as [Hin Hsq]. apply In_allSquares in Hin as [Hsx Hsy].
    apply bool_decide_eq_true in Hsq. by rewrite <- (Huniq sq Hsx Hsy Hsq).
  - assert (Hin : In king allSquares) by (by apply In_allSquares).
    pose proof (find_none _ _ Hfind _ Hin) as Hno. unfold cellIs in Hno.
    by rewrite bool_decide_eq_true_2 in Hno.
Qed.

(** C1. Every move in the list returned by [allLegalMoves] can be applied, and
    in the position it produces the king of the side that moved is not
    attacked: [inCheck] is false for the mover, the square that [findKing]
    returns for the mover is not attacked by the other colour, and when
    exactly one square holds the mover's king that square is not attacked. *)
Theorem allLegalMoves_never_leaves_mover_in_check state legal m :
  allLegalMoves state = Ret legal -> In m legal ->
  exists next,
    applyMove state m = Ret next
    /\ inCheck next (activeColor state) = false
    /\ (forall king, findKing (board next) (activeColor state) = Some king ->
         isSquareAttacked next king (opposite (activeColor state)) = false)
    /\ (forall king,
         0 <= x king < 8 -> 0 <= y king < 8 ->
         getCell (board next) (x king) (y king)
           = Some (if isW (activeColor state) then "K" else "k")%char ->
         (forall sq, 0 <= x sq < 8 -> 0 <= y sq < 8 ->
            getCell (board next) (x sq) (y sq)
              = Some (if isW (activeColor state) then "K" else "k")%char ->
            sq = king) ->
         isSquareAttacked next king (opposite (activeColor state)) = false).
Proof.
  intros H Hin.
  destruct (allLegalMoves_In _ _ _ H Hin) as (_ & _ & _ & _ & _ & _ & _ & next & Happ & Hchk).
  exists next. split; [assumption|]. split; [assumption|]. split.
  - intros king Hk. unfold inCheck in Hchk. by rewrite Hk in Hchk.
  - intros king. by apply inCheck_false_only_king.
Qed.

Import Samples.

Lemma parseFen_START_FEN : parseFen START_FEN = Ret startPosition.
Proof. vm_compute. reflexivity. Qed.

Lemma allLegalMoves_witness :
  allLegalMoves startPosition = Ret startLegal
  /\ In e2e4 startLegal
  /\ exists next,
       applyMove startPosition e2e4 = Ret next
       /\ inCheck next (Some "w") = false.
Proof.
  assert (Hl : allLegalMoves startPosition = Ret startLegal) by (vm_compute; reflexivity).
  assert (Hin : In e2e4 startLegal) by (vm_compute; tauto).
  split; [exact Hl|]. split; [exact Hin|].
  destruct (allLegalMoves_never_leaves_mover_in_check startPosition startLegal e2e4 Hl Hin)
    as (next & Happ & Hchk & _).
  exists next. split; [exact Happ|exact Hchk].
Defined.

(** ** The session commit path *)

Section Session.
Import Games.
Variable computeEloDelta : Z -> Z -> Score -> Z.

Lemma finalizeRatingsWithClient_games db game draw :
  games (finalizeRatingsWithClient computeEloDelta db game draw) = games db.
Proof. reflexivity. Qed.

Lemma commitMove_active db gid game uid sanText fenAfter n cm sm :
  games db !! gid = Some game -> status game = Active ->
  exists db' bc,
    commitMove computeEloDelta db gid uid sanText fenAfter n cm sm
      = (MoveJson (committedGame game uid sanText fenAfter cm sm) sanText fenAfter n, db', bc)
    /\ games db' !! gid = Some (committedGame game uid sanText fenAfter cm sm).
Proof.
  intros Hg Hs. unfold commitMove. rewrite Hg, Hs. simpl.
  eexists _, _. split; [reflexivity|].
  case_bool_decide; simpl; apply lookup_insert_eq.
Qed.

Lemma submitMove_accepted db gid game uid sanText fenAfter chk cm sm :
  games db !! gid = Some game -> status game = Active ->
  (if isW (split " " (current_fen game) !! 1%nat)
   then white_user_id game else black_user_id game) = uid ->
  validateAndApplySanMove (current_fen game) sanText = Ret (SanOk fenAfter chk cm sm) ->
  exists db' bc,
    submitMove computeEloDelta db gid uid sanText
      = (MoveJson (committedGame game uid sanText fenAfter cm sm) sanText fenAfter
           (length (default [] (moves game)) + 1), db', bc)
    /\ games db' !! gid = Some (committedGame game uid sanText fenAfter cm sm).
Proof.
  intros Hg Hs Hturn Hval. unfold submitMove. rewrite Hg, Hs. simpl.
  assert (Hpart : negb (bool_decide (white_user_id game = uid))
                  && negb (bool_decide (black_user_id game = uid)) = false).
  { destruct (isW _); subst uid.
    - rewrite bool_decide_eq_true_2 by done. reflexivity.
    - rewrite (bool_decide_eq_true_2 (black_user_id game = _)) by done.
      apply andb_false_r. }
  rewrite Hpart, Hturn, bool_decide_eq_true_2 by done. simpl.
  rewrite Hval. by apply commitMove_active.
Qed.

End Session.

(** ** C3: the shortest mate, end to end *)

Lemma parseFen_activeColor fen pos :
  parseFen fen = Ret pos -> activeColor pos = split " " fen !! 1%nat.
Proof. unfold parseFen. intros H. inv_bind H. by injection H as <-. Qed.

(** C3. From the starting position the tokens f3, e5, g4, Qh4 are accepted one
    after the other by [validateAndApplySanMove], and the last result reports
    checkmate: in the final position white is to move, is in check and has no
    legal move.  Submitted in turn by the white and the black participant of a
    freshly paired game, the four moves are committed and the game row ends
    with status finished and the black participant as winner. *)
Theorem fools_mate_finishes_game
    (computeEloDelta : Z -> Z -> Games.Score -> Z) (db : Db) (gid white black : string) :
  games db !! gid = Some (newGame white black) ->
  validateAndApplySanMove START_FEN "f3" = Ret (SanOk fen_f3 false false false)
  /\ validateAndApplySanMove fen_f3 "e5" = Ret (SanOk fen_e5 false false false)
  /\ validateAndApplySanMove fen_e5 "g4" = Ret (SanOk fen_g4 false false false)
  /\ validateAndApplySanMove fen_g4 "Qh4" = Ret (SanOk fen_Qh4 true true false)
  /\ (exists final, parseFen fen_Qh4 = Ret final
        /\ activeColor final = Some "w"
        /\ inCheck final (Some "w") = true
        /\ allLegalMoves final = Ret [])
  /\ exists r1 db1 b1 r2 db2 b2 r3 db3 b3 game4 db4 b4,
       Games.submitMove computeEloDelta db gid white "f3" = (r1, db1, b1)
       /\ Games.submitMove computeEloDelta db1 gid black "e5" = (r2, db2, b2)
       /\ Games.submitMove computeEloDelta db2 gid white "g4" = (r3, db3, b3)
       /\ Games.submitMove computeEloDelta db3 gid black "Qh4"
            = (Games.MoveJson game4 "Qh4" fen_Qh4 4, db4, b4)
       /\ games db4 !! gid = Some game4
       /\ status game4 = Finished
       /\ winner_user_id game4 = Some black
       /\ white_user_id game4 = white /\ black_user_id game4 = black
       /\ current_fen game4 = fen_Qh4
       /\ moves game4 = Some ["f3"; "e5"; "g4"; "Qh4"].
Proof.
  intros Hg.
  assert (V1 : validateAndApplySanMove START_FEN "f3" = Ret (SanOk fen_f3 false false false))
    by (vm_compute; reflexivity).
  assert (V2 : validateAndApplySanMove fen_f3 "e5" = Ret (SanOk fen_e5 false false false))
    by (vm_compute; reflexivity).
  assert (V3 : validateAndApplySanMove fen_e5 "g4" = Ret (SanOk fen_g4 false false false))
    by (vm_compute; reflexivity).
  assert (V4 : validateAndApplySanMove fen_g4 "Qh4" = Ret (SanOk fen_Qh4 true true false))
    by (vm_compute; reflexivity).
  do 4 (split; [assumption|]).
  split.
  { destruct (parseFen fen_Qh4) as [final|] eqn:E; [|vm_compute in E; discriminate].
    exists final. split; [reflexivity|].
    vm_compute in E. injection E as <-. repeat split; vm_compute; reflexivity. }
  destruct (submitMove_accepted computeEloDelta db gid _ white "f3" _ _ _ _
              Hg eq_refl eq_refl V1) as (db1 & b1 & S1 & G1).
  destruct (submitMove_accepted computeEloDelta db1 gid _ black "e5" _ _ _ _
              G1 eq_refl eq_refl V2) as (db2 & b2 & S2 & G2).
  destruct (submitMove_accepted computeEloDelta db2 gid _ white "g4" _ _ _ _
              G2 eq_refl eq_refl V3) as (db3 & b3 & S3 & G3).
  destruct (submitMove_accepted computeEloDelta db3 gid _ black "Qh4" _ _ _ _
              G3 eq_refl eq_refl V4) as (db4 & b4 & S4 & G4).
  do 12 eexists. split; [exact S1|]. split; [exact S2|]. split; [exact S3|].
  split; [exact S4|]. split; [exact G4|]. repeat split.
Qed.

Lemma fools_mate_witness :
  games sampleDb !! "g1" = Some (newGame "alice" "bob")
  /\ exists game4,
       games (Games.submitMove (fun _ _ _ => 0)
                (Games.submitMove (fun _ _ _ => 0)
                   (Games.submitMove (fun _ _ _ => 0)
                      (Games.submitMove (fun _ _ _ => 0) sampleDb "g1" "alice" "f3").1.2
                      "g1" "bob" "e5").1.2
                   "g1" "alice" "g4").1.2
                "g1" "bob" "Qh4").1.2 !! "g1" = Some game4
       /\ status game4 = Finished /\ winner_user_id game4 = Some "bob".
Proof.
  assert (H : games sampleDb !! "g1" = Some (newGame "alice" "bob"))
    by (vm_compute; reflexivity).
  split; [exact H|].
  destruct (fools_mate_finishes_game (fun _ _ _ => 0) sampleDb "g1" "alice" "bob" H)
    as (_ & _ & _ & _ & _ & r1 & db1 & b1 & r2 & db2 & b2 & r3 & db3 & b3 & game4 & db4 & b4
        & S1 & S2 & S3 & S4 & G4 & Hst & Hw & _).
  exists game4. rewrite S1. simpl. rewrite S2. simpl. rewrite S3. simpl. rewrite S4. simpl.
  auto.
Defined.

(** ** C4: turn enforcement *)

(** C4. In an active game, a move submitted by the participant who does not
    hold the side to move of the current position (black while white is to
    move, white while black is to move) is answered with 409 "Not your turn",
    and the database (current position, move history, status) is returned
    as it was, with nothing broadcast. *)
Theorem submitMove_rejects_wrong_turn
    (computeEloDelta : Z -> Z -> Games.Score -> Z) (db : Db) (gid uid sanText : string)
    (game : Game) (pos : Position) :
  games db !! gid = Some game ->
  status game = Active ->
  parseFen (current_fen game) = Ret pos ->
  (activeColor pos = Some "w" /\ uid = black_user_id game /\ uid <> white_user_id game)
  \/ (activeColor pos = Some "b" /\ uid = white_user_id game /\ uid <> black_user_id game) ->
  Games.submitMove computeEloDelta db gid uid sanText
    = (Games.ErrorJson 409 "Not your turn", db, []).
Proof.
  intros Hg Hs Hp Hturn. apply parseFen_activeColor in Hp.
  unfold Games.submitMove. rewrite Hg, Hs. simpl. rewrite <- Hp.
  destruct Hturn as [(Hc & Hu & Hne) | (Hc & Hu & Hne)]; rewrite Hc; subst uid; simpl.
  - rewrite (bool_decide_eq_true_2 (black_user_id game = _)) by done.
    rewrite andb_false_r. rewrite bool_decide_eq_false_2 by congruence. reflexivity.
  - rewrite (bool_decide_eq_true_2 (white_user_id game = _)) by done. simpl.
    rewrite bool_decide_eq_false_2 by congruence. reflexivity.
Qed.

Lemma submitMove_wrong_turn_witness :
  Games.submitMove (fun _ _ _ => 0) sampleDb "g1" "bob" "e5"
    = (Games.ErrorJson 409 "Not your turn", sampleDb, []).
Proof.
  apply (submitMove_rejects_wrong_turn (fun _ _ _ => 0) sampleDb "g1" "bob" "e5"
           (newGame "alice" "bob") startPosition).
  - vm_compute. reflexivity.
  - reflexivity.
  - vm_compute. reflexivity.
  - left. repeat split. discriminate.
Defined.

(** ** C6: what [parseFen] does with malformed text *)

Lemma parseFenRank_Throw rows l : fold_left (parseFenRank rows) l Throw = Throw.
Proof. induction l; simpl; auto. Qed.

Lemma parseFenRank_enough rows l b :
  (forall r, In r l -> (r < length rows)%nat) ->
  exists b', fold_left (parseFenRank rows) l (Ret b) = Ret b'.
Proof.
  revert b. induction l as [|r l IH]; intros b Hl; simpl; [eauto|].
  destruct (lookup_lt_is_Some_2 rows r (Hl r (or_introl eq_refl))) as [row Hrow].
  rewrite Hrow. apply IH. intros r' Hr'. apply Hl. by right.
Qed.

Lemma parseFenRank_missing rows l acc r :
  In r l -> (length rows <= r)%nat -> fold_left (parseFenRank rows) l acc = Throw.
Proof.
  revert acc. induction l as [|r' l IH]; intros acc Hin Hr; [destruct Hin|].
  simpl. destruct Hin as [->|Hin]; [|by apply IH].
  destruct acc as [b|]; simpl; [|apply parseFenRank_Throw].
  rewrite (lookup_ge_None_2 rows r) by lia. apply parseFenRank_Throw.
Qed.

(** C6 (as the code has it). [parseFen] has no invalid-format result: it
    raises a [TypeError] exactly when the first space-separated field has
    fewer than eight [/]-separated ranks, and otherwise returns a position,
    whatever the number of fields, the letters and the lengths of the ranks;
    the five other fields are taken over as they come ([undefined] when
    absent). *)
Theorem parseFen_raises_or_returns (fen : string) :
  let fields := split " " fen in
  let rows := split "/" (default EmptyString (fields !! 0%nat)) in
  ((length rows < 8)%nat -> parseFen fen = Throw)
  /\ ((8 <= length rows)%nat ->
      exists b,
        parseFen fen
          = Ret {| board := b;
                   activeColor := fields !! 1%nat;
                   castling := (if bool_decide (fields !! 2%nat = Some "-")
                                then Some "" else fields !! 2%nat);
                   enPassant := fields !! 3%nat;
                   halfmove := Number (fields !! 4%nat);
                   fullmove := Number (fields !! 5%nat) |}).
Proof.
  intros fields rows. unfold parseFen. fold fields. fold rows. split; intros Hlen.
  - rewrite (parseFenRank_missing rows (seq 0 8) (Ret emptyBoard) 7%nat); [reflexivity| |lia].
    simpl. tauto.
  - destruct (parseFenRank_enough rows (seq 0 8) emptyBoard) as [b Hb].
    + intros r Hr. apply in_seq in Hr. lia.
    + exists b. rewrite Hb. reflexivity.
Qed.

(** C6, counterexample. A text of seven fields with the letter X among the
    pieces and a rank counting nine files is parsed into a position without
    complaint; a text with three ranks makes [parseFen] raise. *)
Lemma parseFen_malformed_counterexample :
  length (split " " "rnbqkbnr/ppppXppp/9/8/8/8/PPPPPPPP/RNBQKBNR w KQkq - 0 1 extra") = 7%nat
  /\ (exists pos,
        parseFen "rnbqkbnr/ppppXppp/9/8/8/8/PPPPPPPP/RNBQKBNR w KQkq - 0 1 extra" = Ret pos
        /\ getCell (board pos) 4 6 = Some "X"%char)
  /\ parseFen "8/8/8 w - - 0 1" = Throw.
Proof.
  split; [vm_compute; reflexivity|]. split; [|vm_compute; reflexivity].
  destruct (parseFen _) as [pos|] eqn:E; [|vm_compute in E; discriminate].
  exists pos. split; [reflexivity|]. vm_compute in E. injection E as <-.
  vm_compute. reflexivity.
Qed.

(** ** C8: colours of a new pairing *)

Import Matchmaking QueueSamples.

(** With no request between the two queries of [tryMatch], the user of the
    first selected row plays white unless the second row has a strictly higher
    rating snapshot. *)
Lemma tryMatch_colours_serial db newId m db' ns :
  tryMatch db newId = (Some m, db', ns) ->
  exists a b,
    selectQueued db = [a; b]
    /\ user_id a <> user_id b
    /\ (rating_snapshot a >= rating_snapshot b ->
        whiteUserId m = user_id a /\ blackUserId m = user_id b)
    /\ (rating_snapshot a < rating_snapshot b ->
        whiteUserId m = user_id b /\ blackUserId m = user_id a).
Proof.
  unfold tryMatch, pairQueued. intros H.
  assert (Hlen : (length (selectQueued db) <= 2)%nat).
  { unfold selectQueued. rewrite length_take. lia. }
  destruct (selectQueued db) as [|a [|b [|c rest]]] eqn:Hsel; try discriminate;
    [|simpl in Hlen; lia].
  case_bool_decide as Hab; [discriminate|].
  simpl in H. unfold ratingOf in H. simpl in H.
  rewrite bool_decide_eq_true_2 in H by done.
  rewrite (bool_decide_eq_false_2 (user_id a = user_id b)) in H by done.
  rewrite (bool_decide_eq_true_2 (user_id b = user_id b)) in H by done.
  simpl in H. exists a, b. split; [reflexivity|]. split; [assumption|].
  destruct (rating_snapshot a >=? rating_snapshot b) eqn:Hcmp.
  - rewrite bool_decide_eq_true_2 in H by done. injection H as <- _ _. simpl.
    split; [auto|]. intros. apply Z.geb_le in Hcmp. lia.
  - rewrite bool_decide_eq_false_2 in H by congruence. injection H as <- _ _. simpl.
    split; [|auto]. intros Hge.
    assert ((rating_snapshot a >=? rating_snapshot b) = true) by (apply Z.geb_le; lia).
    congruence.
Qed.

(** C8, on the code. When [u1] (snapshot 1500) joins again between the first
    query of [tryMatch] and its locking query, the locking query returns
    [u2; u1] while the ratings are still taken from the rows [u1; u2] of the
    first query: [u2], whose snapshot is 1000, is given white. *)
Theorem tryMatch_rejoin_gives_white_to_lower_rating :
  selectQueued queueDb
    = [ {| user_id := "u1"; rating_snapshot := 1500; queued_at := 1 |};
        {| user_id := "u2"; rating_snapshot := 1000; queued_at := 2 |} ]
  /\ selectQueued queueDbRejoined
       = [ {| user_id := "u2"; rating_snapshot := 1000; queued_at := 2 |};
           {| user_id := "u1"; rating_snapshot := 1500; queued_at := 3 |} ]
  /\ (pairQueued (selectQueued queueDb) queueDbRejoined "g").1.1
       = Some {| gameId := "g"; whiteUserId := "u2"; blackUserId := "u1" |}.
Proof. repeat split; vm_compute; reflexivity. Qed.

(** ** What the generator returns *)

Lemma addMove_In b color src tx ty fl m :
  In m (addMove b color src tx ty fl) ->
  from m = src /\ to m = {| x := tx; y := ty |} /\ onBoard tx ty = true
  /\ promotion m = None /\ castle m = None
  /\ (epCapture m = true -> fl = FEnPassant).
Proof.
  unfold addMove. destruct (onBoard tx ty); simpl; [|tauto].
  destruct (_ && _); simpl; [tauto|].
  intros [<-|[]]. simpl. repeat split. by destruct fl.
Qed.

Lemma slideRay_In fuel b color target src cx cy dx dy m :
  In m (slideRay fuel b color target src cx cy dx dy) ->
  from m = src /\ onBoard (x (to m)) (y (to m)) = true
  /\ promotion m = None /\ epCapture m = false.
Proof.
  revert cx cy. induction fuel as [|fuel IH]; intros cx cy; simpl; [tauto|].
  destruct (onBoard cx cy); [|simpl; tauto].
  assert (Hadd : forall fl, fl <> FEnPassant -> In m (addMove b color src cx cy fl) ->
            from m = src /\ onBoard (x (to m)) (y (to m)) = true
            /\ promotion m = None /\ epCapture m = false).
  { intros fl Hfl Hin. apply addMove_In in Hin as (? & -> & ? & ? & _ & Hep).
    repeat split; auto. destruct (epCapture m); [by destruct Hfl; apply Hep|done]. }
  destruct (getCell b cx cy).
  - case_bool_decide; [|simpl; tauto]. by apply Hadd.
  - intros Hin. apply in_app_or in Hin as [Hin|Hin]; [by apply (Hadd NoFlags)|by eapply IH].
Qed.

Lemma slide_In b color target src dirs m :
  In m (slide b color target src dirs) ->
  from m = src /\ onBoard (x (to m)) (y (to m)) = true
  /\ promotion m = None /\ epCapture m = false.
Proof.
  unfold slide. rewrite in_flat_map. intros (d & _ & Hin). by eapply slideRay_In.
Qed.

Lemma pawnMoves_In state color target src m :
  In m (pawnMoves state color target src) ->
  from m = src /\ onBoard (x (to m)) (y (to m)) = true /\ promotion m = None
  /\ (epCapture m = true -> y (to m) = y src + (if isW color then 1 else -1)).
Proof.
  assert (Hadd : forall tx ty fl, In m (addMove (board state) color src tx ty fl) ->
            ty = y src + (if isW color then 1 else -1) \/ fl <> FEnPassant ->
            from m = src /\ onBoard (x (to m)) (y (to m)) = true /\ promotion m = None
            /\ (epCapture m = true -> y (to m) = y src + (if isW color then 1 else -1))).
  { intros tx ty fl Hin Hty. apply addMove_In in Hin as (? & -> & ? & ? & _ & Hep).
    repeat split; auto. intros E. simpl. destruct Hty as [->|Hfl]; [done|].
    by destruct Hfl; apply Hep. }
  unfold pawnMoves. intros Hin. apply in_app_or in Hin as [Hin|Hin].
  - destruct (_ && _); [|destruct Hin].
    apply in_app_or in Hin as [Hin|Hin]; [eapply Hadd; eauto|].
    destruct (_ && _); [|destruct Hin]. eapply Hadd; eauto.
  - apply in_flat_map in Hin as (dx & _ & Hin).
    destruct (negb _); [destruct Hin|].
    apply in_app_or in Hin as [Hin|Hin].
    + destruct (_ && _); [|destruct Hin]. eapply Hadd; eauto.
    + destruct (match enPassant state with Some _ => _ | None => _ end); [|destruct Hin].
      destruct (_ && _); [|destruct Hin]. eapply Hadd; eauto.
Qed.

Lemma kingMoves_In state color target src gen m :
  kingMoves state color target src = Ret gen -> In m gen ->
  from m = src /\ onBoard (x (to m)) (y (to m)) = true
  /\ promotion m = None /\ epCapture m = false.
Proof.
  assert (Hsteps : In m (flat_map (fun d => addMove (board state) color src
                                     (x src + d.1) (y src + d.2) NoFlags) kingSteps) ->
            from m = src /\ onBoard (x (to m)) (y (to m)) = true
            /\ promotion m = None /\ epCapture m = false).
  { intros Hin. apply in_flat_map in Hin as (d & _ & Hin).
    apply addMove_In in Hin as (? & -> & ? & ? & _ & Hep). repeat split; auto.
    destruct (epCapture m); [by specialize (Hep eq_refl)|done]. }
  unfold kingMoves. destruct (negb (inCheck state color)).
  - intros H. inv_bind H. inv_bind H. injection H as <-.
    intros Hin. apply in_app_or in Hin as [Hin|Hin]; [auto|].
    apply in_app_or in Hin as [Hin|Hin].
    + destruct (_ && _); [|destruct Hin]. destruct Hin as [<-|[]].
      simpl. by destruct (isW color).
    + destruct (_ && _); [|destruct Hin]. destruct Hin as [<-|[]].
      simpl. by destruct (isW color).
  - intros [= <-]. auto.
Qed.

Lemma generatePieceMoves_In state src gen m :
  generatePieceMoves state src = Ret gen -> In m gen ->
  generatedFrom state src m /\ getCell (board state) (x src) (y src) <> None.
Proof.
  unfold generatePieceMoves, generatedFrom.
  destruct (getCell (board state) (x src) (y src)) as [piece|]; [|by intros [= <-] []].
  cbv zeta. generalize (pieceColor (Some piece)). intros color.
  case_bool_decide as Hc; cbn [negb]; [|by intros [= <-] []].
  rewrite <- Hc. intros H Hin. split; [|done].
  case_bool_decide.
  { apply Ret_inj in H as <-. apply pawnMoves_In in Hin as (? & ? & ? & Hep).
    repeat split; auto. intros E. rewrite (Hep E). destruct (isW _); lia. }
  assert (Hplain : from m = src /\ onBoard (x (to m)) (y (to m)) = true
                   /\ promotion m = None /\ epCapture m = false ->
                   from m = src /\ onBoard (x (to m)) (y (to m)) = true /\ promotion m = None
                   /\ (epCapture m = true ->
                       y (to m) + (if isW color then -1 else 1) = y src)).
  { intros (? & ? & ? & Hep). repeat split; auto. rewrite Hep. discriminate. }
  apply Hplain. case_bool_decide.
  { apply Ret_inj in H as <-. apply in_flat_map in Hin as (d & _ & Hin).
    apply addMove_In in Hin as (? & -> & ? & ? & _ & Hep). repeat split; auto.
    destruct (epCapture m); [by specialize (Hep eq_refl)|done]. }
  inv_bind H. apply Ret_inj in H as <-.
  apply in_app_or in Hin as [Hin|Hin].
  { case_bool_decide; [by eapply slide_In|destruct Hin]. }
  apply in_app_or in Hin as [Hin|Hin].
  { case_bool_decide; [by eapply slide_In|destruct Hin]. }
  apply in_app_or in Hin as [Hin|Hin].
  { case_bool_decide; [by eapply slide_In|destruct Hin]. }
  case_bool_decide; [by eapply kingMoves_In|].
  apply Ret_inj in Hv as <-. destruct Hin.
Qed.

(** ** Move application and generation do not raise *)

Lemma bind_Ret_l {A B : Type} (a : A) (k : A -> Exn B) : Ret a ≫= k = k a.
Proof. reflexivity. Qed.

Lemma whenM_Ret {A : Type} (P : A -> Prop) (cond : bool) (f : A -> Exn A) (a : A) :
  P a -> (cond = true -> exists a', f a = Ret a' /\ P a') ->
  exists a', whenM cond f a = Ret a' /\ P a'.
Proof. intros Ha Hf. unfold whenM. destruct cond; eauto. Qed.

Lemma setCell_rows b cx cy v :
  length b = 8%nat -> 0 <= cy < 8 ->
  exists b', setCell b cx cy v = Ret b' /\ length b' = 8%nat.
Proof.
  intros Hlen Hy. destruct (setCell_Ret b cx cy v) as [b' Hb']; [lia|].
  exists b'. split; [done|]. by rewrite (setCell_length _ _ _ _ _ Hb').
Qed.

Ltac step_whenM P :=
  match goal with
  | |- context [whenM ?c ?f ?a ≫= _] =>
      let a' := fresh "a" in
      let Ha := fresh "Ha" in
      let Pa := fresh "Pa" in
      destruct (whenM_Ret P c f a) as (a' & Ha & Pa);
      [ | | rewrite Ha, bind_Ret_l ]
  end.

Lemma applyMove_total state m cs :
  length (board state) = 8%nat -> castling state = Some cs -> applicable state m ->
  exists next,
    applyMove state m = Ret next
    /\ length (board next) = 8%nat
    /\ (exists cs', castling next = Some cs')
    /\ activeColor next = (if isW (activeColor state) then Some "b" else Some "w")
    /\ getCell (board next) (x (to m)) (y (to m))
       = match promotion m with
         | Some pr => Some (if isW (activeColor state) then pr else toLowerCase pr)
         | None => getCell (board state) (x (from m)) (y (from m))
         end.
Proof.
  intros Hlen Hcs (Hsy & Hdst & Hep & Hpiece).
  apply onBoard_true in Hdst as [Hdx Hdy].
  unfold applyMove. cbv zeta.
  destruct (setCell_rows (board state) (x (from m)) (y (from m)) None Hlen Hsy)
    as (b1 & H1 & L1).
  rewrite H1, bind_Ret_l.
  step_whenM (fun b : Board => length b = 8%nat); [assumption| |].
  { intros E. apply setCell_rows; auto. }
  step_whenM (fun b : Board => length b = 8%nat); [assumption| |].
  { intros _. assert (Hrank : 0 <= (if isW (activeColor state) then 0 else 7) < 8)
      by (destruct (isW _); lia).
    destruct (x (to m) =? 6).
    - destruct (setCell_rows a 7 _ None Pa Hrank) as (b' & -> & L').
      rewrite bind_Ret_l. by apply setCell_rows.
    - destruct (x (to m) =? 2); [|eauto].
      destruct (setCell_rows a 0 _ None Pa Hrank) as (b' & -> & L').
      rewrite bind_Ret_l. by apply setCell_rows. }
  match goal with
  | |- context [setCell a0 ?cx ?cy ?v ≫= _] =>
      destruct (setCell_rows a0 cx cy v Pa0) as (b4 & H4 & L4); [lia|];
      rewrite H4, bind_Ret_l
  end.
  destruct (getCell (board state) (x (from m)) (y (from m))) as [pc|] eqn:Hpc; [|done].
  rewrite bind_Ret_l. rewrite Hcs.
  step_whenM (fun c : option string => exists s, c = Some s); [eauto| |].
  { intros _. simpl. eauto. }
  do 6 (step_whenM (fun c : option string => exists s, c = Some s); [assumption| |];
        [ intros _; match goal with H : exists s, _ = Some s |- _ => destruct H as [? ->] end;
          simpl; eauto | ]).
  eexists. split; [reflexivity|]. simpl. repeat split; auto.
  apply (getCell_setCell _ _ _ _ _ H4). lia.
Qed.

Lemma forEachM_total {A B : Type} (f : A -> Exn (list B)) (l : list A) :
  (forall a, In a l -> exists r, f a = Ret r) -> exists rs, forEachM f l = Ret rs.
Proof.
  induction l as [|a l IH]; intros Hf; simpl; [eauto|].
  destruct (Hf a (or_introl eq_refl)) as [r ->].
  destruct IH as [rs ->]; [intros; apply Hf; by right|]. simpl. eauto.
Qed.

Lemma filterM_total {A : Type} (f : A -> Exn bool) (l : list A) :
  (forall a, In a l -> exists r, f a = Ret r) -> exists rs, filterM f l = Ret rs.
Proof.
  induction l as [|a l IH]; intros Hf; simpl; [eauto|].
  destruct (Hf a (or_introl eq_refl)) as [r ->].
  destruct IH as [rs ->]; [intros; apply Hf; by right|]. simpl. eauto.
Qed.

Lemma generatePieceMoves_total state src cs :
  castling state = Some cs -> exists gen, generatePieceMoves state src = Ret gen.
Proof.
  intros Hcs. unfold generatePieceMoves.
  destruct (getCell _ _ _) as [piece|]; [|eauto].
  cbv zeta. destruct (negb _); [eauto|].
  case_bool_decide; [eauto|]. case_bool_decide; [eauto|].
  match goal with
  | |- context [?e ≫= _] => assert (exists mK, e = Ret mK) as [mK ->]
  end; [|rewrite bind_Ret_l; eauto].
  destruct (bool_decide (toUpperCase piece = "K"%char)); [|eauto].
  unfold kingMoves. rewrite Hcs. destruct (negb (inCheck _ _)); simpl; eauto.
Qed.

Lemma generated_applicable state src m :
  0 <= y src < 8 -> generatedFrom state src m ->
  getCell (board state) (x src) (y src) <> None -> applicable state m.
Proof.
  intros Hy (Hf & Hto & _ & Hep) Hp. subst src. repeat split; auto; try lia.
  - specialize (Hep H). lia.
  - specialize (Hep H). lia.
Qed.

Lemma allLegalMoves_total state cs :
  length (board state) = 8%nat -> castling state = Some cs ->
  exists legal, allLegalMoves state = Ret legal.
Proof.
  intros Hlen Hcs. apply forEachM_total. intros src Hsrc. cbv zeta.
  apply In_allSquares in Hsrc as [_ Hy].
  case_bool_decide; [eauto|]. destruct (negb _); [eauto|].
  destruct (generatePieceMoves_total state src cs Hcs) as [gen Hgen].
  rewrite Hgen, bind_Ret_l. apply filterM_total. intros m Hm.
  destruct (generatePieceMoves_In _ _ _ _ Hgen Hm) as [Hg Hp].
  destruct (applyMove_total state m cs Hlen Hcs (generated_applicable _ _ _ Hy Hg Hp))
    as (next & -> & _). rewrite bind_Ret_l. eauto.
Qed.

(** ** C10: positions without a king *)

Lemma find_None {A : Type} (f : A -> bool) (l : list A) :
  (forall a, In a l -> f a = false) -> find f l = None.
Proof.
  induction l as [|a l IH]; intros H; simpl; [reflexivity|].
  rewrite (H a (or_introl eq_refl)). apply IH. intros; apply H; by right.
Qed.

Lemma noKingb_noKing b color : noKingb b color = true -> noKing b color.
Proof.
  unfold noKingb, noKing. rewrite forallb_forall. intros H cx cy Hx Hy Hk.
  assert (Hin : In {| x := cx; y := cy |} allSquares)
    by (apply In_allSquares; simpl; lia).
  specialize (H _ Hin). cbn [x y] in H. unfold cellIs in H.
  by rewrite bool_decide_eq_true_2 in H.
Qed.

Lemma noKing_findKing b color : noKing b color -> findKing b color = None.
Proof.
  intros H. unfold findKing. apply find_None. intros sq Hsq.
  apply In_allSquares in Hsq as [Hx Hy]. unfold cellIs.
  apply bool_decide_eq_false_2. by apply H.
Qed.

(** C10. When no square holds the king of [color], [findKing] returns [null]
    and [inCheck] answers [false] for that colour.  Nothing raises for want of
    a king: on such a position (eight ranks, castling field present)
    [allLegalMoves] returns a list, and every move of the list is applied
    without raising. *)
Theorem kingless_position_is_not_in_check state color :
  noKing (board state) color ->
  findKing (board state) color = None
  /\ inCheck state color = false
  /\ (forall cs, length (board state) = 8%nat -> castling state = Some cs ->
      exists legal,
        allLegalMoves state = Ret legal
        /\ forall m, In m legal -> exists next, applyMove state m = Ret next).
Proof.
  intros Hk. pose proof (noKing_findKing _ _ Hk) as Hf.
  split; [assumption|]. split; [unfold inCheck; by rewrite Hf|].
  intros cs Hlen Hcs.
  destruct (allLegalMoves_total state cs Hlen Hcs) as [legal Hl].
  exists legal. split; [assumption|]. intros m Hm.
  destruct (allLegalMoves_In _ _ _ Hl Hm)
    as (_ & _ & _ & _ & _ & _ & _ & next & Hnext & _). eauto.
Qed.

Lemma kingless_witness :
  findKing (board loneRook) (Some "w") = None
  /\ inCheck loneRook (Some "w") = false
  /\ exists legal,
       allLegalMoves loneRook = Ret legal
       /\ forall m, In m legal -> exists next, applyMove loneRook m = Ret next.
Proof.
  destruct (kingless_position_is_not_in_check loneRook (Some "w")) as (Hf & Hc & Ht).
  - apply noKingb_noKing. vm_compute. reflexivity.
  - split; [exact Hf|]. split; [exact Hc|]. apply (Ht ""); reflexivity.
Defined.

(** ** Resolving a token *)

Lemma parseFenRank_length rows l b b' :
  length b = 8%nat -> fold_left (parseFenRank rows) l (Ret b) = Ret b' -> length b' = 8%nat.
Proof.
  revert b. induction l as [|r l IH]; intros b Hb; simpl.
  - by intros [= <-].
  - destruct (rows !! r); [|by rewrite parseFenRank_Throw].
    apply IH. by rewrite length_insert.
Qed.

Lemma parseFen_board_length fen st : parseFen fen = Ret st -> length (board st) = 8%nat.
Proof.
  unfold parseFen. intros H. inv_bind H. apply Ret_inj in H as <-. simpl.
  eapply parseFenRank_length; [|exact Hv]. reflexivity.
Qed.

Lemma In_whenSome_filter {A : Type} (o : option A) (f : A -> Move -> bool) (l : list Move) m :
  In m (whenSome o (fun a => List.filter (f a)) l) -> In m l.
Proof. destruct o; simpl; [|done]. intros H. by apply filter_In in H as [? _]. Qed.

(** A candidate is a legal move, up to the promotion attached to it, and for a
    non-castling token it lands on the square that the token names. *)
Lemma candidatesOf_In st parsed legal m :
  In m (candidatesOf st parsed legal) ->
  exists m0,
    In m0 legal /\ from m = from m0 /\ to m = to m0 /\ epCapture m = epCapture m0
    /\ match parsed with
       | PCastle _ => True
       | PMove pm =>
           x (to m) = x (sanTo pm) /\ y (to m) = y (sanTo pm)
           /\ promotion m = match sanPromotion pm with
                            | Some q => Some q
                            | None => promotion m0
                            end
           /\ cellIs (board st) (x (from m0)) (y (from m0))
                (if isW (activeColor st) then pieceLetter pm
                 else toLowerCase (pieceLetter pm)) = true
           /\ forall f, disFile pm = Some f -> arrayGet FILES (x (from m0)) = Some f
       end.
Proof.
  destruct parsed as [side|pm]; simpl.
  - intros H. apply filter_In in H as [H _]. exists m. auto.
  - intros H.
    assert (Hm0 : exists m0,
              In m0 (whenSome (disFile pm)
                       (fun f => List.filter
                          (fun m => bool_decide (arrayGet FILES (x (from m)) = Some f)))
                       (List.filter
                          (fun m => cellIs (board st) (x (from m)) (y (from m))
                                      (if isW (activeColor st) then pieceLetter pm
                                       else toLowerCase (pieceLetter pm))
                                    && (x (to m) =? x (sanTo pm)) && (y (to m) =? y (sanTo pm))
                                    && Bool.eqb (capture m) (sanCapture pm)) legal))
              /\ from m = from m0 /\ to m = to m0 /\ epCapture m = epCapture m0
              /\ promotion m = match sanPromotion pm with
                               | Some q => Some q
                               | None => promotion m0
                               end).
    { destruct (sanPromotion pm) as [q|]; simpl in H.
      - apply in_map_iff in H as (m0 & <- & H). exists m0. simpl.
        split; [|auto]. by do 2 apply In_whenSome_filter in H.
      - exists m. split; [|auto]. by do 2 apply In_whenSome_filter in H. }
    destruct Hm0 as (m0 & Hin & Hf & Ht & He & Hp). exists m0.
    assert (Hin0 := Hin). apply In_whenSome_filter in Hin0.
    apply filter_In in Hin0 as [Hl Hc].
    rewrite !andb_true_iff, !Z.eqb_eq in Hc. destruct Hc as [[[Hc1 Hc2] Hc3] _].
    rewrite Ht. repeat split; auto.
    intros f Hdf. rewrite Hdf in Hin. simpl in Hin.
    apply filter_In in Hin as [_ Hin]. by apply bool_decide_eq_true in Hin.
Qed.

(** A single candidate is applied and the status of the new position is
    computed, without raising. *)
Lemma validate_single fen san st cs parsed legal m :
  parseFen fen = Ret st -> castling st = Some cs ->
  parseSan st san = Some parsed -> allLegalMoves st = Ret legal ->
  candidatesOf st parsed legal = [m] ->
  exists next chk cm sm,
    applyMove st m = Ret next
    /\ validateAndApplySanMove fen san = Ret (SanOk (toFen next) chk cm sm)
    /\ getCell (board next) (x (to m)) (y (to m))
       = match promotion m with
         | Some pr => Some (if isW (activeColor st) then pr else toLowerCase pr)
         | None => getCell (board st) (x (from m)) (y (from m))
         end.
Proof.
  intros Hfen Hcs Hsan Hlegal Hcand.
  pose proof (parseFen_board_length _ _ Hfen) as Hlen.
  destruct (candidatesOf_In st parsed legal m) as (m0 & Hm0 & Hf & Ht & He & _).
  { rewrite Hcand. by left. }
  destruct (allLegalMoves_In _ _ _ Hlegal Hm0)
    as (src & gen & Hsrc & _ & _ & Hgen & Hin & _).
  destruct (generatePieceMoves_In _ _ _ _ Hgen Hin) as [Hg Hp].
  apply In_allSquares in Hsrc as [_ Hy].
  pose proof (generated_applicable _ _ _ Hy Hg Hp) as Happ.
  assert (Happ' : applicable st m).
  { unfold applicable in *. by rewrite Hf, Ht, He. }
  destruct (applyMove_total st m cs Hlen Hcs Happ')
    as (next & Hnext & Hlen' & [cs' Hcs'] & _ & Hcell).
  destruct (allLegalMoves_total next cs' Hlen' Hcs') as [oppLegal Hopp].
  exists next. do 3 eexists. split; [assumption|]. split; [|assumption].
  unfold validateAndApplySanMove.
  rewrite Hfen, bind_Ret_l, Hsan, Hlegal, bind_Ret_l. cbv zeta.
  rewrite Hcand. simpl. rewrite Hnext, bind_Ret_l, Hopp, bind_Ret_l. reflexivity.
Qed.

(** Knights only move by the eight jumps. *)
Lemma generatePieceMoves_knight state src gen m piece :
  generatePieceMoves state src = Ret gen -> In m gen ->
  getCell (board state) (x src) (y src) = Some piece ->
  toUpperCase piece = "N"%char ->
  exists d, In d jumps /\ x (to m) = x src + d.1.
Proof.
  unfold generatePieceMoves. intros H Hin Hp Hn. rewrite Hp in H. cbv zeta in H.
  destruct (negb _); [by apply Ret_inj in H as <-|].
  rewrite Hn in H. rewrite bool_decide_eq_false_2 in H by discriminate.
  rewrite bool_decide_eq_true_2 in H by reflexivity.
  apply Ret_inj in H as <-. apply in_flat_map in Hin as (d & Hd & Hin).
  apply addMove_In in Hin as (_ & -> & _). exists d. auto.
Qed.

(** ** C5: exactly one candidate *)

Lemma arrayGet_FILES_b i : arrayGet FILES i = Some "b"%char -> i = 1.
Proof.
  intros H. apply arrayGet_inv in H as [Hi H].
  assert (Z.to_nat i = 1%nat); [|lia].
  destruct (Z.to_nat i) as [|[|[|[|[|[|[|[|n]]]]]]]]; simpl in H; try congruence.
  by destruct n.
Qed.

Lemma no_knight_from_b_to_f3 st legal :
  allLegalMoves st = Ret legal -> candidatesOf st (PMove san_Nbf3) legal = [].
Proof.
  intros Hlegal. destruct (candidatesOf _ _ _) as [|m l] eqn:E; [reflexivity|exfalso].
  destruct (candidatesOf_In st (PMove san_Nbf3) legal m)
    as (m0 & Hm0 & _ & Ht & _ & Hx & _ & _ & Hcell & Hfile).
  { rewrite E. by left. }
  specialize (Hfile _ eq_refl). apply arrayGet_FILES_b in Hfile.
  destruct (allLegalMoves_In _ _ _ Hlegal Hm0)
    as (src & gen & _ & _ & _ & Hgen & Hin & _).
  destruct (generatePieceMoves_In _ _ _ _ Hgen Hin) as [(Hsrc & _) _]. subst src.
  apply bool_decide_eq_true in Hcell.
  destruct (generatePieceMoves_knight _ _ _ _ _ Hgen Hin Hcell) as (d & Hd & Hto).
  { simpl. by destruct (isW _). }
  rewrite <- Ht, Hx, Hfile in Hto. simpl in Hto, Hd.
  repeat (destruct Hd as [<-|Hd]; [simpl in Hto; lia|]). destruct Hd.
Qed.

(** C5 (as the code has it). After the filters, [validateAndApplySanMove]
    answers "Illegal move" when no candidate is left, "Ambiguous move" when
    two or more are left, and applies the candidate when exactly one is left.
    With white knights on g1 and d2, which both reach f3, [Nf3] is ambiguous
    while [Ngf3] and [Ndf3] each resolve to one move.  [Nbf3] never resolves:
    no knight standing on the b-file reaches f3, so in every position the
    answer, when there is one, is "Illegal move". *)
Theorem resolver_requires_exactly_one_candidate fen san st cs parsed legal :
  parseFen fen = Ret st -> castling st = Some cs ->
  parseSan st san = Some parsed -> allLegalMoves st = Ret legal ->
  (candidatesOf st parsed legal = [] ->
   validateAndApplySanMove fen san = Ret (SanError "Illegal move"))
  /\ ((2 <= length (candidatesOf st parsed legal))%nat ->
      validateAndApplySanMove fen san = Ret (SanError "Ambiguous move"))
  /\ (forall m, candidatesOf st parsed legal = [m] ->
      exists next chk cm sm,
        applyMove st m = Ret next
        /\ validateAndApplySanMove fen san = Ret (SanOk (toFen next) chk cm sm))
  /\ (parseFen knightsFen = Ret knightsPosition
      /\ allLegalMoves knightsPosition = Ret knightsLegal
      /\ candidatesOf knightsPosition (PMove san_Nf3) knightsLegal
         = [knightMove 6 0; knightMove 3 1]
      /\ validateAndApplySanMove knightsFen "Nf3" = Ret (SanError "Ambiguous move")
      /\ validateAndApplySanMove knightsFen "Ngf3"
         = Ret (SanOk "4k3/8/8/8/8/5N2/3N4/4K3 b - - 1 1" false false false)
      /\ validateAndApplySanMove knightsFen "Ndf3"
         = Ret (SanOk "4k3/8/8/8/8/5N2/8/4K1N1 b - - 1 1" false false false))
  /\ (forall fen' r, validateAndApplySanMove fen' "Nbf3" = Ret r ->
      r = SanError "Illegal move").
Proof.
  intros Hfen Hcs Hsan Hlegal.
  assert (Hv : validateAndApplySanMove fen san
               = let candidates := candidatesOf st parsed legal in
                 if negb (length candidates =? 1)%nat then
                   Ret (SanError (if (length candidates =? 0)%nat
                                  then "Illegal move" else "Ambiguous move"))
                 else match candidates !! 0%nat with
                      | None => Throw
                      | Some m =>
                          next ← applyMove st m;
                          oppLegal ← allLegalMoves next;
                          Ret (SanOk (toFen next) (inCheck next (activeColor next))
                                 (inCheck next (activeColor next) && (length oppLegal =? 0)%nat)
                                 (negb (inCheck next (activeColor next))
                                  && (length oppLegal =? 0)%nat))
                      end).
  { unfold validateAndApplySanMove. by rewrite Hfen, bind_Ret_l, Hsan, Hlegal, bind_Ret_l. }
  split; [|split; [|split; [|split]]].
  - intros E. rewrite Hv, E. reflexivity.
  - intros Hlen. rewrite Hv. cbv zeta.
    destruct (candidatesOf st parsed legal) as [|m1 [|m2 l]]; simpl in Hlen; try lia.
    reflexivity.
  - intros m E. destruct (validate_single _ _ _ _ _ _ _ Hfen Hcs Hsan Hlegal E)
      as (next & chk & cm & sm & Hn & Hr & _). eauto 10.
  - repeat split; vm_compute; reflexivity.
  - intros fen' r H. unfold validateAndApplySanMove in H. inv_bind H.
    change (parseSan v "Nbf3") with (Some (PMove san_Nbf3)) in H.
    inv_bind H. cbv zeta in H. rewrite (no_knight_from_b_to_f3 _ _ Hv1) in H.
    simpl in H. congruence.
Qed.

Lemma resolver_witness :
  (2 <= length (candidatesOf knightsPosition (PMove san_Nf3) knightsLegal))%nat
  /\ validateAndApplySanMove knightsFen "Nf3" = Ret (SanError "Ambiguous move").
Proof.
  split; [vm_compute; lia|].
  refine (proj1 (proj2 (resolver_requires_exactly_one_candidate knightsFen "Nf3"
                          knightsPosition "" (PMove san_Nf3) knightsLegal _ _ _ _)) _).
  - vm_compute. reflexivity.
  - reflexivity.
  - vm_compute. reflexivity.
  - vm_compute. reflexivity.
  - vm_compute. lia.
Defined.

(** C5, counterexample. With white knights on g1 and d2, two knights on
    different files that both reach f3, [Nbf3] does not resolve to a move: it
    is answered "Illegal move". *)
Lemma Nbf3_counterexample :
  In (knightMove 6 0) knightsLegal /\ In (knightMove 3 1) knightsLegal
  /\ getCell (board knightsPosition) 6 0 = Some "N"%char
  /\ getCell (board knightsPosition) 3 1 = Some "N"%char
  /\ allLegalMoves knightsPosition = Ret knightsLegal
  /\ parseFen knightsFen = Ret knightsPosition
  /\ validateAndApplySanMove knightsFen "Nbf3" = Ret (SanError "Illegal move").
Proof.
  split; [vm_compute; tauto|]. split; [vm_compute; tauto|].
  repeat split; vm_compute; reflexivity.
Qed.

(** ** C9: the promotion suffix *)

(** C9. When a token with a promotion suffix [=q] leaves exactly one
    candidate, that candidate carries the promotion, is applied, and the
    destination square of the resulting position holds [q] for white and its
    lower-case letter for black, whatever piece moved and whatever the rank.
    [Ke2=Q] turns the white king on e1 into a queen on e2, and [e5=Q] the pawn
    on e4 into a queen on e5. *)
Theorem promotion_suffix_is_placed_unconditionally fen san st cs pm q legal m :
  parseFen fen = Ret st -> castling st = Some cs ->
  parseSan st san = Some (PMove pm) -> sanPromotion pm = Some q ->
  allLegalMoves st = Ret legal ->
  candidatesOf st (PMove pm) legal = [m] ->
  (exists next chk cm sm,
     promotion m = Some q
     /\ applyMove st m = Ret next
     /\ validateAndApplySanMove fen san = Ret (SanOk (toFen next) chk cm sm)
     /\ getCell (board next) (x (sanTo pm)) (y (sanTo pm))
        = Some (if isW (activeColor st) then q else toLowerCase q))
  /\ validateAndApplySanMove kingPawnFen "Ke2=Q"
     = Ret (SanOk "4k3/8/8/8/4P3/8/4Q3/8 b - - 1 1" false false false)
  /\ validateAndApplySanMove kingPawnFen "e5=Q"
     = Ret (SanOk "4k3/8/8/4Q3/8/8/8/4K3 b - - 0 1" true false false).
Proof.
  intros Hfen Hcs Hsan Hq Hlegal Hcand. split; [|split; vm_compute; reflexivity].
  destruct (validate_single _ _ _ _ _ _ _ Hfen Hcs Hsan Hlegal Hcand)
    as (next & chk & cm & sm & Hn & Hr & Hcell).
  destruct (candidatesOf_In st (PMove pm) legal m)
    as (m0 & _ & _ & _ & _ & Hx & Hy & Hp & _).
  { rewrite Hcand. by left. }
  rewrite Hq in Hp. rewrite Hp, Hx, Hy in Hcell.
  exists next, chk, cm, sm. auto.
Qed.

Lemma promotion_suffix_witness :
  exists next chk cm sm,
    applyMove kingPawnPosition
      {| from := {| x := 4; y := 0 |}; to := {| x := 4; y := 1 |}; capture := false;
         pawnDouble := false; epCapture := false; castle := None;
         promotion := Some "Q"%char |} = Ret next
    /\ validateAndApplySanMove kingPawnFen "Ke2=Q" = Ret (SanOk (toFen next) chk cm sm)
    /\ getCell (board next) 4 1 = Some "Q"%char.
Proof.
  destruct (promotion_suffix_is_placed_unconditionally kingPawnFen "Ke2=Q"
              kingPawnPosition "" san_Ke2Q "Q"%char kingPawnLegal
              {| from := {| x := 4; y := 0 |}; to := {| x := 4; y := 1 |}; capture := false;
                 pawnDouble := false; epCapture := false; castle := None;
                 promotion := Some "Q"%char |})
    as [(next & chk & cm & sm & _ & Hn & Hr & Hc) _].
  - vm_compute. reflexivity.
  - reflexivity.
  - vm_compute. reflexivity.
  - reflexivity.
  - vm_compute. reflexivity.
  - vm_compute. reflexivity.
  - exists next, chk, cm, sm. auto.
Defined.

(** ** Text of a rank, written and read back *)

#[local] Arguments String.append !_ _ / : simpl nomatch.

Lemma append_nil_r s : s +:+ EmptyString = s.
Proof. induction s as [|c s IH]; simpl; [reflexivity|by rewrite IH]. Qed.

Lemma append_assoc s1 s2 s3 : (s1 +:+ s2) +:+ s3 = s1 +:+ (s2 +:+ s3).
Proof. induction s1 as [|c s1 IH]; simpl; [reflexivity|by rewrite IH]. Qed.

Lemma includes_app a b c : includes (a +:+ b) c = includes a c || includes b c.
Proof. induction a as [|d a IH]; simpl; [reflexivity|]. by rewrite IH, orb_assoc. Qed.

Lemma split_cons sep s1 s2 :
  includes s1 sep = false -> split sep (s1 +:+ String sep s2) = s1 :: split sep s2.
Proof.
  induction s1 as [|c s1 IH]; simpl.
  - by rewrite Ascii.eqb_refl.
  - intros H. apply orb_false_iff in H as [Hc Hs]. by rewrite Hc, IH.
Qed.

Lemma split_last sep s : includes s sep = false -> split sep s = [s].
Proof.
  induction s as [|c s IH]; simpl; [reflexivity|].
  intros H. apply orb_false_iff in H as [Hc Hs]. by rewrite Hc, IH.
Qed.

Lemma natToString_digit e :
  (1 <= e <= 9)%nat ->
  exists d, natToString e = String d EmptyString /\ isDigit d = true /\ digitValue d = e
            /\ d <> "/"%char /\ d <> " "%char.
Proof.
  intros He.
  destruct e as [|[|[|[|[|[|[|[|[|[|e]]]]]]]]]]; try lia;
    eexists; (split; [reflexivity|]); repeat split; discriminate.
Qed.

(** The inner loop of [toFen] walks the eight cells of the rank. *)
Lemma toFenFile_fold cells n k st :
  (k + n <= length cells)%nat ->
  fold_left (toFenFile cells) (seq k n) st
  = fold_left (fun st c => toFenFile [c] st 0) (take n (drop k cells)) st.
Proof.
  revert k st. induction n as [|n IH]; intros k st Hk; simpl; [reflexivity|].
  destruct (lookup_lt_is_Some_2 cells k) as [c Hc]; [lia|].
  rewrite (drop_S _ _ _ Hc). simpl. rewrite <- IH by lia. f_equal.
  unfold toFenFile. destruct st as [row empty]. by rewrite Hc.
Qed.

Lemma toFenFile_rankText cs acc e :
  (let '(row, empty) := fold_left (fun st c => toFenFile [c] st 0) cs (acc, e) in
   if (empty =? 0)%nat then row else row +:+ natToString empty)
  = acc +:+ rankText cs e.
Proof.
  revert acc e. induction cs as [|[p|] cs IH]; intros acc e; simpl.
  - destruct e; [by rewrite append_nil_r|reflexivity].
  - rewrite IH. destruct e; simpl; by rewrite !append_assoc.
  - apply IH.
Qed.

Lemma toFenRank_rankText cells : length cells = 8%nat -> toFenRank cells = rankText cells 0.
Proof.
  intros Hlen. unfold toFenRank. rewrite toFenFile_fold by lia.
  rewrite drop_0, firstn_all2 by lia. apply (toFenFile_rankText cells EmptyString 0).
Qed.

Lemma rankText_no_separator cs e :
  Forall cellOk cs -> (e + length cs <= 9)%nat ->
  includes (rankText cs e) " " = false /\ includes (rankText cs e) "/" = false.
Proof.
  intros Hok. revert e. induction Hok as [|c cs Hc Hcs IH]; intros e He; simpl in *.
  - destruct (Nat.eqb_spec e 0); [done|].
    destruct (natToString_digit e) as (d & -> & _ & _ & H1 & H2); [lia|]. simpl.
    rewrite !orb_false_r. split; by apply Ascii.eqb_neq.
  - destruct c as [p|]; [|apply IH; lia].
    destruct Hc as (_ & H1 & H2). destruct (IH 0%nat) as [I1 I2]; [lia|].
    rewrite !includes_app. simpl. rewrite I1, I2, !orb_false_r.
    rewrite (proj2 (Ascii.eqb_neq p " ")), (proj2 (Ascii.eqb_neq p "/")) by done.
    rewrite !orb_false_r.
    destruct (Nat.eqb_spec e 0); [done|].
    destruct (natToString_digit e) as (d & -> & _ & _ & D1 & D2); [lia|]. simpl.
    rewrite !orb_false_r. split; by apply Ascii.eqb_neq.
Qed.

Lemma parseRow_rankText cs e pre :
  Forall cellOk cs -> (e + length cs <= 9)%nat ->
  parseRow (rankText cs e) (length pre) (pre ++ replicate (e + length cs) None)
  = pre ++ replicate e None ++ cs.
Proof.
  intros Hok. revert e pre. induction Hok as [|c cs Hc Hcs IH]; intros e pre He; simpl in *.
  - rewrite Nat.add_0_r, app_nil_r. destruct (Nat.eqb_spec e 0); [done|].
    destruct (natToString_digit e) as (d & -> & Hd & _); [lia|]. simpl. by rewrite Hd.
  - destruct c as [p|].
    + destruct Hc as (Hp & _).
      assert (Hflush : forall rest row,
                parseRow ((if (e =? 0)%nat then EmptyString else natToString e) +:+ rest)
                  (length pre) row
                = parseRow rest (length pre + e) row).
      { intros rest row. destruct (Nat.eqb_spec e 0) as [->|]; simpl.
        - by rewrite Nat.add_0_r.
        - destruct (natToString_digit e) as (d & -> & Hd & Hv & _); [lia|].
          simpl. by rewrite Hd, Hv. }
      rewrite Hflush. simpl. rewrite Hp.
      replace (arraySet None (pre ++ replicate (e + S (length cs)) None)
                 (length pre + e) (Some p))
        with ((pre ++ replicate e None ++ [Some p]) ++ replicate (0 + length cs) None).
      * replace (length pre + e + 1)%nat with (length (pre ++ replicate e None ++ [Some p])).
        -- rewrite IH by lia. simpl. by rewrite <- !app_assoc.
        -- rewrite !length_app, length_replicate. simpl. lia.
      * unfold arraySet. rewrite decide_True.
        -- rewrite (replicate_add e (S (length cs))). rewrite insert_app_r_alt by lia.
           rewrite insert_app_r_alt by (rewrite length_replicate; lia).
           rewrite length_replicate.
           replace (length pre + e - length pre - e)%nat with 0%nat by lia.
           simpl. by rewrite <- !app_assoc.
        -- rewrite length_app, length_replicate. lia.
    + replace (e + S (length cs))%nat with (S e + length cs)%nat by lia.
      rewrite IH by lia. rewrite replicate_S_end. by rewrite <- !app_assoc.
Qed.

Lemma parseRow_toFenRank row :
  length row = 8%nat -> Forall cellOk row ->
  parseRow (toFenRank row) 0 (replicate 8 None) = row.
Proof.
  intros Hlen Hok. rewrite toFenRank_rankText by done.
  pose proof (parseRow_rankText row 0 [] Hok) as H. simpl in H.
  rewrite Hlen in H. apply H. lia.
Qed.

(** ** C2: the position text read back *)

Lemma string_of_uint_no_space d : includes (NilEmpty.string_of_uint d) " " = false.
Proof. induction d; simpl; auto. Qed.

Lemma numToString_no_space n : includes (numToString (JNat n)) " " = false.
Proof.
  unfold numToString, NilZero.string_of_uint.
  destruct (N.to_uint n); try apply string_of_uint_no_space. reflexivity.
Qed.

Lemma Number_numToString n : Number (Some (numToString (JNat n))) = JNat n.
Proof.
  unfold Number, numToString. rewrite NilZero.usu.
  - by rewrite DecimalN.Unsigned.of_to.
  - intros E. pose proof (DecimalN.Unsigned.of_to n) as H. rewrite E in H.
    subst n. discriminate.
Qed.

Lemma forallChars_includes f s c :
  forallChars f s = true -> f c = false -> includes s c = false.
Proof.
  intros Hs Hc. induction s as [|d s IH]; simpl in *; [reflexivity|].
  apply andb_true_iff in Hs as [Hd Hs]. rewrite (IH Hs), orb_false_r.
  apply Ascii.eqb_neq. intros ->. congruence.
Qed.

Lemma forallChars_removeFirst f c s :
  forallChars f s = true -> forallChars f (removeFirst c s) = true.
Proof.
  induction s as [|d s IH]; simpl; [done|]. intros H.
  apply andb_true_iff in H as [Hd Hs]. destruct (Ascii.eqb d c); [done|].
  simpl. by rewrite Hd, IH.
Qed.

Lemma forallChars_removeAll f cls s :
  forallChars f s = true -> forallChars f (removeAll cls s) = true.
Proof.
  induction s as [|d s IH]; simpl; [done|]. intros H.
  apply andb_true_iff in H as [Hd Hs]. destruct (cls d); [by apply IH|].
  simpl. by rewrite Hd, IH.
Qed.

Lemma castling_field_back cs :
  forallChars (fun c => isKQ c || iskq c) cs = true ->
  includes (orDash (Some cs)) " " = false
  /\ (if bool_decide (Some (orDash (Some cs)) = Some "-") then Some ""
      else Some (orDash (Some cs))) = Some cs.
Proof.
  intros H. destruct cs as [|a t]; [by split|].
  split; [by apply (forallChars_includes _ _ _ H)|].
  simpl. rewrite bool_decide_eq_false_2; [reflexivity|].
  intros [= -> ->]. discriminate.
Qed.

Lemma to_fen_explicit r0 r1 r2 r3 r4 r5 r6 r7 c cs e n1 n2 :
  toFen {| board := [r0; r1; r2; r3; r4; r5; r6; r7]; activeColor := Some c;
           castling := Some cs; enPassant := Some e;
           halfmove := JNat n1; fullmove := JNat n2 |}
  = (toFenRank r7 +:+ String "/" (toFenRank r6 +:+ String "/" (toFenRank r5 +:+ String "/"
      (toFenRank r4 +:+ String "/" (toFenRank r3 +:+ String "/" (toFenRank r2 +:+ String "/"
        (toFenRank r1 +:+ String "/" (toFenRank r0))))))))
    +:+ String " " (c +:+ String " " (orDash (Some cs) +:+ String " " (orDash (Some e)
          +:+ String " " (numToString (JNat n1) +:+ String " " (numToString (JNat n2)))))).
Proof. reflexivity. Qed.

(** A well-formed position is read back from its own text. *)
Lemma parseFen_toFen p : wellFormed p -> parseFen (toFen p) = Ret p.
Proof.
  destruct p as [b ac cast ep hm fm].
  intros ((Hlen & Hrows) & (c & Hac & Hc) & (cs & Hcast & Hcs) & (e & Hep & He1 & He2)
          & (n1 & Hn1) & (n2 & Hn2)). simpl in *. subst ac cast ep hm fm.
  destruct b as [|r0 [|r1 [|r2 [|r3 [|r4 [|r5 [|r6 [|r7 [|r8 b]]]]]]]]]; try discriminate.
  repeat match goal with
         | H : Forall _ (_ :: _) |- _ => apply Forall_cons in H as [[? ?] H]
         end.
  rewrite to_fen_explicit.
  destruct (castling_field_back cs Hcs) as [Hcs1 Hcs2].
  assert (He3 : orDash (Some e) = e) by (by destruct e).
  rewrite He3 in *.
  pose proof (numToString_no_space n1) as Hs1.
  pose proof (numToString_no_space n2) as Hs2.
  pose proof (Number_numToString n1) as Hm1.
  pose proof (Number_numToString n2) as Hm2.
  assert (Hrank : forall r, length r = 8%nat -> Forall cellOk r ->
            exists t, toFenRank r = t /\ includes t " " = false /\ includes t "/" = false
                      /\ parseRow t 0 [None; None; None; None; None; None; None; None] = r).
  { intros r Hl Hf. exists (toFenRank r). split; [reflexivity|].
    destruct (rankText_no_separator r 0 Hf) as [S1 S2]; [simpl; lia|].
    rewrite <- (toFenRank_rankText r Hl) in S1, S2.
    repeat split; auto. by apply parseRow_toFenRank. }
  repeat match goal with
         | Hl : length ?r = 8%nat, Hf : Forall cellOk ?r |- _ =>
             let t := fresh "t" in
             destruct (Hrank r Hl Hf) as (t & -> & ? & ? & ?); clear Hl Hf
         end.
  clear Hrank.
  revert Hs1 Hs2 Hm1 Hm2 Hcs1 Hcs2.
  generalize (numToString (JNat n1)), (numToString (JNat n2)), (orDash (Some cs)).
  intros s1 s2 o Hs1 Hs2 Hm1 Hm2 Ho1 Ho2.
  unfold parseFen.
  rewrite split_cons by (repeat (rewrite includes_app; simpl);
    repeat match goal with H : includes _ " " = false |- _ => rewrite H; clear H end;
    reflexivity).
  rewrite !split_cons, (split_last _ s2) by assumption.
  cbn [lookup list_lookup default id].
  rewrite !split_cons, (split_last _ _) by assumption.
  rewrite Ho2, Hm1, Hm2. simpl.
  repeat match goal with H : parseRow _ _ _ = _ |- _ => rewrite H; clear H end.
  reflexivity.
Qed.

(** ** Legal play keeps positions well formed *)

Lemma getCell_cellOk b cx cy : boardOk b -> cellOk (getCell b cx cy).
Proof.
  intros [_ Hrows]. unfold getCell.
  destruct (arrayGet b cy) as [row|] eqn:Hrow; [|exact I].
  apply arrayGet_inv in Hrow as [_ Hrow].
  destruct (arrayGet row cx) as [c|] eqn:Hc; [|exact I]. simpl.
  apply arrayGet_inv in Hc as [_ Hc].
  rewrite Forall_lookup in Hrows. destruct (Hrows _ _ Hrow) as [_ Hcells].
  rewrite Forall_lookup in Hcells. by apply (Hcells _ _ Hc).
Qed.

Lemma setCell_boardOk b cx cy v b' :
  boardOk b -> 0 <= cx < 8 -> cellOk v -> setCell b cx cy v = Ret b' -> boardOk b'.
Proof.
  intros [Hlen Hrows] Hx Hv. unfold setCell.
  destruct (arrayGet b cy) as [row|] eqn:Hrow; [|discriminate].
  apply arrayGet_inv in Hrow as [_ Hrow].
  rewrite (proj2 (Z.leb_le 0 cx)) by lia. intros H. apply Ret_inj in H as <-.
  rewrite Forall_lookup in Hrows. destruct (Hrows _ _ Hrow) as [Hl Hcells].
  split; [by rewrite length_insert|].
  apply Forall_insert; [by apply Forall_lookup|].
  unfold arraySet. rewrite decide_True by lia.
  split; [by rewrite length_insert|]. by apply Forall_insert.
Qed.

Lemma whenM_preserves {A : Type} (P : A -> Prop) (cond : bool) (f : A -> Exn A) (a a' : A) :
  whenM cond f a = Ret a' -> P a -> (forall a'', f a = Ret a'' -> P a'') -> P a'.
Proof. unfold whenM. destruct cond; [by auto|]. by intros [= <-]. Qed.

Lemma interpChar_ok (l : list ascii) (i : Z) :
  Forall (fun c => c <> " "%char) l ->
  interpChar (arrayGet l i) <> EmptyString
  /\ includes (interpChar (arrayGet l i)) " " = false.
Proof.
  intros Hl. destruct (arrayGet l i) as [c|] eqn:Hc; [|by split].
  apply arrayGet_inv in Hc as [_ Hc]. rewrite Forall_lookup in Hl.
  specialize (Hl _ _ Hc). simpl. split; [discriminate|].
  rewrite orb_false_r. by apply Ascii.eqb_neq.
Qed.

Lemma idxToSq_ok fx fy :
  idxToSq fx fy <> EmptyString /\ includes (idxToSq fx fy) " " = false.
Proof.
  unfold idxToSq.
  destruct (interpChar_ok FILES fx) as [F1 F2];
    [repeat constructor; discriminate|].
  destruct (interpChar_ok RANKS fy) as [R1 R2];
    [repeat constructor; discriminate|].
  rewrite includes_app, F2, R2. split; [|reflexivity].
  destruct (interpChar (arrayGet FILES fx)); [done|discriminate].
Qed.

Ltac inv_bind_as H a Ha :=
  apply bind_Ret in H; destruct H as (a & Ha & H).

Lemma applyMove_wellFormed st m next :
  wellFormed st -> 0 <= x (from m) < 8 -> onBoard (x (to m)) (y (to m)) = true ->
  promotion m = None -> applyMove st m = Ret next -> wellFormed next.
Proof.
  intros (Hb & _ & (cs & Hcs & Hcsok) & _ & (n1 & Hn1) & (n2 & Hn2)) Hfx Hto Hpr H.
  apply onBoard_true in Hto as [Htx Hty].
  unfold applyMove in H. cbv zeta in H. rewrite Hpr in H.
  inv_bind_as H b1 H1. inv_bind_as H b2 H2. inv_bind_as H b3 H3. inv_bind_as H b4 H4.
  inv_bind_as H moved Hmoved.
  assert (B1 : boardOk b1) by (eapply setCell_boardOk; [exact Hb| | |exact H1]; done).
  assert (B2 : boardOk b2).
  { apply (whenM_preserves boardOk _ _ _ _ H2 B1). intros b' Hb'.
    eapply setCell_boardOk; [exact B1| | |exact Hb']; done. }
  assert (B3 : boardOk b3).
  { apply (whenM_preserves boardOk _ _ _ _ H3 B2). intros b' Hb'.
    destruct (x (to m) =? 6).
    - inv_bind_as Hb' b'' Hb''.
      eapply setCell_boardOk; [| | |exact Hb']; [|lia|by apply getCell_cellOk].
      eapply setCell_boardOk; [exact B2| | |exact Hb'']; [lia|done].
    - destruct (x (to m) =? 2); [|by apply Ret_inj in Hb' as <-].
      inv_bind_as Hb' b'' Hb''.
      eapply setCell_boardOk; [| | |exact Hb']; [|lia|by apply getCell_cellOk].
      eapply setCell_boardOk; [exact B2| | |exact Hb'']; [lia|done]. }
  assert (B4 : boardOk b4).
  { eapply setCell_boardOk; [exact B3| | |exact H4]; [lia|by apply getCell_cellOk]. }
  pose (P := fun c : option string =>
               exists s, c = Some s /\ forallChars (fun c => isKQ c || iskq c) s = true).
  assert (Hfirst : forall ch c c', P c -> castlingRemoveFirst ch c = Ret c' -> P c').
  { intros ch c c' (s & -> & Hs) Hc. apply Ret_inj in Hc as <-.
    eexists. split; [reflexivity|]. by apply forallChars_removeFirst. }
  inv_bind_as H c1 C1. inv_bind_as H c2 C2. inv_bind_as H c3 C3. inv_bind_as H c4 C4.
  inv_bind_as H c5 C5. inv_bind_as H c6 C6. inv_bind_as H c7 C7.
  assert (P1 : P c1).
  { apply (whenM_preserves P _ _ _ _ C1); [by exists cs|].
    rewrite Hcs. intros c' Hc'. apply Ret_inj in Hc' as <-.
    eexists. split; [reflexivity|]. by apply forallChars_removeAll. }
  assert (P2 : P c2) by (apply (whenM_preserves P _ _ _ _ C2 P1); eauto).
  assert (P3 : P c3) by (apply (whenM_preserves P _ _ _ _ C3 P2); eauto).
  assert (P4 : P c4) by (apply (whenM_preserves P _ _ _ _ C4 P3); eauto).
  assert (P5 : P c5) by (apply (whenM_preserves P _ _ _ _ C5 P4); eauto).
  assert (P6 : P c6) by (apply (whenM_preserves P _ _ _ _ C6 P5); eauto).
  assert (P7 : P c7) by (apply (whenM_preserves P _ _ _ _ C7 P6); eauto).
  apply Ret_inj in H as <-. unfold wellFormed.
  cbn [board activeColor castling enPassant halfmove fullmove].
  split; [exact B4|]. split.
  { destruct (isW (activeColor st)); eexists; split; reflexivity. }
  split; [exact P7|]. split.
  { destruct (pawnDouble m).
    - eexists. split; [reflexivity|]. apply idxToSq_ok.
    - exists "-". by repeat split. }
  rewrite Hn1, Hn2. split.
  - destruct (_ || _); simpl; eauto.
  - destruct (isW _); simpl; eauto.
Qed.

Lemma reachable_wellFormed p : reachable p -> wellFormed p.
Proof.
  induction 1 as [|p legal m next Hreach IH Hlegal Hin Happ].
  - unfold wellFormed, boardOk. simpl.
    split; [split; [reflexivity|]|].
    + repeat constructor; discriminate.
    + split; [by exists "w"|]. split; [by exists "KQkq"|]. split; [by exists "-"|].
      split; eauto.
  - destruct (allLegalMoves_In _ _ _ Hlegal Hin)
      as (src & gen & Hsrc & _ & _ & Hgen & Hm & _).
    destruct (generatePieceMoves_In _ _ _ _ Hgen Hm) as [(Hf & Hto & Hpr & _) _].
    apply In_allSquares in Hsrc as [Hx _]. subst src.
    by eapply applyMove_wellFormed.
Qed.

(** C2. For the starting position and every position reached from it by
    moves taken from [allLegalMoves] and applied with [applyMove], the text
    written by [toFen] is parsed back by [parseFen] into the very same
    position, equal in its six fields. *)
Theorem parseFen_toFen_reachable p : reachable p -> parseFen (toFen p) = Ret p.
Proof. intros H. apply parseFen_toFen. by apply reachable_wellFormed. Qed.

Lemma parseFen_toFen_witness :
  reachable afterE4 /\ parseFen (toFen afterE4) = Ret afterE4.
Proof.
  assert (H : reachable afterE4).
  { apply (reachable_move startPosition startLegal e2e4).
    - apply reachable_start.
    - vm_compute. reflexivity.
    - vm_compute. tauto.
    - vm_compute. reflexivity. }
  split; [exact H|]. exact (parseFen_toFen_reachable afterE4 H).
Defined.

(** ** Eight turns are enough for every ray *)

Lemma ray_leaves_board cx cy dx dy :
  dx <> 0 \/ dy <> 0 ->
  exists n, (n <= 8)%nat /\ onBoard (cx + Z.of_nat n * dx) (cy + Z.of_nat n * dy) = false.
Proof.
  intros Hd. destruct (onBoard cx cy) eqn:E.
  - apply onBoard_true in E. exists 8%nat. split; [lia|].
    destruct (onBoard _ _) eqn:E'; [|reflexivity]. apply onBoard_true in E'. lia.
  - exists 0%nat. split; [lia|]. by rewrite !Z.add_0_r.
Qed.

Lemma attackRay_fuel n fuel1 fuel2 b byColor slider queen cx cy dx dy :
  onBoard (cx + Z.of_nat n * dx) (cy + Z.of_nat n * dy) = false ->
  (n <= fuel1)%nat -> (n <= fuel2)%nat ->
  attackRay fuel1 b byColor slider queen cx cy dx dy
  = attackRay fuel2 b byColor slider queen cx cy dx dy.
Proof.
  revert fuel1 fuel2 cx cy. induction n as [|n IH]; intros fuel1 fuel2 cx cy Hoff H1 H2.
  - rewrite !Z.add_0_r in Hoff. destruct fuel1, fuel2; simpl; by rewrite ?Hoff.
  - destruct fuel1 as [|fuel1], fuel2 as [|fuel2]; try lia. simpl.
    destruct (onBoard cx cy); [|reflexivity].
    destruct (getCell b cx cy); [reflexivity|].
    apply IH; [|lia|lia]. rewrite <- Hoff. f_equal; lia.
Qed.

Lemma slideRay_fuel n fuel1 fuel2 b color target src cx cy dx dy :
  onBoard (cx + Z.of_nat n * dx) (cy + Z.of_nat n * dy) = false ->
  (n <= fuel1)%nat -> (n <= fuel2)%nat ->
  slideRay fuel1 b color target src cx cy dx dy
  = slideRay fuel2 b color target src cx cy dx dy.
Proof.
  revert fuel1 fuel2 cx cy. induction n as [|n IH]; intros fuel1 fuel2 cx cy Hoff H1 H2.
  - rewrite !Z.add_0_r in Hoff. destruct fuel1, fuel2; simpl; by rewrite ?Hoff.
  - destruct fuel1 as [|fuel1], fuel2 as [|fuel2]; try lia. simpl.
    destruct (onBoard cx cy); [|reflexivity].
    destruct (getCell b cx cy); [reflexivity|].
    f_equal. apply IH; [|lia|lia]. rewrite <- Hoff. f_equal; lia.
Qed.

(** The bound of eight turns never cuts a ray short: more fuel changes
    nothing, so the loops of [isSquareAttacked] and [slide] are modelled in
    full. *)
Lemma attackRay_fuel_enough fuel b byColor slider queen cx cy dx dy :
  dx <> 0 \/ dy <> 0 -> (8 <= fuel)%nat ->
  attackRay fuel b byColor slider queen cx cy dx dy
  = attackRay 8 b byColor slider queen cx cy dx dy.
Proof.
  intros Hd Hf. destruct (ray_leaves_board cx cy dx dy Hd) as (n & Hn & Hoff).
  apply (attackRay_fuel n); [assumption|lia|lia].
Qed.

Lemma slideRay_fuel_enough fuel b color target src cx cy dx dy :
  dx <> 0 \/ dy <> 0 -> (8 <= fuel)%nat ->
  slideRay fuel b color target src cx cy dx dy
  = slideRay 8 b color target src cx cy dx dy.
Proof.
  intros Hd Hf. destruct (ray_leaves_board cx cy dx dy Hd) as (n & Hn & Hoff).
  apply (slideRay_fuel n); [assumption|lia|lia].
Qed.

(** * Further properties *)

Import MoreFacts.

(** ** Square names *)

Lemma isFileChar_In f : isFileChar f = true -> In f FILES.
Proof.
  destruct f as [[] [] [] [] [] [] [] []]; intros H; try discriminate H;
    simpl; tauto.
Qed.

Lemma isRankChar_In r : isRankChar r = true -> In r RANKS.
Proof.
  destruct r as [[] [] [] [] [] [] [] []]; intros H; try discriminate H;
    simpl; tauto.
Qed.

(** X1. Square names and coordinates are inverse of each other: on the board
    [sqToIdx (idxToSq x y)] gives back [(x, y)], and a two-character name
    made of a file letter a-h and a rank digit 1-8 is given back by
    [idxToSq] from its coordinates, which are on the board. *)
Theorem square_names_round_trip :
  (forall fx fy, onBoard fx fy = true -> sqToIdx (idxToSq fx fy) = {| x := fx; y := fy |})
  /\ (forall f r, isFileChar f = true -> isRankChar r = true ->
      let sq := sqToIdx (String f (String r EmptyString)) in
      onBoard (x sq) (y sq) = true
      /\ idxToSq (x sq) (y sq) = String f (String r EmptyString)).
Proof.
  split.
  - intros fx fy H. apply onBoard_true in H as [Hx Hy].
    assert (Ex : fx = 0 \/ fx = 1 \/ fx = 2 \/ fx = 3 \/ fx = 4 \/ fx = 5 \/ fx = 6 \/ fx = 7)
      by lia.
    assert (Ey : fy = 0 \/ fy = 1 \/ fy = 2 \/ fy = 3 \/ fy = 4 \/ fy = 5 \/ fy = 6 \/ fy = 7)
      by lia.
    clear Hx Hy.
    repeat (destruct Ex as [->|Ex]); try subst fx;
      repeat (destruct Ey as [->|Ey]); try subst fy; reflexivity.
  - intros f r Hf Hr. apply isFileChar_In in Hf. apply isRankChar_In in Hr.
    simpl in Hf, Hr.
    repeat (destruct Hf as [<-|Hf]); try destruct Hf;
      repeat (destruct Hr as [<-|Hr]); try destruct Hr; split; reflexivity.
Qed.

(** ** Check and mate decorations *)

Lemma removeAll_app f s t : removeAll f (s +:+ t) = removeAll f s +:+ removeAll f t.
Proof.
  induction s as [|c s IH]; simpl; [reflexivity|].
  destruct (f c); simpl; by rewrite IH.
Qed.

Lemma removeAll_all f s : forallChars f s = true -> removeAll f s = EmptyString.
Proof.
  induction s as [|c s IH]; simpl; [reflexivity|].
  intros H. apply andb_true_iff in H as [Hc Hs]. rewrite Hc. by apply IH.
Qed.

(** X2. Characters [+] and [#] appended to a token change nothing: the
    resolver gives the same answer with and without them, so a wrong check or
    mate annotation is neither rejected nor trusted. *)
Theorem check_mate_decoration_is_ignored fen san deco :
  forallChars isCheckMark deco = true ->
  validateAndApplySanMove fen (san +:+ deco) = validateAndApplySanMove fen san.
Proof.
  intros Hd.
  assert (Hp : forall st, parseSan st (san +:+ deco) = parseSan st san).
  { intros st. unfold parseSan.
    by rewrite removeAll_app, (removeAll_all _ deco Hd), append_nil_r. }
  unfold validateAndApplySanMove. destruct (parseFen fen) as [st|]; [|reflexivity].
  simpl. by rewrite Hp.
Qed.

Lemma check_mate_decoration_witness :
  validateAndApplySanMove START_FEN ("e4" +:+ "#+")
  = validateAndApplySanMove START_FEN "e4".
Proof. apply (check_mate_decoration_is_ignored START_FEN "e4" "#+"). reflexivity. Defined.

(** ** Castling rights *)

Lemma includes_removeFirst c s ch :
  includes (removeFirst c s) ch = true -> includes s ch = true.
Proof.
  induction s as [|d s IH]; simpl; [done|].
  destruct (Ascii.eqb d c); simpl.
  - intros ->. apply orb_true_r.
  - intros H. apply orb_true_iff in H as [H|H]; [by rewrite H|].
    rewrite (IH H). apply orb_true_r.
Qed.

Lemma includes_removeAll cls s ch :
  includes (removeAll cls s) ch = true -> includes s ch = true /\ cls ch = false.
Proof.
  induction s as [|d s IH]; simpl; [done|].
  destruct (cls d) eqn:Hd; simpl.
  - intros H. destruct (IH H) as [H1 H2]. rewrite H1. split; [apply orb_true_r|done].
  - intros H. apply orb_true_iff in H as [H|H].
    + rewrite H. split; [done|]. apply Ascii.eqb_eq in H. by subst ch.
    + destruct (IH H) as [H1 H2]. rewrite H1. split; [apply orb_true_r|done].
Qed.

(** The castling field after [applyMove], traced through its seven updates:
    nothing is added, and a king move removes both letters of the mover. *)
Lemma applyMove_castling st m next :
  applyMove st m = Ret next ->
  exists pc,
    getCell (board st) (x (from m)) (y (from m)) = Some pc
    /\ forall cs', castling next = Some cs' ->
         exists cs,
           castling st = Some cs
           /\ (forall ch, includes cs' ch = true -> includes cs ch = true)
           /\ (toUpperCase pc = "K"%char ->
               forall ch, includes cs' ch = true ->
                 (if isW (activeColor st) then isKQ else iskq) ch = false).
Proof.
  intros H. unfold applyMove in H. cbv zeta in H.
  inv_bind_as H b1 H1. inv_bind_as H b2 H2. inv_bind_as H b3 H3. inv_bind_as H b4 H4.
  inv_bind_as H moved Hmoved.
  destruct (getCell (board st) (x (from m)) (y (from m))) as [pc|]; [|discriminate].
  apply Ret_inj in Hmoved as <-. exists pc. split; [reflexivity|].
  inv_bind_as H c1 C1. inv_bind_as H c2 C2. inv_bind_as H c3 C3. inv_bind_as H c4 C4.
  inv_bind_as H c5 C5. inv_bind_as H c6 C6. inv_bind_as H c7 C7.
  apply Ret_inj in H as <-. cbn [castling].
  pose (P := fun c : option string =>
               forall cs', c = Some cs' ->
                 exists cs,
                   castling st = Some cs
                   /\ (forall ch, includes cs' ch = true -> includes cs ch = true)
                   /\ (toUpperCase pc = "K"%char ->
                       forall ch, includes cs' ch = true ->
                         (if isW (activeColor st) then isKQ else iskq) ch = false)).
  assert (Hfirst : forall ch c c', P c -> castlingRemoveFirst ch c = Ret c' -> P c').
  { intros ch [s|] c' Hc Hr; [|discriminate]. apply Ret_inj in Hr as <-.
    intros cs' [= <-]. destruct (Hc s eq_refl) as (cs & E & Hsub & Hk).
    exists cs. split; [done|]. split.
    - intros c Hin. apply Hsub. by eapply includes_removeFirst.
    - intros Hp c Hin. apply (Hk Hp). by eapply includes_removeFirst. }
  assert (P1 : P c1).
  { unfold whenM in C1.
    destruct (bool_decide (toUpperCase pc = "K"%char)) eqn:Hk;
      [|apply bool_decide_eq_false in Hk].
    - destruct (castling st) as [cs|] eqn:Ecs; simpl in C1; [|discriminate].
      apply Ret_inj in C1 as <-.
      intros cs' [= <-]. exists cs. split; [done|]. split.
      + intros ch Hin. by apply includes_removeAll in Hin as [? _].
      + intros _ ch Hin. by apply includes_removeAll in Hin as [_ ?].
    - apply Ret_inj in C1 as <-. intros cs' E. exists cs'. split; [done|].
      split; [done|]. intros Hp. by destruct Hk. }
  assert (P2 : P c2) by (apply (whenM_preserves P _ _ _ _ C2 P1); eauto).
  assert (P3 : P c3) by (apply (whenM_preserves P _ _ _ _ C3 P2); eauto).
  assert (P4 : P c4) by (apply (whenM_preserves P _ _ _ _ C4 P3); eauto).
  assert (P5 : P c5) by (apply (whenM_preserves P _ _ _ _ C5 P4); eauto).
  assert (P6 : P c6) by (apply (whenM_preserves P _ _ _ _ C6 P5); eauto).
  apply (whenM_preserves P _ _ _ _ C7 P6); eauto.
Qed.

Lemma applied_castling st later cs' ch :
  applied st later -> castling later = Some cs' -> includes cs' ch = true ->
  exists cs, castling st = Some cs /\ includes cs ch = true.
Proof.
  intros Happ. revert cs'. induction Happ as [st|st m mid later Hm Hrest IH]; intros cs' Hc Hin.
  - eauto.
  - destruct (IH _ Hc Hin) as (cmid & Hmid & Hin').
    destruct (applyMove_castling _ _ _ Hm) as (pc & _ & Hcast).
    destruct (Hcast _ Hmid) as (cs & Hcs & Hsub & _). eauto.
Qed.

(** X3. Castling rights are never gained: after any sequence of applied
    moves, every letter of the castling field was already in the field of
    the position the sequence started from. *)
Theorem castling_rights_never_grow st later cs' ch :
  applied st later -> castling later = Some cs' -> includes cs' ch = true ->
  exists cs, castling st = Some cs /\ includes cs ch = true.
Proof. apply applied_castling. Qed.

Lemma castling_rights_witness :
  exists cs, castling startPosition = Some cs /\ includes cs "K" = true.
Proof.
  apply (castling_rights_never_grow startPosition afterE4 "KQkq" "K").
  - apply (applied_step startPosition e2e4 afterE4 afterE4); [|apply applied_refl].
    vm_compute. reflexivity.
  - reflexivity.
  - reflexivity.
Defined.

(** Where a castle move comes from: the king branch, with the castling letter
    of the king's colour in the castling field. *)
Lemma slideRay_castle fuel b color target src cx cy dx dy m :
  In m (slideRay fuel b color target src cx cy dx dy) -> castle m = None.
Proof.
  revert cx cy. induction fuel as [|fuel IH]; intros cx cy; simpl; [tauto|].
  destruct (onBoard cx cy); [|simpl; tauto].
  destruct (getCell b cx cy).
  - case_bool_decide; [|simpl; tauto]. intros Hin. by apply addMove_In in Hin as (_ & _ & _ & _ & ? & _).
  - intros Hin. apply in_app_or in Hin as [Hin|Hin]; [|by eapply IH].
    by apply addMove_In in Hin as (_ & _ & _ & _ & ? & _).
Qed.

Lemma pawnMoves_castle state color target src m :
  In m (pawnMoves state color target src) -> castle m = None.
Proof.
  assert (Hadd : forall tx ty fl, In m (addMove (board state) color src tx ty fl) ->
            castle m = None).
  { intros tx ty fl Hin. by apply addMove_In in Hin as (_ & _ & _ & _ & ? & _). }
  unfold pawnMoves. intros Hin. apply in_app_or in Hin as [Hin|Hin].
  - destruct (_ && _); [|destruct Hin].
    apply in_app_or in Hin as [Hin|Hin]; [eapply Hadd; eauto|].
    destruct (_ && _); [|destruct Hin]. eapply Hadd; eauto.
  - apply in_flat_map in Hin as (dx & _ & Hin).
    destruct (negb _); [destruct Hin|].
    apply in_app_or in Hin as [Hin|Hin].
    + destruct (_ && _); [|destruct Hin]. eapply Hadd; eauto.
    + destruct (match enPassant state with Some _ => _ | None => _ end); [|destruct Hin].
      destruct (_ && _); [|destruct Hin]. eapply Hadd; eauto.
Qed.

Lemma kingMoves_castle state color target src gen m :
  kingMoves state color target src = Ret gen -> In m gen -> castle m <> None ->
  exists cs fl,
    castling state = Some cs /\ includes cs fl = true
    /\ (if isW color then isKQ else iskq) fl = true.
Proof.
  unfold kingMoves. intros H Hin Hc.
  assert (Hsteps : In m (flat_map (fun d => addMove (board state) color src
                                     (x src + d.1) (y src + d.2) NoFlags) kingSteps) ->
            False).
  { intros Hs. apply in_flat_map in Hs as (d & _ & Hs).
    by apply addMove_In in Hs as (_ & _ & _ & _ & ? & _). }
  destruct (negb (inCheck state color)); [|apply Ret_inj in H as <-; by destruct Hsteps].
  destruct (castling state) as [cs|]; [|discriminate]. simpl in H.
  apply Ret_inj in H as <-.
  apply in_app_or in Hin as [Hin|Hin]; [by destruct Hsteps|].
  apply in_app_or in Hin as [Hin|Hin].
  - destruct (includes cs _) eqn:Hinc; [|destruct Hin].
    exists cs. eexists. split; [reflexivity|]. split; [exact Hinc|]. by destruct (isW color).
  - destruct (includes cs (if isW color then "Q"%char else "q"%char)) eqn:Hinc;
      [|destruct Hin].
    exists cs. eexists. split; [reflexivity|]. split; [exact Hinc|]. by destruct (isW color).
Qed.

Lemma generatePieceMoves_castle state src gen m :
  generatePieceMoves state src = Ret gen -> In m gen -> castle m <> None ->
  exists cs fl,
    castling state = Some cs /\ includes cs fl = true
    /\ (if isW (pieceColor (getCell (board state) (x src) (y src))) then isKQ else iskq) fl
       = true.
Proof.
  unfold generatePieceMoves.
  destruct (getCell (board state) (x src) (y src)) as [piece|]; [|by intros [= <-] []].
  cbv zeta. generalize (pieceColor (Some piece)). intros color.
  destruct (negb _); [by intros [= <-] []|]. intros H Hin Hc.
  case_bool_decide.
  { apply Ret_inj in H as <-. by apply pawnMoves_castle in Hin. }
  case_bool_decide.
  { apply Ret_inj in H as <-. apply in_flat_map in Hin as (d & _ & Hin).
    by apply addMove_In in Hin as (_ & _ & _ & _ & ? & _). }
  assert (Hslide : forall dirs,
            In m (slide (board state) color (if isW color then Some "b" else Some "w") src dirs) ->
            False).
  { intros dirs Hs. unfold slide in Hs. apply in_flat_map in Hs as (d & _ & Hs).
    by apply slideRay_castle in Hs. }
  inv_bind H. apply Ret_inj in H as <-.
  apply in_app_or in Hin as [Hin|Hin].
  { case_bool_decide; [by destruct (Hslide _ Hin)|destruct Hin]. }
  apply in_app_or in Hin as [Hin|Hin].
  { case_bool_decide; [by destruct (Hslide _ Hin)|destruct Hin]. }
  apply in_app_or in Hin as [Hin|Hin].
  { case_bool_decide; [by destruct (Hslide _ Hin)|destruct Hin]. }
  case_bool_decide; [by eapply kingMoves_castle|].
  apply Ret_inj in Hv as <-. destruct Hin.
Qed.

(** X4. Once the king of the side to move has been moved, that side never
    castles again: in every position reached afterwards the generator returns
    no castle move for a piece of that colour. *)
Theorem king_move_ends_castling st m mid later pc src gen m' :
  applyMove st m = Ret mid ->
  getCell (board st) (x (from m)) (y (from m)) = Some pc ->
  toUpperCase pc = "K"%char ->
  applied mid later ->
  generatePieceMoves later src = Ret gen -> In m' gen ->
  isW (pieceColor (getCell (board later) (x src) (y src))) = isW (activeColor st) ->
  castle m' = None.
Proof.
  intros Hm Hpc Hk Happ Hgen Hin Hcol.
  destruct (castle m') as [side|] eqn:Hc; [exfalso|reflexivity].
  destruct (generatePieceMoves_castle _ _ _ _ Hgen Hin) as (cs' & fl & Hcs' & Hinc & Hfl);
    [congruence|].
  destruct (applied_castling _ _ _ _ Happ Hcs' Hinc) as (cmid & Hmid & Hinc').
  destruct (applyMove_castling _ _ _ Hm) as (pc' & Hpc' & Hcast).
  rewrite Hpc in Hpc'. injection Hpc' as <-.
  destruct (Hcast _ Hmid) as (cs & _ & _ & Hclear).
  specialize (Hclear Hk fl Hinc'). rewrite Hcol in Hfl. congruence.
Qed.

Import MoreSamples.

Lemma king_move_ends_castling_witness :
  In (plainMove 4 1 4 2) afterKe7Moves /\ castle (plainMove 4 1 4 2) = None.
Proof.
  assert (Hin : In (plainMove 4 1 4 2) afterKe7Moves) by (vm_compute; tauto).
  split; [exact Hin|].
  apply (king_move_ends_castling castlePosition (plainMove 4 0 4 1) afterKe2 afterKe7
           "K"%char {| x := 4; y := 1 |} afterKe7Moves (plainMove 4 1 4 2)).
  - vm_compute. reflexivity.
  - reflexivity.
  - reflexivity.
  - apply (applied_step afterKe2 (plainMove 4 7 4 6) afterKe7 afterKe7); [|apply applied_refl].
    vm_compute. reflexivity.
  - vm_compute. reflexivity.
  - exact Hin.
  - reflexivity.
Defined.

(** ** The shape of legal moves *)

(** Every generated move was pushed by [addMove], or is a castle move onto an
    empty square. *)
Lemma slideRay_addMove fuel b color target src cx cy dx dy m :
  In m (slideRay fuel b color target src cx cy dx dy) ->
  exists tx ty fl, In m (addMove b color src tx ty fl).
Proof.
  revert cx cy. induction fuel as [|fuel IH]; intros cx cy; simpl; [tauto|].
  destruct (onBoard cx cy); [|simpl; tauto].
  destruct (getCell b cx cy).
  - case_bool_decide; [eauto|simpl; tauto].
  - intros Hin. apply in_app_or in Hin as [Hin|Hin]; [eauto|by eapply IH].
Qed.

Lemma pawnMoves_addMove state color target src m :
  In m (pawnMoves state color target src) ->
  exists tx ty fl, In m (addMove (board state) color src tx ty fl).
Proof.
  unfold pawnMoves. intros Hin. apply in_app_or in Hin as [Hin|Hin].
  - destruct (_ && _); [|destruct Hin].
    apply in_app_or in Hin as [Hin|Hin]; [eauto|].
    destruct (_ && _); [eauto|destruct Hin].
  - apply in_flat_map in Hin as (dx & _ & Hin).
    destruct (negb _); [destruct Hin|].
    apply in_app_or in Hin as [Hin|Hin].
    + destruct (_ && _); [eauto|destruct Hin].
    + destruct (match enPassant state with Some _ => _ | None => _ end); [|destruct Hin].
      destruct (_ && _); [eauto|destruct Hin].
Qed.

Lemma kingMoves_cases state color target src gen m :
  kingMoves state color target src = Ret gen -> In m gen ->
  (exists tx ty fl, In m (addMove (board state) color src tx ty fl))
  \/ (from m = src /\ promotion m = None
      /\ getCell (board state) (x (to m)) (y (to m)) = None).
Proof.
  unfold kingMoves. intros H Hin.
  assert (Hsteps : In m (flat_map (fun d => addMove (board state) color src
                                     (x src + d.1) (y src + d.2) NoFlags) kingSteps) ->
            exists tx ty fl, In m (addMove (board state) color src tx ty fl)).
  { intros Hs. apply in_flat_map in Hs as (d & _ & Hs). eauto. }
  destruct (negb (inCheck state color)); [|apply Ret_inj in H as <-; auto].
  inv_bind H. inv_bind H. apply Ret_inj in H as <-.
  apply in_app_or in Hin as [Hin|Hin]; [auto|]. right.
  apply in_app_or in Hin as [Hin|Hin].
  - destruct (_ && _) eqn:E; [|destruct Hin]. destruct Hin as [<-|[]].
    rewrite !andb_true_iff in E. destruct E as [[[[_ E5] E6] _] _].
    apply bool_decide_eq_true in E6. simpl. auto.
  - destruct (_ && _) eqn:E; [|destruct Hin]. destruct Hin as [<-|[]].
    rewrite !andb_true_iff in E. destruct E as [[[[[_ E1] E2] E3] _] _].
    apply bool_decide_eq_true in E2. simpl. auto.
Qed.

Lemma generatePieceMoves_cases state src gen m :
  generatePieceMoves state src = Ret gen -> In m gen ->
  pieceColor (getCell (board state) (x src) (y src)) = activeColor state
  /\ ((exists tx ty fl, In m (addMove (board state) (activeColor state) src tx ty fl))
      \/ (from m = src /\ promotion m = None
          /\ getCell (board state) (x (to m)) (y (to m)) = None)).
Proof.
  unfold generatePieceMoves.
  destruct (getCell (board state) (x src) (y src)) as [piece|]; [|by intros [= <-] []].
  cbv zeta. generalize (pieceColor (Some piece)). intros color.
  case_bool_decide as Hc; cbn [negb]; [|by intros [= <-] []].
  subst color. intros H Hin. split; [reflexivity|].
  case_bool_decide.
  { apply Ret_inj in H as <-. left. by eapply pawnMoves_addMove. }
  case_bool_decide.
  { apply Ret_inj in H as <-. apply in_flat_map in Hin as (d & _ & Hin). eauto. }
  assert (Hslide : forall target dirs,
            In m (slide (board state) (activeColor state) target src dirs) ->
            exists tx ty fl, In m (addMove (board state) (activeColor state) src tx ty fl)).
  { intros target dirs Hs. unfold slide in Hs. apply in_flat_map in Hs as (d & _ & Hs).
    by eapply slideRay_addMove. }
  inv_bind H. apply Ret_inj in H as <-.
  apply in_app_or in Hin as [Hin|Hin].
  { case_bool_decide; [left; by eapply Hslide|destruct Hin]. }
  apply in_app_or in Hin as [Hin|Hin].
  { case_bool_decide; [left; by eapply Hslide|destruct Hin]. }
  apply in_app_or in Hin as [Hin|Hin].
  { case_bool_decide; [left; by eapply Hslide|destruct Hin]. }
  case_bool_decide; [by eapply kingMoves_cases|].
  apply Ret_inj in Hv as <-. destruct Hin.
Qed.

Lemma addMove_dest b color src tx ty fl m :
  In m (addMove b color src tx ty fl) -> color <> None ->
  pieceColor (getCell b (x (to m)) (y (to m))) <> color.
Proof.
  unfold addMove. destruct (onBoard tx ty); simpl; [|tauto].
  destruct (_ && _) eqn:E; simpl; [tauto|].
  intros [<-|[]] Hcol. simpl. apply andb_false_iff in E as [E|E].
  - apply bool_decide_eq_false in E.
    destruct (getCell b tx ty); [by destruct E|]. simpl. congruence.
  - by apply bool_decide_eq_false in E.
Qed.

(** X5. Every legal move starts on a square of the board that holds a piece
    of the side to move, lands on a square of the board that does not hold
    one, and carries no promotion: the move list never captures an own piece
    and never promotes by itself. *)
Theorem legal_moves_shape st legal m :
  allLegalMoves st = Ret legal -> In m legal ->
  onBoard (x (from m)) (y (from m)) = true
  /\ getCell (board st) (x (from m)) (y (from m)) <> None
  /\ pieceColor (getCell (board st) (x (from m)) (y (from m))) = activeColor st
  /\ onBoard (x (to m)) (y (to m)) = true
  /\ pieceColor (getCell (board st) (x (to m)) (y (to m))) <> activeColor st
  /\ promotion m = None.
Proof.
  intros Hl Hin.
  destruct (allLegalMoves_In _ _ _ Hl Hin) as (src & gen & Hsrc & Hp & Hc & Hgen & Hm & _).
  destruct (generatePieceMoves_In _ _ _ _ Hgen Hm) as [(Hf & Hto & Hpr & _) _].
  destruct (generatePieceMoves_cases _ _ _ _ Hgen Hm) as [_ Hcases].
  apply In_allSquares in Hsrc. subst src.
  split; [by apply onBoard_true|]. do 3 (split; [assumption|]). split; [|assumption].
  assert (Hcol : activeColor st <> None).
  { rewrite <- Hc. by destruct (getCell (board st) (x (from m)) (y (from m))). }
  destruct Hcases as [(tx & ty & fl & Hadd)|(_ & _ & Hempty)].
  - by apply (addMove_dest _ _ _ _ _ _ _ Hadd).
  - rewrite Hempty. simpl. congruence.
Qed.

Lemma legal_moves_shape_witness :
  allLegalMoves startPosition = Ret startLegal /\ In e2e4 startLegal
  /\ pieceColor (getCell (board startPosition) 4 1) = Some "w"
  /\ pieceColor (getCell (board startPosition) 4 3) <> Some "w".
Proof.
  assert (Hl : allLegalMoves startPosition = Ret startLegal) by (vm_compute; reflexivity).
  assert (Hin : In e2e4 startLegal) by (vm_compute; tauto).
  destruct (legal_moves_shape startPosition startLegal e2e4 Hl Hin)
    as (_ & _ & H1 & _ & H2 & _).
  auto.
Defined.

(** ** A side to move that is no colour *)

Lemma forEachM_nil {A B : Type} (f : A -> Exn (list B)) (l : list A) :
  (forall a, In a l -> f a = Ret []) -> forEachM f l = Ret [].
Proof.
  induction l as [|a l IH]; intros H; simpl; [reflexivity|].
  rewrite (H a (or_introl eq_refl)), IH; [reflexivity|]. intros; apply H; by right.
Qed.

Lemma candidatesOf_nil st parsed : candidatesOf st parsed [] = [].
Proof.
  destruct parsed as [side|pm]; simpl; [reflexivity|].
  destruct (disFile pm), (disRank pm), (pawnFromFile pm), (sanPromotion pm); reflexivity.
Qed.

(** X6. When the side-to-move field is neither [w] nor [b] (or is absent), no
    piece belongs to the side to move: [allLegalMoves] returns the empty list
    and every token is answered "Invalid SAN format" or "Illegal move", never
    applied. *)
Theorem no_colour_to_move_no_move fen st :
  parseFen fen = Ret st ->
  activeColor st <> Some "w" -> activeColor st <> Some "b" ->
  allLegalMoves st = Ret []
  /\ forall san,
       validateAndApplySanMove fen san = Ret (SanError "Invalid SAN format")
       \/ validateAndApplySanMove fen san = Ret (SanError "Illegal move").
Proof.
  intros Hfen Hw Hb.
  assert (Hl : allLegalMoves st = Ret []).
  { apply forEachM_nil. intros src _. cbv zeta.
    destruct (getCell (board st) (x src) (y src)) as [p|]; [|reflexivity].
    rewrite bool_decide_eq_false_2 by discriminate.
    rewrite bool_decide_eq_false_2; [reflexivity|].
    simpl. destruct (isUpper p); congruence. }
  split; [exact Hl|]. intros san. unfold validateAndApplySanMove.
  rewrite Hfen, bind_Ret_l. destruct (parseSan st san) as [parsed|]; [|by left].
  right. rewrite Hl, bind_Ret_l. cbv zeta. by rewrite candidatesOf_nil.
Qed.

Lemma no_colour_to_move_witness :
  allLegalMoves noSidePosition = Ret []
  /\ validateAndApplySanMove noSideFen "Ra2" = Ret (SanError "Illegal move").
Proof.
  destruct (no_colour_to_move_no_move noSideFen noSidePosition) as [Hl Hv].
  - vm_compute. reflexivity.
  - discriminate.
  - discriminate.
  - split; [exact Hl|]. destruct (Hv "Ra2") as [H|H]; [|exact H].
    vm_compute in H. discriminate H.
Defined.

(** ** The status of an accepted move *)

(** X7. When a token is accepted, the returned text is that of the position
    after the move, [check] tells whether its side to move is in check, and
    the game-over flags follow the legal moves of that side: [checkmate] is
    raised exactly when it is in check without a legal move, [stalemate]
    exactly when it is not in check without a legal move. *)
Theorem accepted_move_status fen san f chk cm sm :
  validateAndApplySanMove fen san = Ret (SanOk f chk cm sm) ->
  exists st m next oppLegal,
    parseFen fen = Ret st /\ applyMove st m = Ret next /\ f = toFen next
    /\ allLegalMoves next = Ret oppLegal
    /\ chk = inCheck next (activeColor next)
    /\ (cm = true <-> chk = true /\ oppLegal = [])
    /\ (sm = true <-> chk = false /\ oppLegal = []).
Proof.
  unfold validateAndApplySanMove. intros H. inv_bind_as H st Hst.
  destruct (parseSan st san) as [parsed|]; [|discriminate].
  inv_bind_as H legal Hlegal. cbv zeta in H.
  destruct (negb _); [discriminate|].
  destruct (candidatesOf st parsed legal !! 0%nat) as [m|]; [|discriminate].
  inv_bind_as H next Hnext. inv_bind_as H oppLegal Hopp.
  injection H as <- <- <- <-.
  exists st, m, next, oppLegal. do 5 (split; [reflexivity || assumption|]).
  destruct (inCheck next (activeColor next)), oppLegal; simpl; split; split;
    intros; try tauto; try discriminate; destruct H; discriminate.
Qed.

Lemma accepted_move_status_witness :
  exists st m next oppLegal,
    parseFen fen_g4 = Ret st /\ applyMove st m = Ret next /\ fen_Qh4 = toFen next
    /\ allLegalMoves next = Ret oppLegal
    /\ true = inCheck next (activeColor next)
    /\ (true = true <-> true = true /\ oppLegal = [])
    /\ (false = true <-> true = false /\ oppLegal = []).
Proof.
  apply (accepted_move_status fen_g4 "Qh4" fen_Qh4 true true false).
  vm_compute. reflexivity.
Defined.

(** ** Finishing a game *)

Section Finishing.
Import Games GameOps.
Variable computeEloDelta : Z -> Z -> Score -> Z.

(** The ratings after [_finalizeRatingsWithClient]. *)
Lemma finalize_ratings (db : Db) (game : Game) (isDraw : bool) :
  let rw := default 1200 (ratings db !! white_user_id game) in
  let rb := default 1200 (ratings db !! black_user_id game) in
  let score := if isDraw then Draw
               else if bool_decide (winner_user_id game = Some (white_user_id game))
                    then Win else Loss in
  let d := computeEloDelta rw rb score in
  let db' := finalizeRatingsWithClient computeEloDelta db game isDraw in
  ratings db' !! black_user_id game = Some (Z.max 0 (rb + - d))
  /\ (white_user_id game <> black_user_id game ->
      ratings db' !! white_user_id game = Some (Z.max 0 (rw + d)))
  /\ (forall u, u <> white_user_id game -> u <> black_user_id game ->
      ratings db' !! u = ratings db !! u)
  /\ games db' = games db /\ game_moves db' = game_moves db
  /\ matchmaking_queue db' = matchmaking_queue db.
Proof.
  cbv zeta. unfold finalizeRatingsWithClient. cbn [ratings games game_moves matchmaking_queue].
  split; [apply lookup_insert_eq|]. split.
  - intros Hne. rewrite lookup_insert_ne by congruence. apply lookup_insert_eq.
  - split; [|done]. intros u Hw Hb. by rewrite !lookup_insert_ne by congruence.
Qed.

(** X8. After the ratings of a finished game are finalized, both players
    have a rating row that is not negative, the rows of all other users are
    as before, and when nothing was clamped at zero the two players' ratings
    add up to what they added up to before (1200 standing for a missing
    row). *)
Theorem finalized_ratings_are_clamped_and_balanced (db : Db) (game : Game) (isDraw : bool) :
  let db' := finalizeRatingsWithClient computeEloDelta db game isDraw in
  let rw := default 1200 (ratings db !! white_user_id game) in
  let rb := default 1200 (ratings db !! black_user_id game) in
  (exists rw' rb',
     ratings db' !! white_user_id game = Some rw'
     /\ ratings db' !! black_user_id game = Some rb'
     /\ 0 <= rw' /\ 0 <= rb'
     /\ (white_user_id game <> black_user_id game ->
         0 < rw' -> 0 < rb' -> rw' + rb' = rw + rb))
  /\ (forall u, u <> white_user_id game -> u <> black_user_id game ->
      ratings db' !! u = ratings db !! u).
Proof.
  cbv zeta. destruct (finalize_ratings db game isDraw) as (Hb & Hw & Hother & _).
  cbv zeta in Hb, Hw, Hother. split; [|exact Hother].
  destruct (decide (white_user_id game = black_user_id game)) as [E|Hne].
  - rewrite E in *. eexists _, _. split; [exact Hb|]. split; [exact Hb|].
    split; [lia|]. split; [lia|]. intros Hne. by destruct Hne.
  - eexists _, _. split; [by apply Hw|]. split; [exact Hb|].
    split; [lia|]. split; [lia|]. intros _ H1 H2. lia.
Qed.

Lemma finishGame_active db gid game winner isDraw reason :
  games db !! gid = Some game -> status game = Active ->
  let updated := {| white_user_id := white_user_id game;
                    black_user_id := black_user_id game; status := Finished;
                    moves := moves game; current_fen := current_fen game;
                    winner_user_id := winner |} in
  exists db',
    finishGame computeEloDelta db gid winner isDraw reason
      = (ReplyGame updated, db',
         [ {| gf_gameId := gid; gf_reason := reason; gf_winnerUserId := winner |} ])
    /\ games db' = <[gid := updated]> (games db)
    /\ game_moves db' = game_moves db
    /\ matchmaking_queue db' = matchmaking_queue db.
Proof.
  intros Hg Hs. cbv zeta. unfold finishGame. rewrite Hg, Hs.
  rewrite bool_decide_eq_true_2 by done. eexists. split; [reflexivity|]. by repeat split.
Qed.

(** X9. A participant who resigns an active game finishes it with the other
    participant as winner; [draw] called by a participant finishes it with no
    winner, without asking the other participant.  The position text and the
    move list of the game, the other games, the move table and the queue are
    left as they were. *)
Theorem resign_and_draw_finish_the_game db gid game uid :
  games db !! gid = Some game -> status game = Active ->
  uid = white_user_id game \/ uid = black_user_id game ->
  let finishedWith winner :=
    {| white_user_id := white_user_id game; black_user_id := black_user_id game;
       status := Finished; moves := moves game; current_fen := current_fen game;
       winner_user_id := winner |} in
  let other := if bool_decide (white_user_id game = uid)
               then black_user_id game else white_user_id game in
  (exists db',
     resign computeEloDelta db gid uid
       = (ReplyGame (finishedWith (Some other)), db',
          [ {| gf_gameId := gid; gf_reason := "resign"; gf_winnerUserId := Some other |} ])
     /\ games db' = <[gid := finishedWith (Some other)]> (games db)
     /\ game_moves db' = game_moves db
     /\ matchmaking_queue db' = matchmaking_queue db)
  /\ (exists db',
        draw computeEloDelta db gid uid
          = (ReplyGame (finishedWith None), db',
             [ {| gf_gameId := gid; gf_reason := "draw"; gf_winnerUserId := None |} ])
        /\ games db' = <[gid := finishedWith None]> (games db)
        /\ game_moves db' = game_moves db
        /\ matchmaking_queue db' = matchmaking_queue db).
Proof.
  intros Hg Hs Hpart. cbv zeta.
  assert (Hnot : notAPlayer game uid = false).
  { unfold notAPlayer. destruct Hpart as [->| ->].
    - by rewrite bool_decide_eq_true_2.
    - rewrite (bool_decide_eq_true_2 (black_user_id game = _)) by done.
      apply andb_false_r. }
  split.
  - unfold resign. rewrite Hg, Hs, Hnot. simpl. by apply finishGame_active.
  - unfold draw. rewrite Hg, Hs, Hnot. simpl. by apply finishGame_active.
Qed.

(** X10. A finished game is closed for good: [submitMove], [resign] and
    [draw] all answer 409 "Game not active" and return the database
    unchanged, with nothing broadcast. *)
Theorem finished_game_is_closed db gid game uid sanText :
  games db !! gid = Some game -> status game = Finished ->
  submitMove computeEloDelta db gid uid sanText = (ErrorJson 409 "Game not active", db, [])
  /\ resign computeEloDelta db gid uid = (ReplyError 409 "Game not active", db, [])
  /\ draw computeEloDelta db gid uid = (ReplyError 409 "Game not active", db, []).
Proof.
  intros Hg Hs. unfold submitMove, resign, draw. rewrite Hg, Hs. by repeat split.
Qed.

End Finishing.

Import Games GameOps SessionFacts.

Lemma resign_and_draw_witness :
  (exists db',
     resign flatElo sampleDb "g1" "alice"
       = (ReplyGame {| white_user_id := "alice"; black_user_id := "bob";
                       status := Finished; moves := Some [];
                       current_fen := START_FEN; winner_user_id := Some "bob" |},
          db', [ {| gf_gameId := "g1"; gf_reason := "resign";
                    gf_winnerUserId := Some "bob" |} ])
     /\ game_moves db' = [])
  /\ (exists db',
        draw flatElo sampleDb "g1" "alice"
          = (ReplyGame {| white_user_id := "alice"; black_user_id := "bob";
                          status := Finished; moves := Some [];
                          current_fen := START_FEN; winner_user_id := None |},
             db', [ {| gf_gameId := "g1"; gf_reason := "draw";
                       gf_winnerUserId := None |} ])
        /\ game_moves db' = []).
Proof.
  destruct (resign_and_draw_finish_the_game flatElo sampleDb "g1"
              (newGame "alice" "bob") "alice") as [(d1 & E1 & _ & M1 & _) (d2 & E2 & _ & M2 & _)].
  - vm_compute. reflexivity.
  - reflexivity.
  - left. reflexivity.
  - split; [exists d1|exists d2]; (split; [assumption|assumption]).
Defined.

Lemma finished_game_witness :
  submitMove flatElo finishedDb "g1" "bob" "e4"
    = (ErrorJson 409 "Game not active", finishedDb, [])
  /\ resign flatElo finishedDb "g1" "bob" = (ReplyError 409 "Game not active", finishedDb, [])
  /\ draw flatElo finishedDb "g1" "bob" = (ReplyError 409 "Game not active", finishedDb, []).
Proof.
  eapply (finished_game_is_closed flatElo finishedDb "g1" _ _ _).
  - vm_compute. reflexivity.
  - reflexivity.
Defined.

(** ** What an accepted move writes *)

Section Committing.
Variable computeEloDelta : Z -> Z -> Score -> Z.

(** The database after an accepted move, written out. *)
Lemma submitMove_commit db gid game uid sanText fenAfter chk cm sm :
  games db !! gid = Some game -> status game = Active ->
  (if isW (split " " (current_fen game) !! 1%nat)
   then white_user_id game else black_user_id game) = uid ->
  validateAndApplySanMove (current_fen game) sanText = Ret (SanOk fenAfter chk cm sm) ->
  let n := (length (default [] (moves game)) + 1)%nat in
  let g' := committedGame game uid sanText fenAfter cm sm in
  let db1 := {| games := <[gid := g']> (games db);
                game_moves := game_moves db
                  ++ [ {| game_id := gid; move_number := n; san := sanText;
                          fen_after := fenAfter |} ];
                ratings := ratings db;
                matchmaking_queue := matchmaking_queue db |} in
  exists bc,
    submitMove computeEloDelta db gid uid sanText
      = (MoveJson g' sanText fenAfter n,
         if cm || sm then finalizeRatingsWithClient computeEloDelta db1 g' false else db1,
         bc).
Proof.
  intros Hg Hs Hturn Hval. cbv zeta. unfold submitMove. rewrite Hg, Hs. simpl.
  assert (Hpart : negb (bool_decide (white_user_id game = uid))
                  && negb (bool_decide (black_user_id game = uid)) = false).
  { destruct (isW _); subst uid.
    - rewrite bool_decide_eq_true_2 by done. reflexivity.
    - rewrite (bool_decide_eq_true_2 (black_user_id game = _)) by done.
      apply andb_false_r. }
  rewrite Hpart, Hturn, bool_decide_eq_true_2 by done. simpl.
  rewrite Hval. unfold commitMove. rewrite Hg, Hs. simpl.
  unfold committedGame. destruct (cm || sm); eexists; reflexivity.
Qed.

(** Every accepted move went through the checks of [submitMove]. *)
Lemma submitMove_MoveJson_inv db gid uid sanText g' s f n db' bc :
  submitMove computeEloDelta db gid uid sanText = (MoveJson g' s f n, db', bc) ->
  exists game chk cm sm,
    games db !! gid = Some game /\ status game = Active
    /\ (if isW (split " " (current_fen game) !! 1%nat)
        then white_user_id game else black_user_id game) = uid
    /\ validateAndApplySanMove (current_fen game) sanText = Ret (SanOk f chk cm sm).
Proof.
  unfold submitMove. intros H.
  destruct (games db !! gid) as [game|] eqn:Hg; [|discriminate].
  destruct (bool_decide (status game = Active)) eqn:Hs; [|discriminate].
  apply bool_decide_eq_true in Hs. simpl in H.
  destruct (negb _ && negb _); [discriminate|].
  destruct (bool_decide (_ = uid)) eqn:Hturn; [|discriminate].
  apply bool_decide_eq_true in Hturn. simpl in H.
  destruct (validateAndApplySanMove _ _) as [[e|f0 chk cm sm]|] eqn:Hval; try discriminate.
  unfold commitMove in H. rewrite Hg in H.
  rewrite (bool_decide_eq_true_2 _ Hs) in H. simpl in H.
  injection H as _ _ <- _ _ _. by exists game, chk, cm, sm.
Qed.

(** X11. An accepted move changes ratings only when it ends the game.  A
    mating move is scored as a win for the mover.  A stalemating move closes
    the game with no winner and is scored as a loss for white, whoever made
    it: white's rating moves by the Elo change of a white loss and black's by
    its opposite, each clamped at zero. *)
Theorem move_that_ends_the_game_is_scored db gid game uid sanText fenAfter chk cm sm :
  games db !! gid = Some game -> status game = Active ->
  (if isW (split " " (current_fen game) !! 1%nat)
   then white_user_id game else black_user_id game) = uid ->
  validateAndApplySanMove (current_fen game) sanText = Ret (SanOk fenAfter chk cm sm) ->
  white_user_id game <> black_user_id game ->
  let rw := default 1200 (ratings db !! white_user_id game) in
  let rb := default 1200 (ratings db !! black_user_id game) in
  let score := if cm && bool_decide (uid = white_user_id game) then Win else Loss in
  let d := computeEloDelta rw rb score in
  exists reply db' bc,
    submitMove computeEloDelta db gid uid sanText = (reply, db', bc)
    /\ (cm || sm = false -> ratings db' = ratings db)
    /\ (cm || sm = true ->
        ratings db' !! white_user_id game = Some (Z.max 0 (rw + d))
        /\ ratings db' !! black_user_id game = Some (Z.max 0 (rb + - d))
        /\ exists g', games db' !! gid = Some g' /\ status g' = Finished
                      /\ winner_user_id g' = if cm then Some uid else None).
Proof.
  intros Hg Hs Hturn Hval Hne. cbv zeta.
  destruct (submitMove_commit db gid game uid sanText fenAfter chk cm sm Hg Hs Hturn Hval)
    as [bc E].
  cbv zeta in E. eexists _, _, _. split; [exact E|].
  destruct (cm || sm) eqn:Hend.
  - split; [discriminate|]. intros _.
    match type of E with
    | context [finalizeRatingsWithClient _ ?d1 ?g1 false] =>
        destruct (finalize_ratings computeEloDelta d1 g1 false) as (Hb & Hw & _ & Hgames & _)
    end.
    cbv zeta in Hb, Hw, Hgames. cbn [committedGame white_user_id black_user_id
      winner_user_id ratings] in Hb, Hw.
    assert (Hscore : (if bool_decide ((if cm then Some uid else None) = Some (white_user_id game))
                      then Win else Loss)
                     = (if cm && bool_decide (uid = white_user_id game) then Win else Loss)).
    { destruct cm; simpl; [|reflexivity].
      destruct (bool_decide (uid = white_user_id game)) eqn:Hu.
      - apply bool_decide_eq_true in Hu. rewrite bool_decide_eq_true_2 by congruence. done.
      - apply bool_decide_eq_false in Hu. rewrite bool_decide_eq_false_2 by congruence. done. }
    rewrite Hscore in Hb, Hw. split; [by apply Hw|]. split; [exact Hb|].
    eexists. rewrite Hgames. cbn [games]. split; [apply lookup_insert_eq|].
    unfold committedGame. cbn [status winner_user_id]. rewrite Hend. done.
  - split; [reflexivity|discriminate].
Qed.

Lemma orderByMoveNumber_seq l k :
  map move_number l = seq k (length l) -> orderByMoveNumber l = l.
Proof.
  revert k. induction l as [|h t IH]; intros k H; [reflexivity|].
  simpl in H. injection H as Hh Ht.
  unfold orderByMoveNumber in *. simpl. rewrite (IH _ Ht).
  destruct t as [|h' t']; [reflexivity|].
  simpl in Ht. injection Ht as Hh' _. simpl.
  rewrite (proj2 (Nat.leb_le _ _)) by lia. reflexivity.
Qed.

(** X12. The move table stays in step with the game row.  When the rows of a
    game in [game_moves] carry the tokens of its [moves] column numbered from
    1, an accepted move appends one row with the next number, the agreement
    holds again afterwards, [getMoves] answers the mover with the old rows
    followed by the new one, and the rows of other games are untouched. *)
Theorem move_history_stays_in_step db gid uid sanText g' s f n db' bc :
  historyOk db gid ->
  submitMove computeEloDelta db gid uid sanText = (MoveJson g' s f n, db', bc) ->
  let row := {| game_id := gid; move_number := n; san := sanText; fen_after := f |} in
  n = (length (movesOf db gid) + 1)%nat
  /\ movesOf db' gid = movesOf db gid ++ [row]
  /\ historyOk db' gid
  /\ getMoves db' gid uid = ReplyMoves (movesOf db gid ++ [row])
  /\ (forall other, other <> gid -> movesOf db' other = movesOf db other).
Proof.
  intros (game0 & Hg0 & Hsan & Hnum) H. cbv zeta.
  destruct (submitMove_MoveJson_inv _ _ _ _ _ _ _ _ _ _ H)
    as (game & chk & cm & sm & Hg & Hs & Hturn & Hval).
  assert (game0 = game) as -> by congruence.
  destruct (submitMove_commit db gid game uid sanText f chk cm sm Hg Hs Hturn Hval)
    as [bc' E].
  cbv zeta in E. rewrite H in E. injection E as _ _ -> -> _.
  set (row := {| game_id := gid; move_number := _; san := sanText; fen_after := f |}).
  set (g1 := committedGame game uid sanText f cm sm).
  set (db1 := {| games := <[gid := g1]> (games db); game_moves := game_moves db ++ [row];
                 ratings := ratings db; matchmaking_queue := matchmaking_queue db |}).
  assert (Hmoves : game_moves (if cm || sm
                               then finalizeRatingsWithClient computeEloDelta db1 g1 false
                               else db1) = game_moves db ++ [row]).
  { destruct (cm || sm); reflexivity. }
  assert (Hgames : games (if cm || sm
                          then finalizeRatingsWithClient computeEloDelta db1 g1 false
                          else db1) !! gid = Some g1).
  { destruct (cm || sm); cbn [games finalizeRatingsWithClient db1]; apply lookup_insert_eq. }
  assert (Hlen : (length (default [] (moves game)) = length (movesOf db gid))%nat).
  { rewrite <- Hsan. apply length_map. }
  assert (Hof : movesOf (if cm || sm
                         then finalizeRatingsWithClient computeEloDelta db1 g1 false
                         else db1) gid = movesOf db gid ++ [row]).
  { unfold movesOf. rewrite Hmoves, List.filter_app. simpl.
    rewrite bool_decide_eq_true_2 by reflexivity. reflexivity. }
  assert (Hnum' : map move_number (movesOf db gid ++ [row])
                  = seq 1 (length (movesOf db gid ++ [row]))).
  { rewrite map_app, length_app, seq_app, Hnum. simpl. subst row. simpl.
    rewrite Hlen. do 2 f_equal. lia. }
  split; [subst row; simpl; lia|]. split; [exact Hof|]. split; [|split].
  - exists g1. split; [exact Hgames|]. rewrite Hof. split; [|exact Hnum'].
    rewrite map_app, Hsan. reflexivity.
  - unfold getMoves. rewrite Hgames.
    assert (Hnot : notAPlayer g1 uid = false).
    { unfold notAPlayer, g1, committedGame. cbn [white_user_id black_user_id].
      destruct (isW _); subst uid.
      - by rewrite bool_decide_eq_true_2.
      - rewrite (bool_decide_eq_true_2 (black_user_id game = _)) by done.
        apply andb_false_r. }
    rewrite Hnot, Hof. f_equal. by eapply orderByMoveNumber_seq.
  - intros other Hother. unfold movesOf. rewrite Hmoves, List.filter_app. simpl.
    rewrite bool_decide_eq_false_2 by congruence. apply app_nil_r.
Qed.

End Committing.

Lemma stalemate_scoring_witness :
  exists reply db' bc,
    submitMove flatElo stalemateDb "g1" "alice" "Qg6" = (reply, db', bc)
    /\ ratings db' !! "alice" = Some 1484
    /\ ratings db' !! "bob" = Some 1416
    /\ exists g', games db' !! "g1" = Some g' /\ status g' = Finished
                  /\ winner_user_id g' = None.
Proof.
  pose proof (fun game f chk =>
    move_that_ends_the_game_is_scored flatElo stalemateDb "g1" game "alice" "Qg6"
      f chk false true) as T.
  edestruct T as (r & d & b & E & _ & Hend).
  - vm_compute. reflexivity.
  - reflexivity.
  - vm_compute. reflexivity.
  - vm_compute. reflexivity.
  - simpl. discriminate.
  - exists r, d, b. split; [exact E|].
    destruct (Hend eq_refl) as (Hw & Hb & Hg). split; [exact Hw|]. split; [exact Hb|exact Hg].
Defined.

Lemma move_history_witness :
  exists g' f db' bc,
    submitMove flatElo sampleDb "g1" "alice" "e4" = (MoveJson g' "e4" f 1, db', bc)
    /\ getMoves db' "g1" "alice"
       = ReplyMoves [ {| game_id := "g1"; move_number := 1; san := "e4"; fen_after := f |} ].
Proof.
  assert (Hhist : historyOk sampleDb "g1").
  { exists (newGame "alice" "bob"). split; [vm_compute; reflexivity|]. split; reflexivity. }
  pose proof (move_history_stays_in_step flatElo sampleDb "g1" "alice" "e4") as T.
  destruct (submitMove flatElo sampleDb "g1" "alice" "e4") as [[r d] b] eqn:E.
  vm_compute in E. injection E as <- <- <-.
  eexists _, _, _, _. split; [reflexivity|].
  destruct (T _ _ _ _ _ _ Hhist eq_refl) as (_ & _ & _ & Hget & _). exact Hget.
Defined.

(** ** The matchmaking queue *)

Import QueueOps.

Lemma filter_upsertQueue_other e l v :
  v <> user_id e ->
  List.filter (fun r => bool_decide (user_id r = v)) (upsertQueue e l)
  = List.filter (fun r => bool_decide (user_id r = v)) l.
Proof.
  intros Hv. induction l as [|h t IH]; simpl.
  - rewrite bool_decide_eq_false_2 by congruence. reflexivity.
  - destruct (bool_decide (user_id h = user_id e)) eqn:Hh.
    + apply bool_decide_eq_true in Hh. simpl.
      rewrite !bool_decide_eq_false_2 by congruence. reflexivity.
    + simpl. destruct (bool_decide (user_id h = v)); by rewrite IH.
Qed.

Lemma filter_upsertQueue_self e l :
  exists rest,
    List.filter (fun r => bool_decide (user_id r = user_id e)) (upsertQueue e l) = e :: rest.
Proof.
  induction l as [|h t [rest IH]]; simpl.
  - rewrite bool_decide_eq_true_2 by reflexivity. by eexists.
  - destruct (bool_decide (user_id h = user_id e)) eqn:Hh; simpl.
    + rewrite bool_decide_eq_true_2 by reflexivity. by eexists.
    + rewrite Hh. by eexists.
Qed.


(** X13. After [join] has written its row, [status] reports the user as
    queued with the time of the call and the user's current rating (1200
    without a rating row), whether or not the user was queued before; what
    [status] reports for any other user is unchanged. *)
Theorem status_after_enqueue db u now :
  QueueOps.status (enqueue db u now) u
    = (true, Some (now, default 1200 (ratings db !! u)))
  /\ (forall v, v <> u ->
      QueueOps.status (enqueue db u now) v = QueueOps.status db v).
Proof.
  split.
  - unfold QueueOps.status, enqueue. cbn [matchmaking_queue].
    destruct (filter_upsertQueue_self
                {| user_id := u; rating_snapshot := default 1200 (ratings db !! u);
                   queued_at := now |} (matchmaking_queue db)) as [rest E].
    cbn [user_id] in E. rewrite E. reflexivity.
  - intros v Hv. unfold QueueOps.status, enqueue. cbn [matchmaking_queue].
    by rewrite filter_upsertQueue_other.
Qed.


(** *** Ordering by [queued_at] *)

Lemma insertByQueuedAt_perm e l : Permutation (insertByQueuedAt e l) (e :: l).
Proof.
  induction l as [|h t IH]; simpl; [reflexivity|].
  destruct (queued_at e <=? queued_at h)%N; [reflexivity|].
  rewrite IH. apply perm_swap.
Qed.

Lemma orderByQueuedAt_perm l : Permutation (orderByQueuedAt l) l.
Proof.
  induction l as [|h t IH]; simpl; [reflexivity|].
  rewrite insertByQueuedAt_perm. by constructor.
Qed.

Lemma insertByQueuedAt_sorted e l :
  StronglySorted earlier l -> StronglySorted earlier (insertByQueuedAt e l).
Proof.
  induction l as [|h t IH]; intros Hs; simpl.
  - constructor; constructor.
  - apply StronglySorted_inv in Hs as [Ht Hh].
    destruct (queued_at e <=? queued_at h)%N eqn:Hcmp.
    + apply N.leb_le in Hcmp. constructor; [by constructor|].
      constructor; [exact Hcmp|].
      eapply Forall_impl; [exact Hh|]. unfold earlier. intros x Hx. simpl in Hx. lia.
    + apply N.leb_gt in Hcmp. constructor; [by apply IH|].
      rewrite insertByQueuedAt_perm. constructor; [unfold earlier; lia|exact Hh].
Qed.

Lemma orderByQueuedAt_sorted l : StronglySorted earlier (orderByQueuedAt l).
Proof.
  induction l as [|h t IH]; simpl; [constructor|]. by apply insertByQueuedAt_sorted.
Qed.

(** The two rows that the first query of [tryMatch] returns from a queue of
    at least two rows with distinct keys. *)
Lemma selectQueued_two db :
  NoDup (map user_id (matchmaking_queue db)) ->
  (2 <= length (matchmaking_queue db))%nat ->
  exists a b,
    selectQueued db = [a; b]
    /\ In a (matchmaking_queue db) /\ In b (matchmaking_queue db)
    /\ user_id a <> user_id b
    /\ (forall e, In e (matchmaking_queue db) -> earlier a e)
    /\ (forall e, In e (matchmaking_queue db) -> e <> a -> earlier b e).
Proof.
  intros Hnd Hlen. unfold selectQueued.
  pose proof (orderByQueuedAt_perm (matchmaking_queue db)) as Hperm.
  pose proof (orderByQueuedAt_sorted (matchmaking_queue db)) as Hsort.
  assert (Hnd' : NoDup (map user_id (orderByQueuedAt (matchmaking_queue db)))).
  { rewrite (Permutation_map user_id Hperm). exact Hnd. }
  apply Permutation_length in Hperm as Hl.
  destruct (orderByQueuedAt (matchmaking_queue db)) as [|a [|b rest]];
    simpl in Hl; try lia.
  exists a, b. split; [reflexivity|].
  apply StronglySorted_inv in Hsort as [Hsort' Ha].
  apply StronglySorted_inv in Hsort' as [_ Hb].
  rewrite Forall_forall in Ha, Hb.
  split; [eapply Permutation_in; [exact Hperm|]; simpl; auto|].
  split; [eapply Permutation_in; [exact Hperm|]; simpl; auto|].
  split.
  - simpl in Hnd'. apply NoDup_cons in Hnd' as [Hnot _].
    intros E. apply Hnot. rewrite E. simpl. apply list_elem_of_here.
  - split.
    + intros e He. eapply Permutation_in in He; [|symmetry; exact Hperm].
      destruct He as [<-|He]; [unfold earlier; lia|]. by apply Ha, list_elem_of_In.
    + intros e He Hne. eapply Permutation_in in He; [|symmetry; exact Hperm].
      destruct He as [<-|[<-|He]]; [done|unfold earlier; lia|].
      by apply Hb, list_elem_of_In.
Qed.

(** *** The unique key of the queue *)

Lemma upsertQueue_ids e l :
  map user_id (upsertQueue e l)
  = if bool_decide (user_id e ∈ map user_id l) then map user_id l
    else map user_id l ++ [user_id e].
Proof.
  induction l as [|h t IH]; [reflexivity|]. cbn [upsertQueue map].
  destruct (bool_decide (user_id h = user_id e)) eqn:Hh.
  - idtac.
    + apply bool_decide_eq_true in Hh. cbn [map]. rewrite Hh.
      rewrite bool_decide_eq_true_2 by apply list_elem_of_here. reflexivity.
  - idtac.
    + apply bool_decide_eq_false in Hh. cbn [map]. rewrite IH.
      destruct (bool_decide (user_id e ∈ map user_id t)) eqn:Ht.
      * apply bool_decide_eq_true in Ht.
        rewrite bool_decide_eq_true_2 by (by apply list_elem_of_further). reflexivity.
      * apply bool_decide_eq_false in Ht.
        rewrite bool_decide_eq_false_2; [reflexivity|].
        rewrite elem_of_cons. intros [E|E]; [congruence|done].
Qed.

Lemma upsertQueue_NoDup e l :
  NoDup (map user_id l) -> NoDup (map user_id (upsertQueue e l)).
Proof.
  intros H. rewrite upsertQueue_ids. case_bool_decide as Hin; [exact H|].
  apply NoDup_app. split; [exact H|]. split; [|apply NoDup_singleton].
  intros x Hx Hx'. apply list_elem_of_singleton in Hx'. by subst x.
Qed.

Lemma filter_ids_NoDup (p : QueueEntry -> bool) l :
  NoDup (map user_id l) -> NoDup (map user_id (List.filter p l)).
Proof.
  induction l as [|h t IH]; simpl; [done|]. intros H.
  apply NoDup_cons in H as [Hnot Ht]. destruct (p h); simpl; [|by apply IH].
  apply NoDup_cons. split; [|by apply IH].
  intros Hin. apply Hnot. apply list_elem_of_In in Hin. apply in_map_iff in Hin.
  destruct Hin as (x & Ex & Hx). apply filter_In in Hx as [Hx _].
  apply list_elem_of_In, in_map_iff. by exists x.
Qed.

Lemma tryMatch_queue db newId :
  matchmaking_queue (tryMatch db newId).1.2 = matchmaking_queue db
  \/ exists p, matchmaking_queue (tryMatch db newId).1.2
               = List.filter p (matchmaking_queue db).
Proof.
  unfold tryMatch, pairQueued.
  destruct (selectQueued db) as [|a [|b rest]]; simpl; auto.
  case_bool_decide; simpl; auto. right. eexists. reflexivity.
Qed.

(** X15. [user_id] stays a key of the queue: when no two rows of the queue
    have the same user, the same holds after the upsert of [join], after
    [tryMatch], after a whole [join] and after [leave]. *)
Theorem queue_key_stays_unique db u now newId :
  NoDup (map user_id (matchmaking_queue db)) ->
  NoDup (map user_id (matchmaking_queue (enqueue db u now)))
  /\ NoDup (map user_id (matchmaking_queue (tryMatch db newId).1.2))
  /\ NoDup (map user_id (matchmaking_queue (join db u now newId).1.2))
  /\ NoDup (map user_id (matchmaking_queue (leave db u).2)).
Proof.
  intros H.
  assert (Htry : forall d, NoDup (map user_id (matchmaking_queue d)) ->
                           NoDup (map user_id (matchmaking_queue (tryMatch d newId).1.2))).
  { intros d Hd. destruct (tryMatch_queue d newId) as [E|[p E]]; rewrite E;
      [exact Hd|by apply filter_ids_NoDup]. }
  assert (Henq : NoDup (map user_id (matchmaking_queue (enqueue db u now)))).
  { unfold enqueue. cbn [matchmaking_queue]. by apply upsertQueue_NoDup. }
  split; [exact Henq|]. split; [by apply Htry|]. split.
  - unfold join. specialize (Htry _ Henq).
    destruct (tryMatch (enqueue db u now) newId) as [[m d] ns]. exact Htry.
  - unfold leave. cbn [snd matchmaking_queue]. by apply filter_ids_NoDup.
Qed.

Lemma queue_key_witness :
  NoDup (map user_id (matchmaking_queue (join queueDb "u3" 7 "g9").1.2)).
Proof.
  apply (queue_key_stays_unique queueDb "u3" 7 "g9").
  vm_compute. repeat constructor; rewrite ?elem_of_cons, ?elem_of_nil; intuition discriminate.
Defined.

(** X16. With fewer than two rows in the queue [tryMatch] does nothing: it
    returns [null], writes nothing and notifies nobody. *)
Theorem tryMatch_needs_two db newId :
  (length (matchmaking_queue db) < 2)%nat -> tryMatch db newId = (None, db, []).
Proof.
  intros Hlen. unfold tryMatch, selectQueued.
  pose proof (Permutation_length (orderByQueuedAt_perm (matchmaking_queue db))) as Hl.
  destruct (orderByQueuedAt (matchmaking_queue db)) as [|a [|b rest]];
    simpl in Hl; [reflexivity|reflexivity|lia].
Qed.

Lemma tryMatch_needs_two_witness :
  tryMatch stalemateDb "g9" = (None, stalemateDb, []).
Proof. apply (tryMatch_needs_two stalemateDb "g9"). simpl. lia. Defined.

(** What the transaction of [tryMatch] does when its lock query returns the
    rows of the first query. *)
Lemma pairQueued_serial a b db newId :
  selectQueued db = [a; b] -> user_id a <> user_id b ->
  let white := if rating_snapshot a >=? rating_snapshot b then user_id a else user_id b in
  let black := if rating_snapshot a >=? rating_snapshot b then user_id b else user_id a in
  pairQueued [a; b] db newId
  = (Some {| gameId := newId; whiteUserId := white; blackUserId := black |},
     {| games := <[newId := newGame white black]> (games db);
        game_moves := game_moves db; ratings := ratings db;
        matchmaking_queue :=
          List.filter (fun e => negb (bool_decide (user_id e ∈ [user_id a; user_id b])))
            (matchmaking_queue db) |},
     [ {| n_userId := white; n_gameId := newId; n_color := "white" |};
       {| n_userId := black; n_gameId := newId; n_color := "black" |} ]).
Proof.
  intros Hsel Hab. cbv zeta. unfold pairQueued. rewrite Hsel.
  rewrite bool_decide_eq_false_2 by done. simpl. unfold ratingOf. simpl.
  rewrite bool_decide_eq_true_2 by done.
  rewrite (bool_decide_eq_false_2 (user_id a = user_id b)) by done.
  rewrite (bool_decide_eq_true_2 (user_id b = user_id b)) by done. simpl.
  destruct (rating_snapshot a >=? rating_snapshot b).
  - rewrite bool_decide_eq_true_2 by done. reflexivity.
  - rewrite bool_decide_eq_false_2 by congruence. reflexivity.
Qed.

(** X17. When the queue holds at least two rows of distinct users,
    [tryMatch] pairs the two rows queued earliest: no row of the queue was
    queued before the first of them, and none but the first before the
    second.  Both rows leave the queue, the rows of other users stay, a new
    active game at the starting position is inserted, the first of the pair
    plays white unless the second has the strictly higher rating snapshot,
    and each of the two is sent a [match_found] notification with the colour. *)
Theorem tryMatch_pairs_the_two_earliest db newId :
  NoDup (map user_id (matchmaking_queue db)) ->
  (2 <= length (matchmaking_queue db))%nat ->
  exists a b,
    In a (matchmaking_queue db) /\ In b (matchmaking_queue db)
    /\ user_id a <> user_id b
    /\ (forall e, In e (matchmaking_queue db) -> earlier a e)
    /\ (forall e, In e (matchmaking_queue db) -> e <> a -> earlier b e)
    /\ let white := if rating_snapshot a >=? rating_snapshot b
                    then user_id a else user_id b in
       let black := if rating_snapshot a >=? rating_snapshot b
                    then user_id b else user_id a in
       tryMatch db newId
       = (Some {| gameId := newId; whiteUserId := white; blackUserId := black |},
          {| games := <[newId := newGame white black]> (games db);
             game_moves := game_moves db; ratings := ratings db;
             matchmaking_queue :=
               List.filter (fun e => negb (bool_decide (user_id e ∈ [user_id a; user_id b])))
                 (matchmaking_queue db) |},
          [ {| n_userId := white; n_gameId := newId; n_color := "white" |};
            {| n_userId := black; n_gameId := newId; n_color := "black" |} ]).
Proof.
  intros Hnd Hlen.
  destruct (selectQueued_two db Hnd Hlen) as (a & b & Hsel & Ha & Hb & Hab & Hmin & Hnext).
  exists a, b. repeat (split; [assumption|]).
  unfold tryMatch. rewrite Hsel. by apply pairQueued_serial.
Qed.

Lemma tryMatch_pairs_witness :
  exists m db' ns,
    tryMatch queueDb "g9" = (Some m, db', ns)
    /\ whiteUserId m <> blackUserId m
    /\ games db' !! "g9" = Some (newGame (whiteUserId m) (blackUserId m)).
Proof.
  destruct (tryMatch_pairs_the_two_earliest queueDb "g9") as (a & b & _ & _ & Hab & _ & _ & E).
  - vm_compute. repeat constructor; rewrite ?elem_of_cons, ?elem_of_nil; intuition discriminate.
  - simpl. lia.
  - cbv zeta in E. eexists _, _, _. split; [exact E|]. cbn [whiteUserId blackUserId games].
    split; [|apply lookup_insert_eq].
    destruct (rating_snapshot a >=? rating_snapshot b); congruence.
Defined.

(** X18. [join] composed with [tryMatch]: when exactly one other user is
    waiting, the joining user is paired with that user at once.  The queue is
    empty afterwards, a new game between the two is inserted, both are
    notified, and [status] reports the joining user as not queued, although
    the answer of [join] carries [queued: true]. *)
Theorem join_pairs_with_the_waiting_user db e u now newId :
  matchmaking_queue db = [e] -> user_id e <> u ->
  exists white black,
    join db u now newId
    = (true,
       {| games := <[newId := newGame white black]> (games db);
          game_moves := game_moves db; ratings := ratings db;
          matchmaking_queue := [] |},
       [ {| n_userId := white; n_gameId := newId; n_color := "white" |};
         {| n_userId := black; n_gameId := newId; n_color := "black" |} ])
    /\ ((white = user_id e /\ black = u) \/ (white = u /\ black = user_id e))
    /\ QueueOps.status (join db u now newId).1.2 u = (false, None).
Proof.
  intros Hq Hne.
  set (eu := {| user_id := u; rating_snapshot := default 1200 (ratings db !! u);
                queued_at := now |}).
  assert (Hq1 : matchmaking_queue (enqueue db u now) = [e; eu]).
  { unfold enqueue. cbn [matchmaking_queue]. rewrite Hq. simpl.
    rewrite bool_decide_eq_false_2 by done. reflexivity. }
  destruct (selectQueued_two (enqueue db u now)) as (a & b & Hsel & Ha & Hb & Hab & _).
  { rewrite Hq1. simpl. apply NoDup_cons. split; [|apply NoDup_singleton].
    intros Hin. apply list_elem_of_singleton in Hin. done. }
  { rewrite Hq1. simpl. lia. }
  pose proof (pairQueued_serial a b (enqueue db u now) newId Hsel Hab) as E.
  cbv zeta in E. rewrite Hq1 in Ha, Hb, E.
  assert (Hfilter : List.filter
                      (fun x => negb (bool_decide (user_id x ∈ [user_id a; user_id b])))
                      [e; eu] = []).
  { assert (He : user_id e ∈ [user_id a; user_id b]).
    { destruct Ha as [<-|[<-|[]]]; [apply list_elem_of_here|].
      destruct Hb as [<-|[<-|[]]]; [apply list_elem_of_further, list_elem_of_here|done]. }
    assert (Hu : user_id eu ∈ [user_id a; user_id b]).
    { destruct Ha as [<-|[<-|[]]]; [|apply list_elem_of_here].
      destruct Hb as [<-|[<-|[]]]; [done|apply list_elem_of_further, list_elem_of_here]. }
    simpl. rewrite !bool_decide_eq_true_2 by assumption. reflexivity. }
  rewrite Hfilter in E.
  assert (Hjoin : join db u now newId
                  = (true, (pairQueued [a; b] (enqueue db u now) newId).1.2,
                     (pairQueued [a; b] (enqueue db u now) newId).2)).
  { unfold join, tryMatch. rewrite Hsel.
    destruct (pairQueued [a; b] (enqueue db u now) newId) as [[m d] ns]. reflexivity. }
  rewrite Hjoin, E. cbn [fst snd]. eexists _, _. split; [reflexivity|]. split.
  - destruct (rating_snapshot a >=? rating_snapshot b);
      destruct Ha as [<-|[<-|[]]]; destruct Hb as [<-|[<-|[]]]; auto; done.
  - reflexivity.
Qed.

Lemma join_pairs_witness :
  exists white black,
    (join (leave queueDb "u2").2 "u2" 9 "g9").1.1 = true
    /\ games (join (leave queueDb "u2").2 "u2" 9 "g9").1.2 !! "g9"
       = Some (newGame white black)
    /\ ((white = "u1" /\ black = "u2") \/ (white = "u2" /\ black = "u1"))
    /\ QueueOps.status (join (leave queueDb "u2").2 "u2" 9 "g9").1.2 "u2" = (false, None).
Proof.
  destruct (join_pairs_with_the_waiting_user (leave queueDb "u2").2
              {| user_id := "u1"; rating_snapshot := 1500; queued_at := 1 |} "u2" 9 "g9")
    as (white & black & E & Hwb & Hst).
  - vm_compute. reflexivity.
  - simpl. discriminate.
  - exists white, black. rewrite E. cbn [fst snd games].
    split; [reflexivity|]. split; [apply lookup_insert_eq|]. split; [exact Hwb|].
    rewrite E in Hst. exact Hst.
Defined.

(** ** Stored positions stay readable *)












(** ** The session never meets an unreadable position *)

Import Requests.

Section Serving.
Variable computeEloDelta : Z -> Z -> Score -> Z.


Lemma finalize_games db g isDraw :
  games (finalizeRatingsWithClient computeEloDelta db g isDraw) = games db.
Proof. reflexivity. Qed.






End Serving.


(** ** The WebSocket hub *)

Import Hub HubFacts.

Lemma elem_of_setAdd {A : Type} `{EqDecision A} (a b : A) (l : list A) :
  b ∈ setAdd a l <-> b = a \/ b ∈ l.
Proof.
  unfold setAdd. case_bool_decide as Hin.
  - split; [auto|]. by intros [->|].
  - rewrite elem_of_app, list_elem_of_singleton. tauto.
Qed.

Lemma elem_of_setDelete {A : Type} `{EqDecision A} (a b : A) (l : list A) :
  b ∈ setDelete a l <-> b ∈ l /\ b <> a.
Proof.
  unfold setDelete. rewrite !list_elem_of_In, filter_In, negb_true_iff.
  by rewrite bool_decide_eq_false.
Qed.

Lemma NoDup_setAdd {A : Type} `{EqDecision A} (a : A) (l : list A) :
  NoDup l -> NoDup (setAdd a l).
Proof.
  intros H. unfold setAdd. case_bool_decide as Hin; [exact H|].
  apply NoDup_app. split; [exact H|]. split; [|apply NoDup_singleton].
  intros b Hb Hb'. apply list_elem_of_singleton in Hb'. by subst b.
Qed.

Lemma NoDup_setDelete {A : Type} `{EqDecision A} (a : A) (l : list A) :
  NoDup l -> NoDup (setDelete a l).
Proof.
  unfold setDelete. induction 1 as [|b l Hb Hl IH]; simpl; [constructor|].
  destruct (negb _); [|exact IH]. constructor; [|exact IH].
  intros Hin. apply Hb. apply list_elem_of_In in Hin. apply filter_In in Hin as [Hin _].
  by apply list_elem_of_In.
Qed.

Lemma setAdd_not_nil {A : Type} `{EqDecision A} (a : A) (l : list A) : setAdd a l <> [].
Proof.
  intros E. assert (H : a ∈ setAdd a l) by (apply elem_of_setAdd; by left).
  rewrite E in H. by apply elem_of_nil in H.
Qed.

Lemma wsGet_setWs h ws s : wsGet (setWs h ws s) ws = s.
Proof. unfold wsGet, setWs. simpl. by rewrite lookup_insert_eq. Qed.

Lemma wsGet_setWs_ne h ws ws' s : ws' <> ws -> wsGet (setWs h ws s) ws' = wsGet h ws'.
Proof. intros Hne. unfold wsGet, setWs. simpl. by rewrite lookup_insert_ne. Qed.

(** Who receives a payload sent to a list of connections. *)
Lemma In_sends {P : Type} h (p : P) l ws q :
  In (ws, q) (flat_map (fun w => safeSend h w p) l)
  <-> ws ∈ l /\ ws_open (wsGet h ws) = true /\ q = p.
Proof.
  rewrite in_flat_map. split.
  - intros (w & Hw & Hin). unfold safeSend in Hin.
    destruct (ws_open (wsGet h w)) eqn:Ho; [|destruct Hin].
    destruct Hin as [[= <- <-]|[]]. by rewrite list_elem_of_In.
  - intros (Hin & Ho & ->). exists ws. split; [by apply list_elem_of_In|].
    unfold safeSend. rewrite Ho. by left.
Qed.

Lemma In_broadcastToGame {P : Type} h g (p : P) ws q :
  In (ws, q) (broadcastToGame h g p)
  <-> inRoom h g ws /\ ws_open (wsGet h ws) = true /\ q = p.
Proof.
  unfold broadcastToGame, inRoom. destruct (gameRooms h !! g) as [room|]; simpl.
  - apply In_sends.
  - rewrite elem_of_nil. tauto.
Qed.

Lemma In_notifyUser {P : Type} h u (p : P) ws q :
  In (ws, q) (notifyUser h u p)
  <-> registered h u ws /\ ws_open (wsGet h ws) = true /\ q = p.
Proof.
  unfold notifyUser, registered. destruct (clientsByUserId h !! u) as [set|]; simpl.
  - apply In_sends.
  - rewrite elem_of_nil. tauto.
Qed.

Lemma truthy_Some s : s <> EmptyString -> truthy (Some s) = Some s.
Proof. intros H. unfold truthy. by rewrite bool_decide_eq_false_2. Qed.

Lemma inRoom_joinGameRoom h ws g g' ws' :
  inRoom (joinGameRoom h ws g) g' ws'
  <-> (g' = g /\ ws' = ws) \/ inRoom h g' ws'.
Proof.
  unfold inRoom, joinGameRoom. cbn [gameRooms].
  destruct (decide (g' = g)) as [->|Hne].
  - rewrite lookup_insert_eq. simpl. rewrite elem_of_setAdd. tauto.
  - rewrite lookup_insert_ne by done. split; [auto|]. by intros [[? _]|].
Qed.

Lemma gameRooms_leaveGameRoom h ws g :
  gameRooms (leaveGameRoom h ws g)
  = match gameRooms h !! g with
    | Some room =>
        if (length (setDelete ws room) =? 0)%nat then delete g (gameRooms h)
        else <[g := setDelete ws room]> (gameRooms h)
    | None => gameRooms h
    end.
Proof.
  unfold leaveGameRoom. cbv zeta.
  destruct (ws_joinedGames (wsGet h ws)); cbn [setWs gameRooms];
    destruct (gameRooms h !! g); reflexivity.
Qed.

Lemma inRoom_leaveGameRoom h ws g g' ws' :
  inRoom (leaveGameRoom h ws g) g' ws'
  <-> inRoom h g' ws' /\ ~ (g' = g /\ ws' = ws).
Proof.
  unfold inRoom. rewrite gameRooms_leaveGameRoom.
  destruct (gameRooms h !! g) as [room|] eqn:Hroom.
  - destruct (decide (g' = g)) as [->|Hne].
    + rewrite Hroom. simpl.
      destruct (length (setDelete ws room) =? 0)%nat eqn:Hlen.
      * apply Nat.eqb_eq, nil_length_inv in Hlen.
        rewrite lookup_delete_eq. simpl. rewrite elem_of_nil.
        split; [done|]. intros [Hin Hnot]. 
        assert (H : ws' ∈ setDelete ws room).
        { apply elem_of_setDelete. split; [exact Hin|]. intros ->. by apply Hnot. }
        rewrite Hlen in H. by apply elem_of_nil in H.
      * rewrite lookup_insert_eq. simpl. rewrite elem_of_setDelete.
        split; intros [Hin Hnot]; (split; [exact Hin|]); [by intros [_ ?]|].
        intros ->. by apply Hnot.
    + destruct (length (setDelete ws room) =? 0)%nat;
        [rewrite lookup_delete_ne by done|rewrite lookup_insert_ne by done];
        (split; [intros Hin; split; [exact Hin|by intros [? _]]|by intros [? _]]).
  - split; [|by intros [? _]]. intros Hin. split; [exact Hin|].
    intros [-> _]. rewrite Hroom in Hin. simpl in Hin. by apply elem_of_nil in Hin.
Qed.

Lemma ws_open_leaveGameRoom h ws g ws' :
  ws_open (wsGet (leaveGameRoom h ws g) ws') = ws_open (wsGet h ws').
Proof.
  assert (E : wsGet (leaveGameRoom h ws g) ws'
              = wsGet (match ws_joinedGames (wsGet h ws) with
                       | Some joined =>
                           setWs h ws {| ws_open := ws_open (wsGet h ws);
                                         ws_isAuthed := ws_isAuthed (wsGet h ws);
                                         ws_userId := ws_userId (wsGet h ws);
                                         ws_joinedGames := Some (setDelete g joined) |}
                       | None => h
                       end) ws').
  { unfold leaveGameRoom. cbv zeta.
    destruct (ws_joinedGames (wsGet h ws)); cbn [setWs gameRooms];
      destruct (gameRooms h !! g); reflexivity. }
  rewrite E. destruct (ws_joinedGames (wsGet h ws)); [|reflexivity].
  destruct (decide (ws' = ws)) as [->|Hne];
    [by rewrite wsGet_setWs|by rewrite wsGet_setWs_ne].
Qed.

Section HubHandling.
Variable verifyJwt : string -> Exn string.

(** X21. [join_game] asks only that the connection is authenticated and that
    a game id is given: the connection is then a member of the room, is told
    [joined_game], and receives every later broadcast to that game.  The hub
    does not ask whether the user plays in the game. *)
Theorem join_game_admits_any_authenticated_connection h ws token g now :
  ws_isAuthed (wsGet h ws) = true -> ws_open (wsGet h ws) = true -> g <> EmptyString ->
  let msg := {| msg_type := Some "join_game"; msg_token := token; msg_gameId := Some g |} in
  let h' := (handleMessage verifyJwt h ws msg now).1 in
  (handleMessage verifyJwt h ws msg now).2 = [(ws, OJoinedGame g)]
  /\ inRoom h' g ws
  /\ forall (P : Type) (p : P), In (ws, p) (broadcastToGame h' g p).
Proof.
  intros Hauth Hopen Hg. cbv zeta. unfold handleMessage. cbn [msg_type msg_gameId].
  rewrite bool_decide_eq_false_2 by discriminate.
  rewrite bool_decide_eq_true_2 by reflexivity.
  rewrite Hauth, (truthy_Some g Hg). cbn [negb fst snd].
  assert (Ho : ws_open (wsGet (joinGameRoom h ws g) ws) = true).
  { unfold joinGameRoom, wsGet at 1. cbn [sockets]. rewrite lookup_insert_eq. exact Hopen. }
  assert (Hin : inRoom (joinGameRoom h ws g) g ws) by (apply inRoom_joinGameRoom; auto).
  split; [unfold safeSend; by rewrite Ho|]. split; [exact Hin|].
  intros P p. by apply In_broadcastToGame.
Qed.

(** X22. After [leave_game] the connection is no member of the room and
    receives no broadcast to that game; the other members of the room and all
    other rooms are as before. *)
Theorem leave_game_stops_the_broadcasts h ws token g now :
  ws_isAuthed (wsGet h ws) = true -> g <> EmptyString ->
  let msg := {| msg_type := Some "leave_game"; msg_token := token; msg_gameId := Some g |} in
  let h' := (handleMessage verifyJwt h ws msg now).1 in
  ~ inRoom h' g ws
  /\ (forall (P : Type) (p q : P), ~ In (ws, q) (broadcastToGame h' g p))
  /\ (forall g' ws', (g', ws') <> (g, ws) -> inRoom h' g' ws' <-> inRoom h g' ws')
  /\ (forall (P : Type) (p q : P) g' ws', (g', ws') <> (g, ws) ->
        In (ws', q) (broadcastToGame h' g' p) <-> In (ws', q) (broadcastToGame h g' p)).
Proof.
  intros Hauth Hg. cbv zeta. unfold handleMessage. cbn [msg_type msg_gameId].
  rewrite !(bool_decide_eq_false_2 (Some "leave_game" = Some _)) by discriminate.
  rewrite bool_decide_eq_true_2 by reflexivity.
  rewrite Hauth, (truthy_Some g Hg). cbn [negb fst snd].
  assert (Hnot : ~ inRoom (leaveGameRoom h ws g) g ws).
  { rewrite inRoom_leaveGameRoom. intros [_ H]. by apply H. }
  assert (Hother : forall g' ws', (g', ws') <> (g, ws) ->
            inRoom (leaveGameRoom h ws g) g' ws' <-> inRoom h g' ws').
  { intros g' ws' Hne. rewrite inRoom_leaveGameRoom. split; [by intros [? _]|].
    intros Hin. split; [exact Hin|]. intros [-> ->]. by apply Hne. }
  split; [exact Hnot|]. split.
  - intros P p q Hin. apply In_broadcastToGame in Hin as [Hin _]. by apply Hnot.
  - split; [exact Hother|]. intros P p q g' ws' Hne.
    rewrite !In_broadcastToGame, ws_open_leaveGameRoom, (Hother g' ws' Hne). reflexivity.
Qed.

(** X23. A connection that has not authenticated changes nothing in the hub
    unless it presents a token that verifies: whatever else it sends, parsed
    or not, the connection table, the users' sets and the rooms stay as they
    are, and [join_game] and [leave_game] are answered with "Not
    authenticated". *)
Theorem unauthenticated_connection_changes_nothing h ws data now :
  ws_isAuthed (wsGet h ws) = false ->
  (forall msg token, data = Some msg -> msg_type msg = Some "auth" ->
     truthy (msg_token msg) = Some token -> verifyJwt token = Throw) ->
  (onMessage verifyJwt h ws data now).1 = h
  /\ (forall msg, data = Some msg ->
        msg_type msg = Some "join_game" \/ msg_type msg = Some "leave_game" ->
        (onMessage verifyJwt h ws data now).2 = safeSend h ws (OError "Not authenticated")).
Proof.
  intros Hauth Htok. destruct data as [msg|]; [|by split].
  unfold onMessage, handleMessage. cbv zeta. rewrite Hauth. cbn [negb].
  split.
  - destruct (bool_decide (msg_type msg = Some "auth")) eqn:Ha.
    + apply bool_decide_eq_true in Ha.
      destruct (truthy (msg_token msg)) as [token|] eqn:Ht; [|reflexivity].
      by rewrite (Htok msg token eq_refl Ha Ht).
    + destruct (bool_decide (msg_type msg = Some "join_game")); [reflexivity|].
      destruct (bool_decide (msg_type msg = Some "leave_game")); [reflexivity|].
      destruct (bool_decide (msg_type msg = Some "ping")); reflexivity.
  - intros m [= <-] [E|E]; rewrite E.
    + rewrite bool_decide_eq_false_2 by discriminate.
      by rewrite bool_decide_eq_true_2.
    + rewrite !(bool_decide_eq_false_2 (Some "leave_game" = Some _)) by discriminate.
      by rewrite bool_decide_eq_true_2.
Qed.

End HubHandling.

(** *** The invariant of the hub *)

Lemma consistent_initial : consistent initial.
Proof. split; intros k l H; simpl in H; by rewrite lookup_empty in H. Qed.

(** Rewriting the fields of a connection keeps the hub consistent when the
    connection stays authenticated and forgets no joined game. *)
Lemma consistent_setWs h ws s :
  consistent h ->
  (ws_isAuthed (wsGet h ws) = true -> ws_isAuthed s = true) ->
  (forall g, g ∈ default [] (ws_joinedGames (wsGet h ws)) ->
             inRoom h g ws -> g ∈ default [] (ws_joinedGames s)) ->
  consistent (setWs h ws s).
Proof.
  intros [Hrooms Husers] Hauth Hjoined. split; [|exact Husers].
  intros g room Hroom. cbn [setWs gameRooms] in Hroom.
  destruct (Hrooms g room Hroom) as (Hne & Hnd & Hmem).
  split; [exact Hne|]. split; [exact Hnd|]. intros ws' Hin.
  destruct (Hmem ws' Hin) as [Ha Hj].
  destruct (decide (ws' = ws)) as [->|Hneq].
  - rewrite wsGet_setWs. split; [by apply Hauth|]. apply Hjoined; [exact Hj|].
    unfold inRoom. by rewrite Hroom.
  - by rewrite wsGet_setWs_ne.
Qed.

Lemma consistent_registerClient h ws u : consistent h -> consistent (registerClient h ws u).
Proof.
  intros Hc.
  pose proof (consistent_setWs h ws
                {| ws_open := ws_open (wsGet h ws); ws_isAuthed := true;
                   ws_userId := Some u; ws_joinedGames := ws_joinedGames (wsGet h ws) |}
                Hc (fun _ => eq_refl) (fun g Hg _ => Hg)) as [Hrooms _].
  destruct Hc as [_ Husers]. split; [exact Hrooms|].
  intros u' set Hset. unfold registerClient in Hset. cbn [clientsByUserId] in Hset.
  destruct (decide (u' = u)) as [->|Hne].
  - rewrite lookup_insert_eq in Hset. injection Hset as <-.
    split; [apply setAdd_not_nil|]. apply NoDup_setAdd.
    destruct (clientsByUserId h !! u) as [set|] eqn:E; simpl; [|constructor].
    by apply (Husers u set).
  - rewrite lookup_insert_ne in Hset by done. by apply (Husers u').
Qed.

Lemma consistent_joinGameRoom h ws g :
  consistent h -> ws_isAuthed (wsGet h ws) = true -> consistent (joinGameRoom h ws g).
Proof.
  intros [Hrooms Husers] Hauth. split; [|exact Husers].
  set (s' := {| ws_open := ws_open (wsGet h ws); ws_isAuthed := ws_isAuthed (wsGet h ws);
                ws_userId := ws_userId (wsGet h ws);
                ws_joinedGames := Some (setAdd g (default [] (ws_joinedGames (wsGet h ws)))) |}).
  assert (Hget : forall ws', wsGet (joinGameRoom h ws g) ws'
                             = if decide (ws' = ws) then s' else wsGet h ws').
  { intros ws'. unfold joinGameRoom, wsGet at 1. cbn [sockets].
    destruct (decide (ws' = ws)) as [->|Hne];
      [by rewrite lookup_insert_eq|by rewrite lookup_insert_ne]. }
  assert (Hmember : forall g' ws',
            ws_isAuthed (wsGet h ws') = true
            /\ g' ∈ default [] (ws_joinedGames (wsGet h ws')) ->
            ws_isAuthed (wsGet (joinGameRoom h ws g) ws') = true
            /\ g' ∈ default [] (ws_joinedGames (wsGet (joinGameRoom h ws g) ws'))).
  { intros g' ws' [Ha Hj]. rewrite Hget. destruct (decide (ws' = ws)) as [->|]; [|done].
    split; [exact Hauth|]. simpl. apply elem_of_setAdd. by right. }
  intros g' room Hroom. unfold joinGameRoom in Hroom. cbn [gameRooms] in Hroom.
  destruct (decide (g' = g)) as [->|Hne].
  - rewrite lookup_insert_eq in Hroom. injection Hroom as <-.
    split; [apply setAdd_not_nil|].
    destruct (gameRooms h !! g) as [room|] eqn:E; simpl.
    + destruct (Hrooms g room E) as (_ & Hnd & Hmem).
      split; [by apply NoDup_setAdd|]. intros ws' Hin.
      apply elem_of_setAdd in Hin as [->|Hin]; [|by apply Hmember, Hmem].
      rewrite Hget, decide_True by done. split; [exact Hauth|].
      simpl. apply elem_of_setAdd. by left.
    + split; [apply NoDup_setAdd; constructor|]. intros ws' Hin.
      apply elem_of_setAdd in Hin as [->|Hin]; [|by apply elem_of_nil in Hin].
      rewrite Hget, decide_True by done. split; [exact Hauth|].
      simpl. apply elem_of_setAdd. by left.
  - rewrite lookup_insert_ne in Hroom by done.
    destruct (Hrooms g' room Hroom) as (Hn & Hnd & Hmem).
    split; [exact Hn|]. split; [exact Hnd|]. intros ws' Hin. by apply Hmember, Hmem.
Qed.

Lemma wsGet_leaveGameRoom h ws g ws' :
  wsGet (leaveGameRoom h ws g) ws'
  = if decide (ws' = ws)
    then {| ws_open := ws_open (wsGet h ws); ws_isAuthed := ws_isAuthed (wsGet h ws);
            ws_userId := ws_userId (wsGet h ws);
            ws_joinedGames := setDelete g <$> ws_joinedGames (wsGet h ws) |}
    else wsGet h ws'.
Proof.
  assert (E : wsGet (leaveGameRoom h ws g) ws'
              = wsGet (match ws_joinedGames (wsGet h ws) with
                       | Some joined =>
                           setWs h ws {| ws_open := ws_open (wsGet h ws);
                                         ws_isAuthed := ws_isAuthed (wsGet h ws);
                                         ws_userId := ws_userId (wsGet h ws);
                                         ws_joinedGames := Some (setDelete g joined) |}
                       | None => h
                       end) ws').
  { unfold leaveGameRoom. cbv zeta.
    destruct (ws_joinedGames (wsGet h ws)); cbn [setWs gameRooms];
      destruct (gameRooms h !! g); reflexivity. }
  rewrite E. destruct (decide (ws' = ws)) as [->|Hne].
  - destruct (ws_joinedGames (wsGet h ws)) eqn:Ej; simpl.
    + by rewrite wsGet_setWs.
    + rewrite <- Ej. by destruct (wsGet h ws).
  - destruct (ws_joinedGames (wsGet h ws)); [by rewrite wsGet_setWs_ne|reflexivity].
Qed.

Lemma clientsByUserId_leaveGameRoom h ws g :
  clientsByUserId (leaveGameRoom h ws g) = clientsByUserId h.
Proof.
  unfold leaveGameRoom. cbv zeta.
  destruct (ws_joinedGames (wsGet h ws)); cbn [setWs gameRooms];
    destruct (gameRooms h !! g); reflexivity.
Qed.

Lemma consistent_leaveGameRoom h ws g : consistent h -> consistent (leaveGameRoom h ws g).
Proof.
  intros [Hrooms Husers]. split; [|by rewrite clientsByUserId_leaveGameRoom].
  intros g' room' Hroom'.
  assert (Hin : forall ws', ws' ∈ room' <-> inRoom (leaveGameRoom h ws g) g' ws').
  { intros ws'. unfold inRoom. by rewrite Hroom'. }
  assert (Hold : exists room, gameRooms h !! g' = Some room
                              /\ (room' = room \/ (g' = g /\ room' = setDelete ws room))).
  { rewrite gameRooms_leaveGameRoom in Hroom'.
    destruct (gameRooms h !! g) as [room|] eqn:E; [|eauto].
    destruct (decide (g' = g)) as [->|Hne].
    - exists room. split; [exact E|]. right. split; [reflexivity|].
      destruct (length (setDelete ws room) =? 0)%nat.
      + by rewrite lookup_delete_eq in Hroom'.
      + rewrite lookup_insert_eq in Hroom'. by injection Hroom' as <-.
    - destruct (length (setDelete ws room) =? 0)%nat;
        [rewrite lookup_delete_ne in Hroom' by done
        |rewrite lookup_insert_ne in Hroom' by done]; eauto. }
  destruct Hold as (room & Hroom & Hshape).
  destruct (Hrooms g' room Hroom) as (Hne & Hnd & Hmem).
  assert (Hnonempty : room' <> []).
  { destruct Hshape as [->|[-> ->]]; [exact Hne|].
    rewrite gameRooms_leaveGameRoom, Hroom in Hroom'.
    destruct (length (setDelete ws room) =? 0)%nat eqn:Hlen.
    - by rewrite lookup_delete_eq in Hroom'.
    - apply Nat.eqb_neq in Hlen. intros E. rewrite E in Hlen. by apply Hlen. }
  split; [exact Hnonempty|]. split.
  { destruct Hshape as [->|[_ ->]]; [exact Hnd|by apply NoDup_setDelete]. }
  intros ws' Hws'. apply Hin, inRoom_leaveGameRoom in Hws' as [Hws' Hnot].
  unfold inRoom in Hws'. rewrite Hroom in Hws'. simpl in Hws'.
  destruct (Hmem ws' Hws') as [Ha Hj]. rewrite wsGet_leaveGameRoom.
  destruct (decide (ws' = ws)) as [->|Hneq]; [|done].
  cbn [ws_isAuthed ws_joinedGames]. split; [exact Ha|].
  destruct (ws_joinedGames (wsGet h ws)) as [joined|]; simpl in *; [|exact Hj].
  apply elem_of_setDelete. split; [exact Hj|]. intros ->. by apply Hnot.
Qed.

Lemma leaveAll_spec h ws (l : list string) :
  let h' := fold_left (fun acc g => leaveGameRoom acc ws g) l h in
  (consistent h -> consistent h')
  /\ clientsByUserId h' = clientsByUserId h
  /\ (forall g ws', inRoom h' g ws' <-> inRoom h g ws' /\ ~ (ws' = ws /\ g ∈ l))
  /\ (forall ws', ws' <> ws -> wsGet h' ws' = wsGet h ws').
Proof.
  cbv zeta. revert h. induction l as [|g0 l IH]; intros h; simpl.
  - split; [auto|]. split; [reflexivity|]. split; [|reflexivity].
    intros g ws'. rewrite elem_of_nil. tauto.
  - destruct (IH (leaveGameRoom h ws g0)) as (Hc & Hu & Hr & Hs).
    split; [intros H; by apply Hc, consistent_leaveGameRoom|].
    split; [by rewrite Hu, clientsByUserId_leaveGameRoom|]. split.
    + intros g ws'. rewrite Hr, inRoom_leaveGameRoom, elem_of_cons.
      split.
      * intros [[Hin Hn1] Hn2]. split; [exact Hin|].
        intros [-> [->|Hl]]; [by apply Hn1|by apply Hn2].
      * intros [Hin Hn]. split; [split; [exact Hin|]|].
        -- intros [-> ->]. apply Hn. auto.
        -- intros [-> Hl]. apply Hn. auto.
    + intros ws' Hne. rewrite Hs by done. rewrite wsGet_leaveGameRoom.
      by rewrite decide_False.
Qed.

Lemma consistent_cleanup_users h ws u set :
  consistent h -> clientsByUserId h !! u = Some set ->
  consistent {| sockets := sockets h;
                clientsByUserId :=
                  if (length (setDelete ws set) =? 0)%nat then delete u (clientsByUserId h)
                  else <[u := setDelete ws set]> (clientsByUserId h);
                gameRooms := gameRooms h |}.
Proof.
  intros [Hrooms Husers] Hset. split; [exact Hrooms|].
  intros u' set' Hset'. cbn [clientsByUserId] in Hset'.
  destruct (length (setDelete ws set) =? 0)%nat eqn:Hlen.
  - destruct (decide (u' = u)) as [->|Hne]; [by rewrite lookup_delete_eq in Hset'|].
    rewrite lookup_delete_ne in Hset' by done. by apply (Husers u').
  - destruct (decide (u' = u)) as [->|Hne].
    + rewrite lookup_insert_eq in Hset'. injection Hset' as <-.
      apply Nat.eqb_neq in Hlen. split; [intros E; rewrite E in Hlen; by apply Hlen|].
      apply NoDup_setDelete. by apply (Husers u set).
    + rewrite lookup_insert_ne in Hset' by done. by apply (Husers u').
Qed.

(** [cleanupClient] written as its two steps. *)
Lemma cleanupClient_steps h ws :
  exists h1,
    cleanupClient h ws
    = fold_left (fun acc g => leaveGameRoom acc ws g)
        (default [] (ws_joinedGames (wsGet h ws))) h1
    /\ sockets h1 = sockets h /\ gameRooms h1 = gameRooms h
    /\ (consistent h -> consistent h1)
    /\ (forall u, truthy (ws_userId (wsGet h ws)) <> Some u ->
                  clientsByUserId h1 !! u = clientsByUserId h !! u)
    /\ (forall u, truthy (ws_userId (wsGet h ws)) = Some u ->
                  ws ∉ default [] (clientsByUserId h1 !! u)).
Proof.
  unfold cleanupClient. cbv zeta.
  set (h1 := match truthy (ws_userId (wsGet h ws)) with
             | Some userId => _
             | None => h
             end).
  exists h1. split; [by destruct (ws_joinedGames (wsGet h ws))|].
  subst h1. destruct (truthy (ws_userId (wsGet h ws))) as [u|] eqn:Hu.
  - destruct (clientsByUserId h !! u) as [set|] eqn:Hset.
    + split; [reflexivity|]. split; [reflexivity|].
      split; [intros Hc; by apply consistent_cleanup_users|]. split.
      * intros u' Hne. cbn [clientsByUserId].
        assert (u' <> u) by congruence.
        destruct (length _ =? 0)%nat;
          [by rewrite lookup_delete_ne|by rewrite lookup_insert_ne].
      * intros u' [= <-]. cbn [clientsByUserId].
        destruct (length (setDelete ws set) =? 0)%nat eqn:Hlen.
        -- rewrite lookup_delete_eq. apply not_elem_of_nil.
        -- rewrite lookup_insert_eq. simpl. rewrite elem_of_setDelete. by intros [_ ?].
    + split; [reflexivity|]. split; [reflexivity|]. split; [auto|]. split; [auto|].
      intros u' [= <-]. rewrite Hset. apply not_elem_of_nil.
  - split; [reflexivity|]. split; [reflexivity|]. split; [auto|]. split; [auto|].
    discriminate.
Qed.

Lemma consistent_onClose h ws : consistent h -> consistent (onClose h ws).
Proof.
  intros Hc. unfold onClose.
  set (h0 := setWs h ws _).
  assert (Hc0 : consistent h0).
  { apply consistent_setWs; [exact Hc|auto|auto]. }
  destruct (cleanupClient_steps h0 ws) as (h1 & -> & _ & _ & Hc1 & _).
  by apply leaveAll_spec, Hc1.
Qed.

Section HubInvariant.
Variable verifyJwt : string -> Exn string.

Lemma consistent_handleMessage h ws msg now :
  consistent h -> consistent (handleMessage verifyJwt h ws msg now).1.
Proof.
  intros Hc. unfold handleMessage. cbv zeta.
  destruct (bool_decide (msg_type msg = Some "auth")).
  { destruct (truthy (msg_token msg)) as [token|]; [|exact Hc].
    destruct (verifyJwt token) as [u|]; [|exact Hc]. by apply consistent_registerClient. }
  destruct (bool_decide (msg_type msg = Some "join_game")).
  { destruct (ws_isAuthed (wsGet h ws)) eqn:Ha; [|exact Hc].
    destruct (truthy (msg_gameId msg)); [|exact Hc]. by apply consistent_joinGameRoom. }
  destruct (bool_decide (msg_type msg = Some "leave_game")).
  { destruct (ws_isAuthed (wsGet h ws)); [|exact Hc].
    destruct (truthy (msg_gameId msg)); [|exact Hc]. by apply consistent_leaveGameRoom. }
  destruct (bool_decide (msg_type msg = Some "ping")); exact Hc.
Qed.

Lemma reached_consistent h : reached verifyJwt h -> consistent h.
Proof.
  induction 1 as [|h ws Hr IH Hfresh|h ws data now Hr IH Hconn|h ws Hr IH Hconn
                  |h ws Hr IH Hconn].
  - exact consistent_initial.
  - apply consistent_setWs; [exact IH| |].
    + unfold wsGet. rewrite Hfresh. discriminate.
    + unfold wsGet. rewrite Hfresh. simpl. intros g Hg. by apply elem_of_nil in Hg.
  - destruct data as [msg|]; [|exact IH]. by apply consistent_handleMessage.
  - apply consistent_setWs; [exact IH|auto|auto].
  - by apply consistent_onClose.
Qed.

(** X24. In every state the hub reaches, through connections, messages of
    any content, ready-state changes and closes in any order, no room and no
    user's set is empty or lists a connection twice, and every member of a
    room is an authenticated connection that lists the room among its joined
    games. *)
Theorem reached_hub_is_consistent h : reached verifyJwt h -> consistent h.
Proof. exact (reached_consistent h). Qed.

(** X25. When a connection closes in a consistent hub, it is removed from
    every room, no other connection is removed from any room, and the hub is
    consistent again; rooms left empty are dropped. *)
Theorem close_leaves_every_room h ws :
  consistent h ->
  (forall g, ~ inRoom (onClose h ws) g ws)
  /\ (forall g ws', ws' <> ws -> inRoom (onClose h ws) g ws' <-> inRoom h g ws')
  /\ consistent (onClose h ws).
Proof.
  intros Hc. split; [|split; [|by apply consistent_onClose]].
  - intros g Hin. unfold onClose in Hin.
    set (h0 := setWs h ws _) in Hin.
    destruct (cleanupClient_steps h0 ws) as (h1 & E & _ & Hrooms & _).
    rewrite E in Hin. apply leaveAll_spec in Hin as [Hin Hnot].
    apply Hnot. split; [reflexivity|].
    unfold inRoom in Hin. rewrite Hrooms in Hin. cbn [h0 setWs gameRooms] in Hin.
    destruct (gameRooms h !! g) as [room|] eqn:Hroom; [|by apply elem_of_nil in Hin].
    destruct Hc as [Hc _]. destruct (Hc g room Hroom) as (_ & _ & Hmem).
    destruct (Hmem ws Hin) as [_ Hj]. subst h0. by rewrite wsGet_setWs.
  - intros g ws' Hne. unfold onClose.
    set (h0 := setWs h ws _).
    destruct (cleanupClient_steps h0 ws) as (h1 & -> & _ & Hrooms & _).
    destruct (leaveAll_spec h1 ws (default [] (ws_joinedGames (wsGet h0 ws))))
      as (_ & _ & Hr & _).
    rewrite Hr. unfold inRoom. rewrite Hrooms. cbn [h0 setWs gameRooms].
    split; [by intros [? _]|]. intros Hin. split; [exact Hin|]. by intros [? _].
Qed.

End HubInvariant.

(** *** Identities *)

Lemma wsGet_registerClient h ws u :
  wsGet (registerClient h ws u) ws
  = {| ws_open := ws_open (wsGet h ws); ws_isAuthed := true; ws_userId := Some u;
       ws_joinedGames := ws_joinedGames (wsGet h ws) |}.
Proof. unfold registerClient, wsGet at 1. cbn [sockets]. by rewrite lookup_insert_eq. Qed.

Lemma registered_registerClient h ws u u' ws' :
  registered (registerClient h ws u) u' ws'
  <-> (u' = u /\ ws' = ws) \/ registered h u' ws'.
Proof.
  unfold registered, registerClient. cbn [clientsByUserId].
  destruct (decide (u' = u)) as [->|Hne].
  - rewrite lookup_insert_eq. simpl. rewrite elem_of_setAdd. tauto.
  - rewrite lookup_insert_ne by done. split; [auto|]. by intros [[? _]|].
Qed.

Lemma registered_onClose h ws u ws' :
  registered (onClose h ws) u ws'
  <-> if bool_decide (truthy (ws_userId (wsGet h ws)) = Some u)
      then registered h u ws' /\ ws' <> ws
      else registered h u ws'.
Proof.
  unfold onClose. set (h0 := setWs h ws _).
  assert (Hid : ws_userId (wsGet h0 ws) = ws_userId (wsGet h ws)).
  { subst h0. by rewrite wsGet_setWs. }
  unfold registered, cleanupClient. cbv zeta. rewrite Hid.
  set (h1 := match truthy (ws_userId (wsGet h ws)) with
             | Some userId => _
             | None => h0
             end).
  assert (E : clientsByUserId
                (match ws_joinedGames (wsGet h0 ws) with
                 | Some joined => fold_left (fun acc g => leaveGameRoom acc ws g) joined h1
                 | None => h1
                 end) = clientsByUserId h1).
  { destruct (ws_joinedGames (wsGet h0 ws)) as [joined|]; [|reflexivity].
    by destruct (leaveAll_spec h1 ws joined) as (_ & -> & _). }
  rewrite E. subst h1.
  destruct (truthy (ws_userId (wsGet h ws))) as [u0|] eqn:Hu;
    [|by rewrite bool_decide_eq_false_2].
  destruct (decide (u0 = u)) as [->|Hne].
  - rewrite bool_decide_eq_true_2 by done.
    cbn [h0 setWs clientsByUserId].
    destruct (clientsByUserId h !! u) as [set|] eqn:Hset.
    + cbn [clientsByUserId]. destruct (length (setDelete ws set) =? 0)%nat eqn:Hlen.
      * apply Nat.eqb_eq, nil_length_inv in Hlen.
        rewrite lookup_delete_eq. simpl. rewrite elem_of_nil. split; [done|].
        intros [Hin Hneq].
        assert (H : ws' ∈ setDelete ws set) by (by apply elem_of_setDelete).
        rewrite Hlen in H. by apply elem_of_nil in H.
      * rewrite lookup_insert_eq. simpl. by rewrite elem_of_setDelete.
    + cbn [h0 setWs clientsByUserId]. rewrite Hset. simpl. rewrite elem_of_nil. tauto.
  - rewrite bool_decide_eq_false_2 by congruence.
    cbn [h0 setWs clientsByUserId].
    destruct (clientsByUserId h !! u0) as [set|] eqn:Hset; [|reflexivity].
    cbn [clientsByUserId]. destruct (length (setDelete ws set) =? 0)%nat;
      [by rewrite lookup_delete_ne|by rewrite lookup_insert_ne].
Qed.

Section HubIdentities.
Variable verifyJwt : string -> Exn string.

Lemma handleMessage_auth h ws t g u now :
  t <> EmptyString -> verifyJwt t = Ret u ->
  handleMessage verifyJwt h ws
    {| msg_type := Some "auth"; msg_token := Some t; msg_gameId := g |} now
  = (registerClient h ws u, safeSend (registerClient h ws u) ws (OAuthOk u)).
Proof.
  intros Ht Hu. unfold handleMessage. cbn [msg_type msg_token].
  rewrite bool_decide_eq_true_2 by reflexivity. by rewrite (truthy_Some t Ht), Hu.
Qed.

(** X26. A token that verifies registers the connection under its user, and
    only the [close] handler ever takes a connection out of a user's set, and
    only out of the set of the identity presented last.  So a connection that
    authenticates as one user and then as another receives the notifications
    of both, and once it has closed it is still listed under the first
    user. *)
Theorem second_token_keeps_the_first_identity h ws t1 t2 u1 u2 g1 g2 now1 now2 :
  ws_open (wsGet h ws) = true ->
  t1 <> EmptyString -> t2 <> EmptyString ->
  verifyJwt t1 = Ret u1 -> verifyJwt t2 = Ret u2 ->
  u1 <> u2 -> u2 <> EmptyString ->
  let auth t g := {| msg_type := Some "auth"; msg_token := Some t; msg_gameId := g |} in
  let h1 := (handleMessage verifyJwt h ws (auth t1 g1) now1).1 in
  let h2 := (handleMessage verifyJwt h1 ws (auth t2 g2) now2).1 in
  (handleMessage verifyJwt h ws (auth t1 g1) now1).2 = [(ws, OAuthOk u1)]
  /\ ws_userId (wsGet h2 ws) = Some u2
  /\ (forall (P : Type) (p : P),
        In (ws, p) (notifyUser h2 u1 p) /\ In (ws, p) (notifyUser h2 u2 p))
  /\ registered (onClose h2 ws) u1 ws
  /\ ~ registered (onClose h2 ws) u2 ws.
Proof.
  intros Hopen Ht1 Ht2 Hu1 Hu2 Hne Hu2'. cbv beta zeta.
  rewrite (handleMessage_auth h ws t1 g1 u1 now1 Ht1 Hu1). cbn [fst snd].
  rewrite (handleMessage_auth _ ws t2 g2 u2 now2 Ht2 Hu2). cbn [fst snd].
  set (h1 := registerClient h ws u1). set (h2 := registerClient h1 ws u2).
  assert (Ho1 : ws_open (wsGet h1 ws) = true).
  { subst h1. by rewrite wsGet_registerClient. }
  assert (Ho2 : ws_open (wsGet h2 ws) = true).
  { subst h2. by rewrite wsGet_registerClient. }
  assert (R1 : registered h2 u1 ws).
  { subst h2 h1. apply registered_registerClient. right.
    apply registered_registerClient. by left. }
  assert (R2 : registered h2 u2 ws).
  { subst h2. apply registered_registerClient. by left. }
  assert (Hid : truthy (ws_userId (wsGet h2 ws)) = Some u2).
  { subst h2. rewrite wsGet_registerClient. cbn [ws_userId]. by apply truthy_Some. }
  split; [unfold safeSend; by rewrite Ho1|].
  split; [subst h2; by rewrite wsGet_registerClient|].
  split; [intros P p; split; by apply In_notifyUser|]. split.
  - apply registered_onClose. rewrite Hid.
    rewrite bool_decide_eq_false_2 by congruence. exact R1.
  - rewrite registered_onClose, Hid, bool_decide_eq_true_2 by done. by intros [_ ?].
Qed.

End HubIdentities.

(** *** Worked inputs of the hub *)

Lemma aliceHub_open : ws_open (wsGet aliceHub 1%nat) = true.
Proof. vm_compute. reflexivity. Qed.

Lemma aliceHub_authed : ws_isAuthed (wsGet aliceHub 1%nat) = true.
Proof. vm_compute. reflexivity. Qed.

Lemma aliceHub_reached : reached nameJwt aliceHub.
Proof.
  unfold aliceHub.
  apply (reached_message nameJwt _ 1%nat (Some (authMsg "alice")) 0).
  - apply reached_connection; [constructor|reflexivity].
  - vm_compute. eauto.
Qed.

Lemma join_game_witness :
  (handleMessage nameJwt aliceHub 1%nat (joinMsg "g1") 0).2 = [(1%nat, OJoinedGame "g1")]
  /\ In (1%nat, "move") (broadcastToGame (handleMessage nameJwt aliceHub 1%nat (joinMsg "g1") 0).1
                           "g1" "move").
Proof.
  destruct (join_game_admits_any_authenticated_connection nameJwt aliceHub 1%nat None "g1" 0
              aliceHub_authed aliceHub_open) as (Hout & _ & Hall); [discriminate|].
  split; [exact Hout|apply Hall].
Defined.

Lemma leave_game_witness :
  ~ In (1%nat, "move")
      (broadcastToGame
         (handleMessage nameJwt (handleMessage nameJwt aliceHub 1%nat (joinMsg "g1") 0).1
            1%nat (leaveMsg "g1") 0).1 "g1" "move").
Proof.
  destruct (leave_game_stops_the_broadcasts nameJwt
              (handleMessage nameJwt aliceHub 1%nat (joinMsg "g1") 0).1 1%nat None "g1" 0)
    as (_ & Hnone & _).
  - vm_compute. reflexivity.
  - discriminate.
  - apply Hnone.
Defined.

Lemma unauthenticated_witness :
  (onMessage nameJwt (onConnection initial 1%nat).1 1%nat (Some (joinMsg "g1")) 0).1
  = (onConnection initial 1%nat).1.
Proof.
  apply (unauthenticated_connection_changes_nothing nameJwt (onConnection initial 1%nat).1
           1%nat (Some (joinMsg "g1")) 0).
  - vm_compute. reflexivity.
  - intros msg token [= <-] Htype. discriminate.
Defined.

Lemma reached_hub_witness :
  consistent (handleMessage nameJwt aliceHub 1%nat (joinMsg "g1") 0).1.
Proof.
  apply (reached_hub_is_consistent nameJwt).
  apply (reached_message nameJwt aliceHub 1%nat (Some (joinMsg "g1")) 0).
  - exact aliceHub_reached.
  - vm_compute. eauto.
Defined.

Lemma close_witness :
  ~ inRoom (onClose (handleMessage nameJwt aliceHub 1%nat (joinMsg "g1") 0).1 1%nat)
      "g1" 1%nat.
Proof.
  apply (close_leaves_every_room (handleMessage nameJwt aliceHub 1%nat (joinMsg "g1") 0).1
           1%nat).
  apply (reached_consistent nameJwt).
  apply (reached_message nameJwt aliceHub 1%nat (Some (joinMsg "g1")) 0).
  - exact aliceHub_reached.
  - vm_compute. eauto.
Defined.

Lemma second_token_witness :
  registered
    (onClose
       (handleMessage nameJwt
          (handleMessage nameJwt (onConnection initial 1%nat).1 1%nat (authMsg "alice") 0).1
          1%nat (authMsg "bob") 0).1 1%nat) "alice" 1%nat
  /\ ~ registered
         (onClose
            (handleMessage nameJwt
               (handleMessage nameJwt (onConnection initial 1%nat).1 1%nat (authMsg "alice") 0).1
               1%nat (authMsg "bob") 0).1 1%nat) "bob" 1%nat.
Proof.
  destruct (second_token_keeps_the_first_identity nameJwt (onConnection initial 1%nat).1 1%nat
              "alice" "bob" "alice" "bob" None None 0 0) as (_ & _ & _ & H1 & H2);
    try discriminate; try reflexivity.
  split; [exact H1|exact H2].
Defined.
